(** * MindfulTube (app.py): a shallow embedding and its verified properties

    The development follows [src/app.py].  A Python [str] is represented by
    a Rocq [string] holding its UTF-8 encoding; every delimiter the program
    searches for is an ASCII character, so splitting, prefix tests and
    equality act on the encoding exactly as they act on the text.

    The program calls into the Python standard library ([urllib.parse],
    [datetime]).  The parts of those calls that are plain text processing
    are embedded below as functions (following CPython 3.12); the parts
    that need Unicode tables, an IP address parser or a calendar are taken
    as the fields of a [Library] record over which everything is
    parametric. *)

From Stdlib Require Import Ascii String QArith.
From stdpp Require Import gmap strings list fin_maps sorting.

Local Open Scope string_scope.
Local Open Scope char_scope.

(** ** Exceptions and results *)

Inductive exn : Set := ValueError | IndexError | KeyError.

Inductive pyresult (A : Type) : Type :=
  | Ok (a : A)
  | Raise (e : exn).
Arguments Ok {A} a.
Arguments Raise {A} e.

#[global] Instance pyresult_ret : MRet pyresult := fun A a => Ok a.
#[global] Instance pyresult_bind : MBind pyresult := fun A B f m =>
  match m with
  | Ok a => f a
  | Raise e => Raise e
  end.

Definition returns {A} (m : pyresult A) : Prop := ∃ a, m = Ok a.

(** ** Text primitives ([str] methods used by the program) *)

Module Str.

Fixpoint forallb (p : ascii → bool) (s : string) : bool :=
  match s with
  | EmptyString => true
  | String c s' => p c && forallb p s'
  end.

(** [c in s] for a one-character [c]. *)
Fixpoint mem (c : ascii) (s : string) : bool :=
  match s with
  | EmptyString => false
  | String d s' => Ascii.eqb d c || mem c s'
  end.

(** [s.partition(c)]: the text before and after the first [c]. *)
Fixpoint cut (c : ascii) (s : string) : option (string * string) :=
  match s with
  | EmptyString => None
  | String d s' =>
      if Ascii.eqb d c then Some (EmptyString, s')
      else match cut c s' with
           | Some (a, b) => Some (String d a, b)
           | None => None
           end
  end.

(** [s.rpartition(c)], keeping the separator with the left part:
    [(s[:i+1], s[i+1:])] for [i = s.rfind(c)]. *)
Fixpoint rcut (c : ascii) (s : string) : option (string * string) :=
  match s with
  | EmptyString => None
  | String d s' =>
      match rcut c s' with
      | Some (a, b) => Some (String d a, b)
      | None => if Ascii.eqb d c then Some (String d EmptyString, s') else None
      end
  end.

(** [s.split(c)] *)
Fixpoint split (c : ascii) (s : string) : list string :=
  match s with
  | EmptyString => [EmptyString]
  | String d s' =>
      if Ascii.eqb d c then EmptyString :: split c s'
      else match split c s' with
           | h :: t => String d h :: t
           | [] => [String d EmptyString]
           end
  end.

(** [s.replace(c, d)] for one-character [c] and [d]. *)
Fixpoint replace (c d : ascii) (s : string) : string :=
  match s with
  | EmptyString => EmptyString
  | String e s' => String (if Ascii.eqb e c then d else e) (replace c d s')
  end.

(** [s.replace(c, sub)] for a one-character [c]. *)
Fixpoint replace_with (c : ascii) (sub : string) (s : string) : string :=
  match s with
  | EmptyString => EmptyString
  | String e s' =>
      if Ascii.eqb e c then sub +:+ replace_with c sub s'
      else String e (replace_with c sub s')
  end.

(** [s.replace(c, "")] *)
Fixpoint remove (c : ascii) (s : string) : string :=
  match s with
  | EmptyString => EmptyString
  | String e s' => if Ascii.eqb e c then remove c s' else String e (remove c s')
  end.

(** [s.startswith(p)] *)
Fixpoint startswith (p s : string) : bool :=
  match p, s with
  | EmptyString, _ => true
  | String a p', String b s' => Ascii.eqb a b && startswith p' s'
  | String _ _, EmptyString => false
  end.

(** [sub in s] *)
Fixpoint contains (sub s : string) : bool :=
  startswith sub s ||
  match s with
  | EmptyString => false
  | String _ s' => contains sub s'
  end.

(** [s.lstrip(chars)] with the set [chars] given as a predicate. *)
Fixpoint lstrip (p : ascii → bool) (s : string) : string :=
  match s with
  | EmptyString => EmptyString
  | String c s' => if p c then lstrip p s' else s
  end.

(** The longest prefix free of [p]-characters, and the rest. *)
Fixpoint span_until (p : ascii → bool) (s : string) : string * string :=
  match s with
  | EmptyString => (EmptyString, EmptyString)
  | String c s' =>
      if p c then (EmptyString, s)
      else let '(a, b) := span_until p s' in (String c a, b)
  end.

Definition code (c : ascii) : nat := nat_of_ascii c.

Definition in_range (lo hi : nat) (c : ascii) : bool :=
  (lo <=? code c)%nat && (code c <=? hi)%nat.

Definition is_upper : ascii → bool := in_range 65 90.
Definition is_lower : ascii → bool := in_range 97 122.
Definition is_digit : ascii → bool := in_range 48 57.
Definition is_ascii (c : ascii) : bool := (code c <? 128)%nat.
Definition is_alpha (c : ascii) : bool := is_upper c || is_lower c.

Definition lower_char (c : ascii) : ascii :=
  if is_upper c then ascii_of_nat (code c + 32) else c.

Fixpoint lower (s : string) : string :=
  match s with
  | EmptyString => EmptyString
  | String c s' => String (lower_char c) (lower s')
  end.

(** Truthiness of a [str]. *)
Definition nonempty (s : string) : bool :=
  match s with EmptyString => false | String _ _ => true end.

End Str.

(** [l[i]] on a Python list. *)
Definition py_index {A} (l : list A) (i : nat) : pyresult A :=
  match l !! i with
  | Some x => Ok x
  | None => Raise IndexError
  end.

(** ** Calendar dates *)

Record date : Set := Date { year : nat; month : nat; day : nat }.

#[global] Instance date_eq_dec : EqDecision date.
Proof. solve_decision. Defined.

Definition digit_char (n : nat) : ascii := ascii_of_nat (48 + n mod 10).

(** [n] printed in decimal, zero-padded to [w] digits (its last [w] digits). *)
Fixpoint zero_padded (w n : nat) : string :=
  match w with
  | O => EmptyString
  | S w' => zero_padded w' (n / 10) +:+ String (digit_char n) EmptyString
  end.

(** [date.isoformat()]: [YYYY-MM-DD]. *)
Definition isoformat (d : date) : string :=
  zero_padded 4 (year d) +:+ "-" +:+ zero_padded 2 (month d) +:+ "-" +:+
  zero_padded 2 (day d).

(** ** The standard-library services the program relies on *)

Record Library : Type := {
  (** [urlsplit]'s validation of a network location holding both [[] and
      []] (an IPv6 or IPvFuture literal); [false] when it raises. *)
  bracketed_netloc_ok : string → bool;
  (** [urlsplit]'s NFKC check of a non-ASCII network location. *)
  nfkc_netloc_ok : string → bool;
  (** [unquote] on a text that holds at least one [%]: percent-decoding
      followed by UTF-8 decoding with replacement. *)
  unquote_escapes : string → string;
  (** [datetime.fromisoformat(s).date()]; [None] when it raises. *)
  fromisoformat_date : string → option date;
  (** [datetime.fromisoformat(s).timestamp()], the exact value of the
      resulting float; [None] when [fromisoformat] raises. *)
  fromisoformat_timestamp : string → option Q;
}.

(** ** [urllib.parse]: [urlparse] and [parse_qs] *)

Record ParseResult : Set := {
  scheme : string;
  netloc : string;
  path : string;
  params : string;
  query : string;
  fragment : string;
}.

(** Module constants of [urllib.parse]. *)
Definition is_c0_control_or_space (c : ascii) : bool := (Str.code c <=? 32)%nat.

Definition is_scheme_char (c : ascii) : bool :=
  Str.is_alpha c || Str.is_digit c ||
  Ascii.eqb c "+" || Ascii.eqb c "-" || Ascii.eqb c ".".

Definition uses_params : list string :=
  [""; "ftp"; "hdl"; "prospero"; "http"; "imap"; "https"; "shttp"; "rtsp";
   "rtsps"; "rtspu"; "sip"; "sips"; "mms"; "sftp"; "tel"]%string.

Definition is_netloc_delim (c : ascii) : bool :=
  Ascii.eqb c "/" || Ascii.eqb c "?" || Ascii.eqb c "#".

Section UrlLib.

Variable L : Library.

(** The scheme step of [urlsplit]: [url.find(':')], the test of the
    characters before it, and the lower-cased scheme. *)
Definition split_scheme (url : string) : string * string :=
  match Str.cut ":" url with
  | Some (String c0 _ as before, after) =>
      if Str.is_ascii c0 && Str.is_alpha c0 && Str.forallb is_scheme_char before
      then (Str.lower before, after)
      else (EmptyString, url)
  | _ => (EmptyString, url)
  end.

(** [_splitnetloc(url, 2)] on a text that starts with [//]. *)
Definition split_netloc (url : string) : string * string :=
  match url with
  | String "/" (String "/" rest) => Str.span_until is_netloc_delim rest
  | _ => (EmptyString, url)
  end.

Definition check_brackets (nl : string) : pyresult unit :=
  let lb := Str.mem "[" nl in
  let rb := Str.mem "]" nl in
  if (lb && negb rb) || (rb && negb lb) then Raise ValueError
  else if lb && rb then
    if bracketed_netloc_ok L nl then Ok () else Raise ValueError
  else Ok ().

(** [_checknetloc] *)
Definition checknetloc (nl : string) : pyresult unit :=
  if negb (Str.nonempty nl) || Str.forallb Str.is_ascii nl then Ok ()
  else if nfkc_netloc_ok L nl then Ok () else Raise ValueError.

(** [urlsplit(url)]: scheme, netloc, path, query, fragment. *)
Definition urlsplit (url : string)
  : pyresult (string * string * string * string * string) :=
  let url := Str.lstrip is_c0_control_or_space url in
  let url := Str.remove "009" url in
  let url := Str.remove "013" url in
  let url := Str.remove "010" url in
  let '(sch, url) := split_scheme url in
  let '(nl, url) := split_netloc url in
  _ ← check_brackets nl;
  let '(url, frag) :=
    match Str.cut "#" url with
    | Some (a, b) => (a, b)
    | None => (url, EmptyString)
    end in
  let '(url, qry) :=
    match Str.cut "?" url with
    | Some (a, b) => (a, b)
    | None => (url, EmptyString)
    end in
  _ ← checknetloc nl;
  Ok (sch, nl, url, qry, frag).

(** [_splitparams(url)], called on a path that holds a [;]. *)
Definition splitparams (url : string) : string * string :=
  if Str.mem "/" url then
    match Str.rcut "/" url with
    | Some (dir, last) =>
        match Str.cut ";" last with
        | Some (a, b) => (dir +:+ a, b)
        | None => (url, EmptyString)
        end
    | None => (url, EmptyString)
    end
  else
    match Str.cut ";" url with
    | Some (a, b) => (a, b)
    | None => (url, EmptyString)
    end.

Definition urlparse (url : string) : pyresult ParseResult :=
  '(sch, nl, p, qry, frag) ← urlsplit url;
  let '(p, prm) :=
    if bool_decide (sch ∈ uses_params) && Str.mem ";" p
    then splitparams p else (p, EmptyString) in
  Ok {| scheme := sch; netloc := nl; path := p; params := prm;
        query := qry; fragment := frag |}.

(** [unquote(s)] *)
Definition unquote (s : string) : string :=
  if Str.mem "%" s then unquote_escapes L s else s.

(** One field of [parse_qsl]: [name=value] with a non-blank value. *)
Definition parse_field (name_value : string) : option (string * string) :=
  match Str.cut "=" name_value with
  | Some (name, value) =>
      if Str.nonempty value
      then Some (unquote (Str.replace "+" " " name),
                 unquote (Str.replace "+" " " value))
      else None
  | None => None
  end.

(** [parse_qsl(qs)] with the default separator [&]. *)
Definition parse_qsl (qs : string) : list (string * string) :=
  omap parse_field (Str.split "&" qs).

(** [parse_qs(qs)]: each name with its values in order of appearance. *)
Definition parse_qs (qs : string) : gmap string (list string) :=
  foldl (fun (m : gmap string (list string)) (nv : string * string) =>
           let '(name, value) := nv in
           match m !! name with
           | Some vs => <[name := (vs ++ [value])%list]> m
           | None => <[name := [value]]> m
           end) ∅ (parse_qsl qs).

(** ** The URL normalizer and the playlist-id extractor *)

(** [parse_qs(query).get(key, [None])[0]] *)
Definition first_value (key : string) (qs : string) : pyresult (option string) :=
  match parse_qs qs !! key with
  | Some vs => v ← py_index vs 0; Ok (Some v)
  | None => Ok None
  end.

Definition canonical (video_id : string) : string :=
  "https://www.youtube.com/watch?v=" +:+ video_id.

Definition normalize_youtube_url (url : string) : pyresult string :=
  parsed_url ← urlparse url;
  video_id ←
    (if bool_decide (netloc parsed_url ∈ ["www.youtube.com"; "youtube.com"]%string) then
       if bool_decide (path parsed_url = "/watch"%string) then
         first_value "v" (query parsed_url)
       else if Str.startswith "/embed/" (path parsed_url) then
         v ← py_index (Str.split "/" (path parsed_url)) 2; Ok (Some v)
       else Ok None
     else if bool_decide (netloc parsed_url ∈ ["youtu.be"]%string) then
       v ← py_index (Str.split "/" (path parsed_url)) 1; Ok (Some v)
     else Ok None);
  match video_id with
  | Some v => if Str.nonempty v then Ok (canonical v) else Ok url
  | None => Ok url
  end.

Definition get_playlist_id (url : string) : pyresult (option string) :=
  parsed_url ← urlparse url;
  if Str.contains "youtube.com" (netloc parsed_url)
     && bool_decide (is_Some (parse_qs (query parsed_url) !! "list"%string))
  then
    match parse_qs (query parsed_url) !! "list"%string with
    | Some vs => v ← py_index vs 0; Ok (Some v)
    | None => Raise KeyError
    end
  else if Str.contains "youtu.be" (netloc parsed_url) then Ok None
  else Ok None.

End UrlLib.

(** ** Data model (the JSON document of [DATA_FILE]) *)

Local Open Scope list_scope.

Record VideoRecord : Set := {
  url : string;
  publishedAt : string;
  title : string;
  description : string;
  fed : bool;
  summary : option string;
  usefulness_rating : option string;
  actionable_points : option (list string);
}.

Record PlaylistRecord : Set := {
  playlist_url : string;
  videos : list VideoRecord;
  added_date : string;
}.

(** [playlists] is a Python dict: keys are unique and iteration follows
    insertion order, which the scans below depend on. *)
Record Document : Set := {
  playlists : list (string * PlaylistRecord);
  last_fed_date : option string;
}.

(** *** Field assignments *)

(** [v["publishedAt"] = p; v["title"] = t; v["description"] = d] *)
Definition set_metadata (p t d : string) (v : VideoRecord) : VideoRecord :=
  {| url := url v; publishedAt := p; title := t; description := d;
     fed := fed v; summary := summary v;
     usefulness_rating := usefulness_rating v;
     actionable_points := actionable_points v |}.

(** [v["summary"] = s; v["usefulness_rating"] = r; v["actionable_points"] = a] *)
Definition set_analysis (s r : string) (a : list string) (v : VideoRecord)
  : VideoRecord :=
  {| url := url v; publishedAt := publishedAt v; title := title v;
     description := description v; fed := fed v; summary := Some s;
     usefulness_rating := Some r; actionable_points := Some a |}.

(** [v["fed"] = True] *)
Definition set_fed (v : VideoRecord) : VideoRecord :=
  {| url := url v; publishedAt := publishedAt v; title := title v;
     description := description v; fed := true; summary := summary v;
     usefulness_rating := usefulness_rating v;
     actionable_points := actionable_points v |}.

Definition set_videos (vs : list VideoRecord) (p : PlaylistRecord)
  : PlaylistRecord :=
  {| playlist_url := playlist_url p; videos := vs; added_date := added_date p |}.

(** *** Configuration *)

Definition YOUTUBE_API_KEY : string := "API".
Definition GEMINI_API_KEY : string := "API".
Definition DAILY_VIDEO_LIMIT : nat := 2.

Definition USEFULNESS_ORDER : gmap string nat :=
  list_to_map
    [("highly_useful", 0); ("useful", 1); ("review_needed", 2);
     ("fluff", 3); ("outdated", 4); ("unknown", 5)]%string.

(** *** Data management *)

(** The data file: [None] when it does not exist. *)
Definition load_data (file : option Document) : Document :=
  match file with
  | Some d => d
  | None => {| playlists := []; last_fed_date := None |}
  end.

Definition clean_description (description : string) : string :=
  Str.replace "013" " " (Str.replace "010" " " description).

(** What a command prints, and what it leaves in the data file. *)
Inductive Message : Set :=
  | ErrNoPlaylistId (playlist_url : string)
  | ErrAlreadyTracked (playlist_url : string)
  | ErrNotTracked (playlist_url : string)
  | ErrYouTubeApi
  | ErrUnexpected
  | ErrNoVideosFound (playlist_url : string)
  | Fetching (playlist_url : string)
  | Added (playlist_url : string) (count : nat)
  | SyncComplete (playlist_url : string) (new_videos_count : nat)
  | AnalysisSaved (video_url : string)
  | ErrVideoNotFound (video_url : string)
  | AutoAnalyzing (video_url : string)
  | ErrNoVideoId (video_url : string)
  | AutoAnalyzed (video_url : string)
  | ErrLlmJson (video_url : string)
  | ErrLlm (video_url : string)
  | MarkedWatched (video_url : string)
  | Skipped (video_url : string)
  | AlreadyFedToday
  | NoUnfedVideos
  | NextVideo (playlist_url : string) (video : VideoRecord).

(** [saved = Some d] when [save_data(d)] ran, [None] when the command
    returned without saving. *)
Record Outcome : Set := {
  saved : option Document;
  printed : list Message;
}.

Definition no_save (ms : list Message) : Outcome :=
  {| saved := None; printed := ms |}.

(** The data file after a command. *)
Definition file_after (file : option Document) (o : Outcome) : option Document :=
  match saved o with
  | Some d => Some d
  | None => file
  end.

(** *** Dict operations on [playlists] *)

Fixpoint dict_get {V} (k : string) (d : list (string * V)) : option V :=
  match d with
  | [] => None
  | (k', v) :: d' => if bool_decide (k' = k) then Some v else dict_get k d'
  end.

(** [d[k] = v]: in place when [k] is a key, appended otherwise. *)
Fixpoint dict_set {V} (k : string) (v : V) (d : list (string * V))
  : list (string * V) :=
  match d with
  | [] => [(k, v)]
  | (k', v') :: d' =>
      if bool_decide (k' = k) then (k, v) :: d' else (k', v') :: dict_set k v d'
  end.

(** The scan shared by [analyze], [auto_analyze], [watch], [skip] and
    [next]: the first video satisfying [p], in playlist order then video
    order, is replaced by its image under [f]. *)
Fixpoint update_first_video (p : VideoRecord → bool) (f : VideoRecord → VideoRecord)
    (vs : list VideoRecord) : option (VideoRecord * list VideoRecord) :=
  match vs with
  | [] => None
  | v :: vs' =>
      if p v then Some (v, f v :: vs')
      else match update_first_video p f vs' with
           | Some (w, vs'') => Some (w, v :: vs'')
           | None => None
           end
  end.

Fixpoint update_first (p : VideoRecord → bool) (f : VideoRecord → VideoRecord)
    (pls : list (string * PlaylistRecord))
  : option (PlaylistRecord * VideoRecord * list (string * PlaylistRecord)) :=
  match pls with
  | [] => None
  | (pid, pl) :: pls' =>
      match update_first_video p f (videos pl) with
      | Some (w, vs) => Some (pl, w, (pid, set_videos vs pl) :: pls')
      | None =>
          match update_first p f pls' with
          | Some (pl', w, pls'') => Some (pl', w, (pid, pl) :: pls'')
          | None => None
          end
      end
  end.

Definition has_url (u : string) (v : VideoRecord) : bool := bool_decide (url v = u).

(** ** The YouTube Data API, as [get_playlist_items] uses it *)

(** One item of a [videos().list(part="snippet")] response. *)
Record ApiItem : Set := {
  item_id : string;
  item_publishedAt : string;
  item_title : string;
  item_description : string;
}.

(** The service for one playlist: the [playlistItems().list] pages up to
    the one without [nextPageToken] (each entry with its
    [contentDetails.videoId], when it has one), and [videos().list] on a
    batch of ids.  A request that fails raises. *)
Inductive api_error : Set := HttpError | OtherError.

Record YouTube : Type := {
  playlist_pages : api_error + list (list (option string));
  videos_list : list string → api_error + list ApiItem;
}.

(** [range(0, len(l), n)] with [l[i:i+n]] *)
Fixpoint batches_fuel {A} (fuel n : nat) (l : list A) : list (list A) :=
  match fuel, l with
  | S fuel', _ :: _ => take n l :: batches_fuel fuel' n (drop n l)
  | _, _ => []
  end.

Definition batches {A} (n : nat) (l : list A) : list (list A) :=
  batches_fuel (length l) n l.

(** What a failed fetch leaves its caller with: an API error, or an
    exception raised by the program's own code. *)
Inductive fetch_error : Set :=
  | ApiFailed (e : api_error)
  | Raised (e : exn).

Section Commands.

Variable L : Library.

(** The record built for one response item (lines 110-121). *)
Definition video_of_item (item : ApiItem) : pyresult VideoRecord :=
  u ← normalize_youtube_url L
         ("https://www.youtube.com/watch?v=" +:+ item_id item);
  Ok {| url := u;
        publishedAt := item_publishedAt item;
        title := item_title item;
        description := clean_description (item_description item);
        fed := false;
        summary := None; usefulness_rating := None;
        actionable_points := None |}.

Fixpoint videos_of_items (items : list ApiItem) : pyresult (list VideoRecord) :=
  match items with
  | [] => Ok []
  | item :: items' =>
      v ← video_of_item item;
      vs ← videos_of_items items';
      Ok (v :: vs)
  end.

Fixpoint fetch_batches (youtube : YouTube) (bs : list (list string))
  : fetch_error + list VideoRecord :=
  match bs with
  | [] => inr []
  | batch_ids :: bs' =>
      match videos_list youtube batch_ids with
      | inl e => inl (ApiFailed e)
      | inr items =>
          match videos_of_items items with
          | Raise e => inl (Raised e)
          | Ok vs =>
              match fetch_batches youtube bs' with
              | inl e => inl e
              | inr vs' => inr (vs ++ vs')
              end
          end
      end
  end.

Definition get_playlist_items (youtube : YouTube)
  : fetch_error + list VideoRecord :=
  match playlist_pages youtube with
  | inl e => inl (ApiFailed e)
  | inr pages =>
      let video_ids := omap id (concat pages) in
      fetch_batches youtube (batches 50 video_ids)
  end.

(** The [except] clauses of [add_playlist] and [sync_playlist]. *)
Definition fetch_error_message (e : fetch_error) : Message :=
  match e with
  | ApiFailed HttpError => ErrYouTubeApi
  | _ => ErrUnexpected
  end.

(** ** [add_playlist] *)

Definition add_playlist (file : option Document) (youtube : YouTube)
    (now : string) (playlist_url : string) : pyresult Outcome :=
  if bool_decide (YOUTUBE_API_KEY = "YOUR_YOUTUBE_API_KEY"%string)
  then Ok (no_save [])
  else
    playlist_id ← get_playlist_id L playlist_url;
    match playlist_id with
    | None | Some EmptyString => Ok (no_save [ErrNoPlaylistId playlist_url])
    | Some playlist_id =>
        let data := load_data file in
        match dict_get playlist_id (playlists data) with
        | Some _ => Ok (no_save [ErrAlreadyTracked playlist_url])
        | None =>
            match get_playlist_items youtube with
            | inl e => Ok (no_save [Fetching playlist_url; fetch_error_message e])
            | inr [] =>
                Ok (no_save [Fetching playlist_url; ErrNoVideosFound playlist_url])
            | inr video_urls =>
                let entry := {| playlist_url := playlist_url;
                                videos := video_urls;
                                added_date := now |} in
                Ok {| saved :=
                        Some {| playlists :=
                                  dict_set playlist_id entry (playlists data);
                                last_fed_date := last_fed_date data |};
                      printed := [Fetching playlist_url;
                                  Added playlist_url (length video_urls)] |}
            end
        end
    end.

(** ** [sync_playlist]

    The source defines [sync_playlist] twice, with the same body up to the
    stream of one message; the second definition is the one in effect. *)

(** [{v["url"]: v for v in videos}]: each URL with the position of the
    record it maps to (the last one, when a URL occurs twice). *)
Definition local_video_urls (vs : list VideoRecord) : gmap string nat :=
  foldl (fun (m : gmap string nat) (iv : nat * VideoRecord) =>
           <[url iv.2 := iv.1]> m) ∅ (imap pair vs).

(** An element of [updated_videos_list]: the local record at a position
    (shared with [local_playlist["videos"]] and updated in place), or
    the freshly fetched record. *)
Inductive video_ref : Set :=
  | Existing (i : nat)
  | Fetched (v : VideoRecord).

Record merge_state : Set := {
  local_records : list VideoRecord;
  updated_videos_list : list video_ref;
  new_videos_count : nat;
}.

(** One iteration of the loop over [current_youtube_videos]. *)
Definition merge_step (index : gmap string nat) (st : merge_state)
    (yt_video : VideoRecord) : merge_state :=
  match index !! url yt_video with
  | Some i =>
      {| local_records :=
           alter (set_metadata (publishedAt yt_video) (title yt_video)
                               (description yt_video)) i (local_records st);
         updated_videos_list := updated_videos_list st ++ [Existing i];
         new_videos_count := new_videos_count st |}
  | None =>
      {| local_records := local_records st;
         updated_videos_list := updated_videos_list st ++ [Fetched yt_video];
         new_videos_count := S (new_videos_count st) |}
  end.

Definition merge (local current_youtube_videos : list VideoRecord)
  : merge_state :=
  foldl (merge_step (local_video_urls local))
        {| local_records := local; updated_videos_list := [];
           new_videos_count := 0 |}
        current_youtube_videos.

(** The records the references denote when the document is saved. *)
Definition deref (records : list VideoRecord) (r : video_ref)
  : option VideoRecord :=
  match r with
  | Existing i => records !! i
  | Fetched v => Some v
  end.

Definition merged_videos (local current_youtube_videos : list VideoRecord)
  : list VideoRecord :=
  let st := merge local current_youtube_videos in
  omap (deref (local_records st)) (updated_videos_list st).

Definition sync_playlist (file : option Document) (youtube : YouTube)
    (playlist_url : string) : pyresult Outcome :=
  if bool_decide (YOUTUBE_API_KEY = "YOUR_YOUTUBE_API_KEY"%string)
  then Ok (no_save [])
  else
    playlist_id ← get_playlist_id L playlist_url;
    match playlist_id with
    | None | Some EmptyString => Ok (no_save [ErrNoPlaylistId playlist_url])
    | Some playlist_id =>
        let data := load_data file in
        match dict_get playlist_id (playlists data) with
        | None => Ok (no_save [ErrNotTracked playlist_url])
        | Some local_playlist =>
            match get_playlist_items youtube with
            | inl e => Ok (no_save [Fetching playlist_url; fetch_error_message e])
            | inr current_youtube_videos =>
                let st := merge (videos local_playlist) current_youtube_videos in
                let local_playlist' :=
                  set_videos (merged_videos (videos local_playlist)
                                            current_youtube_videos)
                             local_playlist in
                Ok {| saved :=
                        Some {| playlists :=
                                  dict_set playlist_id local_playlist'
                                           (playlists data);
                                last_fed_date := last_fed_date data |};
                      printed := [Fetching playlist_url;
                                  SyncComplete playlist_url
                                               (new_videos_count st)] |}
            end
        end
    end.

End Commands.

(** ** [str.strip()] on the UTF-8 encoding

    The white-space characters of [str.isspace]: the ASCII ones, and
    U+0085, U+00A0, U+1680, U+2000..U+200A, U+2028, U+2029, U+202F, U+205F
    and U+3000, whose encodings take two or three bytes. *)
Module Strip.

Definition space1 (c : ascii) : bool :=
  Str.in_range 9 13 c || Str.in_range 28 32 c.

Definition space2 (a b : ascii) : bool :=
  (Str.code a =? 194)%nat && ((Str.code b =? 133)%nat || (Str.code b =? 160)%nat).

Definition space3 (a b c : ascii) : bool :=
  let '(a, b, c) := (Str.code a, Str.code b, Str.code c) in
  ((a =? 225) && (b =? 154) && (c =? 128))%nat
  || ((a =? 226) && (b =? 128)
      && ((128 <=? c) && (c <=? 138) || (c =? 168) || (c =? 169) || (c =? 175)))%nat
  || ((a =? 226) && (b =? 129) && (c =? 159))%nat
  || ((a =? 227) && (b =? 128) && (c =? 128))%nat.

(** Leading white space removed; with [backwards] the text is read from
    its end, so the bytes of a character arrive last byte first. *)
Fixpoint lstrip (backwards : bool) (s : string) : string :=
  match s with
  | EmptyString => EmptyString
  | String a s1 =>
      if space1 a then lstrip backwards s1
      else match s1 with
           | EmptyString => s
           | String b s2 =>
               if (if backwards then space2 b a else space2 a b)
               then lstrip backwards s2
               else match s2 with
                    | EmptyString => s
                    | String c s3 =>
                        if (if backwards then space3 c b a else space3 a b c)
                        then lstrip backwards s3
                        else s
                    end
           end
  end.

Definition strip (s : string) : string :=
  String.rev (lstrip true (String.rev (lstrip false s))).

End Strip.

(** ** Analysis, watch and skip *)

(** The reply of the language model to the prompt built from the video's
    title, description and transcript: its text, or a failed call. *)
Inductive LlmReply : Set :=
  | LlmText (llm_output : string)
  | LlmFailed.

(** [json.loads] on the model's text, as far as the program looks at it:
    an object with its three optional keys, or some other JSON value. *)
Inductive JsonAnalysis : Set :=
  | JsonObject (summary usefulness_rating : option string)
               (actionable_points : option (list string))
  | JsonOther.

Section Analysis.

Variable L : Library.
(** [json.loads]; [None] for [JSONDecodeError]. *)
Variable json_loads : string → option JsonAnalysis.

Definition parse_points (actionable_points_str : string) : list string :=
  omap (fun ap => if Str.nonempty (Strip.strip ap)
                  then Some (Strip.strip ap) else None)
       (Str.split ";" actionable_points_str).

Definition analyze_video (file : option Document)
    (video_url summary usefulness_rating actionable_points_str : string)
  : pyresult Outcome :=
  video_url ← normalize_youtube_url L video_url;
  let data := load_data file in
  match update_first (has_url video_url)
          (set_analysis summary usefulness_rating
                        (parse_points actionable_points_str))
          (playlists data) with
  | Some (_, _, pls) =>
      Ok {| saved := Some {| playlists := pls;
                             last_fed_date := last_fed_date data |};
            printed := [AnalysisSaved video_url] |}
  | None => Ok (no_save [ErrVideoNotFound video_url])
  end.

Definition endswith (suffix s : string) : bool :=
  Str.startswith (String.rev suffix) (String.rev s).

(** Lines 357-358: the code fence around the model's answer. *)
Definition strip_fence (llm_output : string) : string :=
  if Str.startswith "```json" llm_output && endswith "```" llm_output
  then Strip.strip
         (String.substring 7 (String.length llm_output - 3 - 7) llm_output)
  else llm_output.

(** [video_data] is the first record with the normalized URL; the three
    assignments at the end write to that same record, which the scan with
    [set_analysis] finds again. *)
Definition auto_analyze_video_with_llm (file : option Document)
    (llm : LlmReply) (video_url : string) : pyresult Outcome :=
  video_url ← normalize_youtube_url L video_url;
  if bool_decide (GEMINI_API_KEY = "YOUR_GEMINI_API_KEY"%string)
  then Ok (no_save [])
  else
    let data := load_data file in
    match update_first (has_url video_url) (fun v => v) (playlists data) with
    | None => Ok (no_save [ErrVideoNotFound video_url])
    | Some (_, video_data, _) =>
        parsed_normalized_url ← urlparse L video_url;
        video_id ← first_value L "v" (query parsed_normalized_url);
        match video_id with
        | None | Some EmptyString =>
            Ok (no_save [AutoAnalyzing video_url; ErrNoVideoId video_url])
        | Some _ =>
            match llm with
            | LlmFailed => Ok (no_save [AutoAnalyzing video_url; ErrLlm video_url])
            | LlmText llm_output =>
                match json_loads (strip_fence llm_output) with
                | None =>
                    Ok (no_save [AutoAnalyzing video_url; ErrLlmJson video_url])
                | Some JsonOther =>
                    Ok (no_save [AutoAnalyzing video_url; ErrLlm video_url])
                | Some (JsonObject s r a) =>
                    match update_first (has_url video_url)
                            (set_analysis (default EmptyString s)
                                          (default "unknown"%string r)
                                          (default [] a))
                            (playlists data) with
                    | Some (_, _, pls) =>
                        Ok {| saved := Some {| playlists := pls;
                                 last_fed_date := last_fed_date data |};
                              printed := [AutoAnalyzing video_url;
                                          AutoAnalyzed video_url] |}
                    | None => Ok (no_save [ErrVideoNotFound video_url])
                    end
                end
            end
        end
    end.

Definition mark_fed (done : string → Message) (file : option Document)
    (video_url : string) : pyresult Outcome :=
  video_url ← normalize_youtube_url L video_url;
  let data := load_data file in
  match update_first (has_url video_url) set_fed (playlists data) with
  | Some (_, _, pls) =>
      Ok {| saved := Some {| playlists := pls;
                             last_fed_date := last_fed_date data |};
            printed := [done video_url] |}
  | None => Ok (no_save [ErrVideoNotFound video_url])
  end.

Definition mark_video_watched : option Document → string → pyresult Outcome :=
  mark_fed MarkedWatched.

Definition skip_video : option Document → string → pyresult Outcome :=
  mark_fed Skipped.

End Analysis.

(** ** The daily feed selector: [get_next_video] *)

(** The sort key of line 451: the usefulness rank and the negated publish
    timestamp.  Python compares the tuples lexicographically. *)
Definition sort_key : Type := nat * Q.

Definition Qltb (a b : Q) : bool := negb (Qle_bool b a).

Definition key_lt (a b : sort_key) : bool :=
  if (a.1 =? b.1)%nat then Qltb a.2 b.2 else (a.1 <? b.1)%nat.

(** [list.sort(key=...)] is stable: an element goes in front of the first
    one that is not smaller than it. *)
Fixpoint insert_by_key {A} (x : sort_key * A) (l : list (sort_key * A))
  : list (sort_key * A) :=
  match l with
  | [] => [x]
  | y :: l' => if key_lt y.1 x.1 then y :: insert_by_key x l' else x :: l
  end.

Definition sort_by_key {A} (l : list (sort_key * A)) : list (sort_key * A) :=
  foldr insert_by_key [] l.

(** [USEFULNESS_ORDER.get(x.get("usefulness_rating", "unknown"), len(USEFULNESS_ORDER))] *)
Definition rating_rank (rating : option string) : nat :=
  default (size USEFULNESS_ORDER)
          (USEFULNESS_ORDER !! default "unknown"%string rating).

Definition usefulness_rank (v : VideoRecord) : nat :=
  rating_rank (usefulness_rating v).

(** All videos with [fed == false], in playlist order then video order. *)
Definition unfed_videos (pls : list (string * PlaylistRecord)) : list VideoRecord :=
  flat_map (fun p => filter (fun v => fed v = false) (videos p.2)) pls.

Record feed_state : Set := {
  feed_playlists : list (string * PlaylistRecord);
  fed_count_today : nat;
  feed_printed : list Message;
}.

Section Feed.

Variable L : Library.

(** [parse_youtube_datetime(dt_str).timestamp()] *)
Definition parse_youtube_datetime (dt_str : string) : pyresult Q :=
  match fromisoformat_timestamp L (Str.replace_with "Z" "+00:00" dt_str) with
  | Some t => Ok t
  | None => Raise ValueError
  end.

Definition video_key (x : VideoRecord) : pyresult sort_key :=
  t ← parse_youtube_datetime (publishedAt x);
  Ok (usefulness_rank x, Qopp t).

Fixpoint with_keys (vs : list VideoRecord)
  : pyresult (list (sort_key * VideoRecord)) :=
  match vs with
  | [] => Ok []
  | v :: vs' =>
      k ← video_key v;
      kvs ← with_keys vs';
      Ok ((k, v) :: kvs)
  end.

(** [all_unfed_videos] after the sort of lines 451-454. *)
Definition sorted_unfed_videos (data : Document) : pyresult (list VideoRecord) :=
  kvs ← with_keys (unfed_videos (playlists data));
  Ok (map snd (sort_by_key kvs)).

(** The inner scan of lines 462-483 for one [video_to_feed]. *)
Definition feed_one (st : feed_state) (video_to_feed : VideoRecord) : feed_state :=
  match update_first
          (fun video => has_url (url video_to_feed) video && negb (fed video))
          set_fed (feed_playlists st) with
  | Some (playlist_info, video, pls) =>
      {| feed_playlists := pls;
         fed_count_today := S (fed_count_today st);
         feed_printed :=
           feed_printed st ++ [NextVideo (playlist_url playlist_info) video] |}
  | None => st
  end.

(** The loop of lines 457-483, which breaks at the limit. *)
Fixpoint feed_loop (limit : nat) (st : feed_state) (vs : list VideoRecord)
  : feed_state :=
  match vs with
  | [] => st
  | video_to_feed :: vs' =>
      if (limit <=? fed_count_today st)%nat then st
      else feed_loop limit (feed_one st video_to_feed) vs'
  end.

(** The gate of lines 434-438: [true] when today's feed was already given. *)
Definition already_fed_today (today : date) (data : Document) : pyresult bool :=
  match last_fed_date data with
  | Some s =>
      if Str.nonempty s then
        match fromisoformat_date L s with
        | Some last_fed => Ok (bool_decide (last_fed = today))
        | None => Raise ValueError
        end
      else Ok false
  | None => Ok false
  end.

Definition get_next_video_limit (limit : nat) (today : date)
    (file : option Document) : pyresult Outcome :=
  let data := load_data file in
  gate ← already_fed_today today data;
  if gate : bool then Ok (no_save [AlreadyFedToday])
  else
    match unfed_videos (playlists data) with
    | [] => Ok (no_save [NoUnfedVideos])
    | _ :: _ =>
        all_unfed_videos ← sorted_unfed_videos data;
        let st := feed_loop limit
                    {| feed_playlists := playlists data;
                       fed_count_today := 0; feed_printed := [] |}
                    all_unfed_videos in
        Ok {| saved := Some {| playlists := feed_playlists st;
                               last_fed_date := Some (isoformat today) |};
              printed := feed_printed st ++
                         (if (fed_count_today st =? 0)%nat
                          then [NoUnfedVideos] else []) |}
    end.

Definition get_next_video : date → option Document → pyresult Outcome :=
  get_next_video_limit DAILY_VIDEO_LIMIT.

End Feed.

(** ** [list_playlists] *)

Inductive ListLine : Set :=
  | NoPlaylistsTracked
  | TrackedPlaylistsHeader
  | PlaylistStatus (playlist_url : string) (total fed unfed : nat) (added : date).

Section Listing.

Variable L : Library.

(** The lines printed for one playlist (lines 422-428); the date is the
    one [strftime('%Y-%m-%d')] prints. *)
Definition playlist_status (playlist_info : PlaylistRecord) : pyresult ListLine :=
  let total_videos := length (videos playlist_info) in
  let fed_videos := length (filter (fun v => fed v = true) (videos playlist_info)) in
  let unfed := total_videos - fed_videos in
  match fromisoformat_date L (added_date playlist_info) with
  | Some added =>
      Ok (PlaylistStatus (playlist_url playlist_info) total_videos fed_videos
                         unfed added)
  | None => Raise ValueError
  end.

Fixpoint playlist_statuses (pls : list (string * PlaylistRecord))
  : pyresult (list ListLine) :=
  match pls with
  | [] => Ok []
  | (_, playlist_info) :: pls' =>
      line ← playlist_status playlist_info;
      lines ← playlist_statuses pls';
      Ok (line :: lines)
  end.

Definition list_playlists (file : option Document) : pyresult (list ListLine) :=
  let data := load_data file in
  match playlists data with
  | [] => Ok [NoPlaylistsTracked]
  | _ :: _ =>
      lines ← playlist_statuses (playlists data);
      Ok (TrackedPlaylistsHeader :: lines)
  end.

End Listing.

(** ** The command line: [main] *)

(** What one invocation finds outside the program: the data file, the
    YouTube service, the clock and the language model. *)
Record World : Type := {
  world_file : option Document;
  world_youtube : YouTube;
  world_now : string;
  world_today : date;
  world_llm : LlmReply;
}.

Inductive Printed : Set :=
  | Said (m : Message)
  | Listed (l : ListLine)
  | UsageAll
  | UsageOf (command : string)
  | UnknownCommand (command : string).

Record Run : Set := {
  run_saved : option Document;
  run_printed : list Printed;
}.

Definition of_outcome (o : Outcome) : Run :=
  {| run_saved := saved o; run_printed := Said <$> printed o |}.

Definition only_prints (ps : list Printed) : Run :=
  {| run_saved := None; run_printed := ps |}.

Section Main.

Variable L : Library.
Variable json_loads : string → option JsonAnalysis.

(** [main()] on [sys.argv]. *)
Definition main (w : World) (argv : list string) : pyresult Run :=
  match argv with
  | [] | [_] => Ok (only_prints [UsageAll])
  | _ :: command :: args =>
      if bool_decide (command = "add"%string) then
        match args with
        | [] => Ok (only_prints [UsageOf "add"])
        | playlist_url :: _ =>
            o ← add_playlist L (world_file w) (world_youtube w) (world_now w)
                  playlist_url;
            Ok (of_outcome o)
        end
      else if bool_decide (command = "list"%string) then
        lines ← list_playlists L (world_file w);
        Ok (only_prints (Listed <$> lines))
      else if bool_decide (command = "next"%string) then
        o ← get_next_video L (world_today w) (world_file w);
        Ok (of_outcome o)
      else if bool_decide (command = "sync"%string) then
        match args with
        | [] => Ok (only_prints [UsageOf "sync"])
        | playlist_url :: _ =>
            o ← sync_playlist L (world_file w) (world_youtube w) playlist_url;
            Ok (of_outcome o)
        end
      else if bool_decide (command = "analyze"%string) then
        match args with
        | video_url :: summary :: rating :: actionable_points_str :: _ =>
            o ← analyze_video L (world_file w) video_url summary rating
                  actionable_points_str;
            Ok (of_outcome o)
        | _ => Ok (only_prints [UsageOf "analyze"])
        end
      else if bool_decide (command = "watch"%string) then
        match args with
        | [] => Ok (only_prints [UsageOf "watch"])
        | video_url :: _ =>
            o ← mark_video_watched L (world_file w) video_url;
            Ok (of_outcome o)
        end
      else if bool_decide (command = "skip"%string) then
        match args with
        | [] => Ok (only_prints [UsageOf "skip"])
        | video_url :: _ =>
            o ← skip_video L (world_file w) video_url;
            Ok (of_outcome o)
        end
      else if bool_decide (command = "auto_analyze"%string) then
        match args with
        | [] => Ok (only_prints [UsageOf "auto_analyze"])
        | video_url :: _ =>
            o ← auto_analyze_video_with_llm L json_loads (world_file w)
                  (world_llm w) video_url;
            Ok (of_outcome o)
        end
      else Ok (only_prints [UnknownCommand command])
  end.

End Main.

(** ** A concrete library for evaluating the program on sample inputs

    It accepts every bracketed or non-ASCII network location, leaves
    escapes undecoded, and reads the two shapes the program itself stores:
    dates [YYYY-MM-DD] and UTC instants [YYYY-MM-DDTHH:MM:SS+00:00]. *)
Module Sample.

Definition digit_value (c : ascii) : option Z :=
  if Str.is_digit c then Some (Z.of_nat (Str.code c - 48)) else None.

Fixpoint number (acc : Z) (s : string) : option Z :=
  match s with
  | EmptyString => Some acc
  | String c s' => d ← digit_value c; number (10 * acc + d) s'
  end.

(** [n] digits followed by the rest of the text. *)
Definition digits (n : nat) (s : string) : option (Z * string) :=
  if (n <=? String.length s)%nat then
    v ← number 0 (String.substring 0 n s);
    Some (v, String.substring n (String.length s - n) s)
  else None.

Definition expect (c : ascii) (s : string) : option string :=
  match s with
  | String d s' => if Ascii.eqb c d then Some s' else None
  | EmptyString => None
  end.

Definition read_ymd (s : string) : option (Z * Z * Z * string) :=
  '(y, s) ← digits 4 s; s ← expect "-" s;
  '(m, s) ← digits 2 s; s ← expect "-" s;
  '(d, s) ← digits 2 s;
  Some (y, m, d, s).

Definition read_date (s : string) : option date :=
  '(y, m, d, rest) ← read_ymd s;
  if Str.nonempty rest then None
  else Some (Date (Z.to_nat y) (Z.to_nat m) (Z.to_nat d)).

(** Days from 1970-01-01 to a date of the proleptic Gregorian calendar. *)
Definition days_from_civil (y m d : Z) : Z :=
  let y := if (m <=? 2)%Z then (y - 1)%Z else y in
  let era := (y / 400)%Z in
  let yoe := (y - era * 400)%Z in
  let doy := ((153 * (if (2 <? m)%Z then m - 3 else m + 9) + 2) / 5 + d - 1)%Z in
  let doe := (yoe * 365 + yoe / 4 - yoe / 100 + doy)%Z in
  (era * 146097 + doe - 719468)%Z.

Definition read_timestamp (s : string) : option Q :=
  '(y, m, d, s) ← read_ymd s; s ← expect "T" s;
  '(hh, s) ← digits 2 s; s ← expect ":" s;
  '(mm, s) ← digits 2 s; s ← expect ":" s;
  '(ss, s) ← digits 2 s;
  if bool_decide (s = "+00:00"%string)
  then Some (inject_Z (days_from_civil y m d * 86400 + hh * 3600 + mm * 60 + ss))
  else None.

Definition library : Library := {|
  bracketed_netloc_ok := fun _ => true;
  nfkc_netloc_ok := fun _ => true;
  unquote_escapes := fun s => s;
  fromisoformat_date := read_date;
  fromisoformat_timestamp := read_timestamp;
|}.

(** A [json.loads] that recognises no text. *)
Definition json_loads (s : string) : option JsonAnalysis := None.

Definition video (id published name : string) (is_fed : bool)
    (rating : option string) : VideoRecord :=
  {| url := "https://www.youtube.com/watch?v=" +:+ id;
     publishedAt := published; title := name; description := "";
     fed := is_fed; summary := (fun _ => "a summary"%string) <$> rating;
     usefulness_rating := rating;
     actionable_points := (fun _ => ["a point"%string]) <$> rating |}.

(** A document tracking one playlist of two videos, one of them analysed
    and fed. *)
Definition tracked : Document :=
  {| playlists :=
       [("PL1"%string,
         {| playlist_url := "https://www.youtube.com/playlist?list=PL1";
            videos := [video "aaa" "2024-01-01T00:00:00Z" "old title" true
                             (Some "useful"%string);
                       video "bbb" "2024-01-05T00:00:00Z" "b" false None];
            added_date := "2024-01-06T09:30:00" |})];
     last_fed_date := None |}.

(** Two playlists with five candidates and one fed video. *)
Definition rated : Document :=
  {| playlists :=
       [("PL1"%string,
         {| playlist_url := "https://www.youtube.com/playlist?list=PL1";
            videos := [video "v1" "2024-01-01T00:00:00Z" "one" false
                             (Some "useful"%string);
                       video "v2" "2023-01-01T00:00:00Z" "two" false
                             (Some "highly_useful"%string);
                       video "v0" "2022-01-01T00:00:00Z" "zero" true
                             (Some "highly_useful"%string)];
            added_date := "2024-01-06T09:30:00" |});
        ("PL2"%string,
         {| playlist_url := "https://www.youtube.com/playlist?list=PL2";
            videos := [video "v3" "2024-06-01T00:00:00Z" "three" false
                             (Some "highly_useful"%string);
                       video "v4" "2025-01-01T00:00:00Z" "four" false None;
                       video "v5" "2025-02-01T00:00:00Z" "five" false
                             (Some "usefull"%string)];
            added_date := "2024-01-07T09:30:00" |})];
     last_fed_date := Some "2024-03-06"%string |}.

(** The remote playlist: [aaa] is still there, [bbb] is gone, [ccc] is
    new, and one entry is not a video. *)
Definition youtube : YouTube :=
  {| playlist_pages := inr [[Some "aaa"%string; None]; [Some "ccc"%string]];
     videos_list := fun ids =>
       inr ((fun id => {| item_id := id;
                          item_publishedAt := "2024-02-02T00:00:00Z";
                          item_title := "title of " +:+ id;
                          item_description := "about " +:+ id |}) <$> ids) |}.

End Sample.

(** ** Sample invocations *)
Module Invocation.

(** A run on 2024-03-07 over the given data file, with the sample
    playlist behind the API and a language model that fails. *)
Definition world (file : option Document) : World :=
  {| world_file := file; world_youtube := Sample.youtube;
     world_now := "2024-03-07T10:00:00"; world_today := Date 2024 3 7;
     world_llm := LlmFailed |}.

(** A service whose [videos().list] requests fail. *)
Definition failing : YouTube :=
  {| playlist_pages := inr [[Some "aaa"%string]];
     videos_list := fun _ => inl HttpError |}.

(** A document whose playlist was added at midnight, its date written
    without the time. *)
Definition listed : Document :=
  {| playlists :=
       [("PL1"%string,
         {| playlist_url := "https://www.youtube.com/playlist?list=PL1";
            videos := [Sample.video "aaa" "2024-01-01T00:00:00Z" "a" true
                                    (Some "useful"%string);
                       Sample.video "bbb" "2024-01-05T00:00:00Z" "b" false None;
                       Sample.video "ccc" "2024-01-06T00:00:00Z" "c" false None];
            added_date := "2024-01-06" |})];
     last_fed_date := None |}.

End Invocation.

(** ** Vocabulary of the statements *)

(** Characters that delimit or escape a component of a URL, and the three
    that [urlsplit] deletes. *)
Definition is_url_special (c : ascii) : bool :=
  bool_decide (c ∈ ["009"; "010"; "013"; "#"; "?"; ";"; "/"; "&"; "+"; "%"]%char).

Definition is_id_char (c : ascii) : bool := negb (is_url_special c).

(** A video identifier: a non-empty text without special characters
    (YouTube's own identifiers use letters, digits, [-] and [_]). *)
Definition is_video_id (s : string) : bool :=
  Str.nonempty s && Str.forallb is_id_char s.

Definition youtube_hosts : list string := ["www.youtube.com"; "youtube.com"]%string.

(** The two components of the merge loop taken apart: the reference
    appended for a fetched video, and the effect of the iteration on the
    local records. *)
Definition merge_ref (index : gmap string nat) (yt_video : VideoRecord) : video_ref :=
  match index !! url yt_video with
  | Some i => Existing i
  | None => Fetched yt_video
  end.

Definition merge_records (index : gmap string nat) (records : list VideoRecord)
    (yt_video : VideoRecord) : list VideoRecord :=
  match index !! url yt_video with
  | Some i =>
      alter (set_metadata (publishedAt yt_video) (title yt_video)
                          (description yt_video)) i records
  | None => records
  end.

(** Two records that differ at most in the fields a sync refreshes. *)
Definition same_but_metadata (e e' : VideoRecord) : Prop :=
  url e' = url e ∧ fed e' = fed e ∧ summary e' = summary e
  ∧ usefulness_rating e' = usefulness_rating e
  ∧ actionable_points e' = actionable_points e.

Definition same_metadata (y v : VideoRecord) : Prop :=
  publishedAt v = publishedAt y ∧ title v = title y
  ∧ description v = description y.

(** A record as [get_playlist_items] builds it. *)
Definition is_fresh (v : VideoRecord) : Prop :=
  fed v = false ∧ summary v = None ∧ usefulness_rating v = None
  ∧ actionable_points v = None.

(** What the sync does to the fetched videos that are known locally:
    the merged list holds, at the place of the fetched video, the local
    record its URL maps to, with unchanged URL, fed flag and analysis, and
    with the metadata of a fetched video of that URL (the fetched video
    itself when no later one shares its URL). *)
Definition refreshed_in_place (local ys merged : list VideoRecord) : Prop :=
  ∀ j yt, ys !! j = Some yt → url yt ∈ url <$> local →
    ∃ i e v,
      local_video_urls local !! url yt = Some i
      ∧ local !! i = Some e ∧ url e = url yt
      ∧ merged !! j = Some v
      ∧ same_but_metadata e v
      ∧ ((∀ k y, j < k → ys !! k = Some y → url y ≠ url yt) → same_metadata yt v)
      ∧ (∃ y, y ∈ ys ∧ url y = url yt ∧ same_metadata y v).

(** One iteration on a known URL writes the three metadata fields of the
    record the URL maps to, and nothing else. *)
Definition updates_in_place (index : gmap string nat) : Prop :=
  ∀ st yt i e,
    index !! url yt = Some i → local_records st !! i = Some e →
    local_records (merge_step index st yt) !! i
      = Some (set_metadata (publishedAt yt) (title yt) (description yt) e)
    ∧ same_but_metadata e
        (set_metadata (publishedAt yt) (title yt) (description yt) e)
    ∧ ∀ k, k ≠ i →
        local_records (merge_step index st yt) !! k = local_records st !! k.

(** The merged list follows the fetched list: same URLs in the same
    order, a video with a new URL stored as fetched, and no record left
    for a local URL that was not fetched. *)
Definition replaced_by_fetch (local ys merged : list VideoRecord) : Prop :=
  url <$> merged = url <$> ys
  ∧ length merged = length ys
  ∧ (∀ j yt, ys !! j = Some yt → url yt ∉ url <$> local →
       merged !! j = Some yt ∧ is_fresh yt)
  ∧ (∀ e, e ∈ local → url e ∉ url <$> ys → ∀ v, v ∈ merged → url v ≠ url e).

(** The order of the sort keys: [a] may stand before [b]. *)
Definition key_le (a b : sort_key) : Prop :=
  (a.1 < b.1)%nat ∨ (a.1 = b.1 ∧ (a.2 <= b.2)%Q).

(** The order of the feed: a better usefulness rank first, and among equal
    ranks the later publish timestamp first. *)
Definition feeds_before (L : Library) (a b : VideoRecord) : Prop :=
  ∃ ta tb,
    parse_youtube_datetime L (publishedAt a) = Ok ta
    ∧ parse_youtube_datetime L (publishedAt b) = Ok tb
    ∧ ((usefulness_rank a < usefulness_rank b)%nat
       ∨ (usefulness_rank a = usefulness_rank b ∧ (tb <= ta)%Q)).

Definition rating_names : list string :=
  ["highly_useful"; "useful"; "review_needed"; "fluff"; "outdated"; "unknown"]%string.

Definition by_key {A} (x y : sort_key * A) : Prop := key_le x.1 y.1.

(** Two documents of the same shape (same playlists in the same order,
    same number of videos in each) whose videos are related place by place
    by [R]. *)
Definition playlists_rel (R : VideoRecord → VideoRecord → Prop)
    (pls pls' : list (string * PlaylistRecord)) : Prop :=
  Forall2 (fun p p' => p'.1 = p.1
                       ∧ playlist_url p'.2 = playlist_url p.2
                       ∧ added_date p'.2 = added_date p.2
                       ∧ Forall2 R (videos p.2) (videos p'.2)) pls pls'.

(** What a feed does to a record: nothing, or [fed] goes from false to
    true. *)
Definition fed_step (v v' : VideoRecord) : Prop :=
  v' = v ∨ (fed v = false ∧ v' = set_fed v).

(** Monotonicity of the fed flag on one record. *)
Definition fed_kept (v v' : VideoRecord) : Prop :=
  url v' = url v ∧ (fed v = true → fed v' = true).

(** The gate of the feed is open: no date was recorded, or the recorded
    one is another day than today. *)
Definition gate_open (L : Library) (today : date) (data : Document) : Prop :=
  last_fed_date data = None
  ∨ last_fed_date data = Some EmptyString
  ∨ ∃ s d, last_fed_date data = Some s ∧ fromisoformat_date L s = Some d ∧ d ≠ today.

(** Every candidate carries a publish timestamp that [fromisoformat] reads. *)
Definition timestamps_readable (L : Library) (data : Document) : Prop :=
  ∀ v, v ∈ unfed_videos (playlists data) →
       ∃ t, parse_youtube_datetime L (publishedAt v) = Ok t.

(** What a sync does to the fed flags.  The playlist [pid] is the only
    entry that changes.  Each of its local records keeps its place among
    the local records, its URL and its fed flag through the merge; and each
    record of the stored list is such a local record, or a fetched video
    whose URL the playlist did not hold. *)
Definition sync_keeps_fed (pls pls' : list (string * PlaylistRecord)) : Prop :=
  ∃ pid pl ys,
    dict_get pid pls = Some pl
    ∧ pls' = dict_set pid (set_videos (merged_videos (videos pl) ys) pl) pls
    ∧ Forall2 (fun p p' => p' = p ∨ (p.1 = pid ∧ p'.1 = pid)) pls pls'
    ∧ (∀ k e, videos pl !! k = Some e →
         ∃ e', local_records (merge (videos pl) ys) !! k = Some e'
               ∧ same_but_metadata e e')
    ∧ (∀ v, v ∈ merged_videos (videos pl) ys →
         (∃ k e, videos pl !! k = Some e ∧ same_but_metadata e v)
         ∨ (v ∈ ys ∧ url v ∉ url <$> videos pl)).

(** The first video satisfying [p], in playlist order then video order:
    [w], in playlist [pl] under the key [pid], with the playlists [pre]
    and the videos [vpre] in front of it holding no match. *)
Definition first_match (p : VideoRecord → bool)
    (pls pre : list (string * PlaylistRecord)) (pid : string)
    (pl : PlaylistRecord) (post : list (string * PlaylistRecord))
    (vpre : list VideoRecord) (w : VideoRecord) (vpost : list VideoRecord)
  : Prop :=
  pls = pre ++ (pid, pl) :: post
  ∧ videos pl = vpre ++ w :: vpost
  ∧ p w = true
  ∧ (∀ q v, q ∈ pre → v ∈ videos q.2 → p v = false)
  ∧ (∀ v, v ∈ vpre → p v = false).

(** The document with that one video replaced. *)
Definition with_match (f : VideoRecord → VideoRecord)
    (pre : list (string * PlaylistRecord)) (pid : string)
    (pl : PlaylistRecord) (post : list (string * PlaylistRecord))
    (vpre : list VideoRecord) (w : VideoRecord) (vpost : list VideoRecord)
  : list (string * PlaylistRecord) :=
  pre ++ (pid, set_videos (vpre ++ f w :: vpost) pl) :: post.

(** Some stored video has the URL [u]. *)
Definition is_tracked (u : string) (pls : list (string * PlaylistRecord)) : Prop :=
  ∃ pid pl v, (pid, pl) ∈ pls ∧ v ∈ videos pl ∧ url v = u.

(** The analysis of a record is whole: its three fields are all absent or
    all present. *)
Definition analysis_complete (v : VideoRecord) : Prop :=
  (summary v = None ∧ usefulness_rating v = None ∧ actionable_points v = None)
  ∨ (is_Some (summary v) ∧ is_Some (usefulness_rating v)
     ∧ is_Some (actionable_points v)).

Definition all_videos (P : VideoRecord → Prop)
    (pls : list (string * PlaylistRecord)) : Prop :=
  ∀ pid pl v, (pid, pl) ∈ pls → v ∈ videos pl → P v.

(** The URLs of the videos a run of the feed printed, in order. *)
Definition fed_urls (ms : list Message) : list string :=
  omap (fun m => match m with
                 | NextVideo _ v => Some (url v)
                 | _ => None
                 end) ms.

(** The commands that write the data file. *)
Definition writing_commands : list string :=
  ["add"; "next"; "sync"; "analyze"; "watch"; "skip"; "auto_analyze"]%string.

(** The number of arguments a command needs after its name. *)
Definition arguments_needed (command : string) : nat :=
  if bool_decide (command = "analyze"%string) then 4
  else if bool_decide (command ∈ ["add"; "sync"; "watch"; "skip"; "auto_analyze"]%string)
       then 1 else 0.

(** The figures of a status line. *)
Definition line_unfed (line : ListLine) : nat :=
  match line with
  | PlaylistStatus _ _ _ unfed _ => unfed
  | _ => 0
  end.

(** A status line describes a playlist: its URL, its number of videos,
    and how many of them are fed and unfed. *)
Definition describes (L : Library) (p : string * PlaylistRecord) (line : ListLine)
  : Prop :=
  ∃ added,
    fromisoformat_date L (added_date p.2) = Some added
    ∧ line = PlaylistStatus (playlist_url p.2) (length (videos p.2))
               (length (filter (fun v => fed v = true) (videos p.2)))
               (length (filter (fun v => fed v = false) (videos p.2)))
               added.

(** The edits the commands other than [add] and [sync] make to a record:
    none, the fed flag set, or the analysis written. *)
Definition edit_step (v v' : VideoRecord) : Prop :=
  v' = v ∨ v' = set_fed v ∨ ∃ s r a, v' = set_analysis s r a v.

(** The first character of a text is not ASCII white space. *)
Definition starts_clean (s : string) : Prop :=
  ∀ c t, s = String c t → Strip.space1 c = false.

(** The rank of a rating, written out from the enumeration: the six
    names in their order, no rating counted as [unknown], and the size of
    the enumeration for any other text. *)
Definition listed_rank (rating : option string) : nat :=
  match rating with
  | None => 5
  | Some r =>
      if bool_decide (r = "highly_useful"%string) then 0
      else if bool_decide (r = "useful"%string) then 1
      else if bool_decide (r = "review_needed"%string) then 2
      else if bool_decide (r = "fluff"%string) then 3
      else if bool_decide (r = "outdated"%string) then 4
      else if bool_decide (r = "unknown"%string) then 5
      else 6
  end.

(** The publish timestamp of a record: the instant its [publishedAt]
    text denotes, [Z] standing for the offset [+00:00]. *)
Definition publish_timestamp (L : Library) (v : VideoRecord) : option Q :=
  fromisoformat_timestamp L (Str.replace_with "Z" "+00:00" (publishedAt v)).

(** The order of the feed on the stored fields: the smaller rank of the
    [usefulness_rating] first, and among equal ranks the later publish
    timestamp first. *)
Definition ranked_before (L : Library) (a b : VideoRecord) : Prop :=
  ∃ ta tb,
    publish_timestamp L a = Some ta ∧ publish_timestamp L b = Some tb
    ∧ ((listed_rank (usefulness_rating a) < listed_rank (usefulness_rating b))%nat
       ∨ (listed_rank (usefulness_rating a) = listed_rank (usefulness_rating b)
          ∧ (tb <= ta)%Q)).

(** The records a run of the feed showed, in order. *)
Definition shown_videos (ms : list Message) : list VideoRecord :=
  omap (fun m => match m with
                 | NextVideo _ v => Some v
                 | _ => None
                 end) ms.

(** A line of [main] itself: a usage text or the report of an unknown
    command, as opposed to what a command prints. *)
Definition is_usage (p : Printed) : Prop :=
  match p with
  | UsageAll | UsageOf _ | UnknownCommand _ => True
  | Said _ | Listed _ => False
  end.

(** * Properties *)

Lemma bind_Ok {A B} (a : A) (f : A → pyresult B) : Ok a ≫= f = f a.
Proof. reflexivity. Qed.

Lemma bind_Raise {A B} (e : exn) (f : A → pyresult B) : Raise e ≫= f = Raise e.
Proof. reflexivity. Qed.

(** ** Text lemmas *)

Lemma forallb_mem p c s :
  p c = false → Str.forallb p s = true → Str.mem c s = false.
Proof.
  intros Hc. induction s as [|d s IH]; simpl; [done|].
  intros [Hd Hs]%andb_prop.
  rewrite (IH Hs), orb_false_r.
  apply Ascii.eqb_neq. intros ->. congruence.
Qed.

Lemma mem_cons_false c d s :
  Str.mem c (String d s) = false → Ascii.eqb d c = false ∧ Str.mem c s = false.
Proof. simpl. apply orb_false_elim. Qed.

Lemma cut_absent c s : Str.mem c s = false → Str.cut c s = None.
Proof.
  induction s as [|d s IH]; [done|].
  intros [Hd Hs]%mem_cons_false. simpl. by rewrite Hd, (IH Hs).
Qed.

Lemma remove_absent c s : Str.mem c s = false → Str.remove c s = s.
Proof.
  induction s as [|d s IH]; [done|].
  intros [Hd Hs]%mem_cons_false. simpl. by rewrite Hd, (IH Hs).
Qed.

Lemma replace_absent c d s : Str.mem c s = false → Str.replace c d s = s.
Proof.
  induction s as [|e s IH]; [done|].
  intros [Hd Hs]%mem_cons_false. simpl. by rewrite Hd, (IH Hs).
Qed.

Lemma split_absent c s : Str.mem c s = false → Str.split c s = [s].
Proof.
  induction s as [|d s IH]; [done|].
  intros [Hd Hs]%mem_cons_false. simpl. by rewrite Hd, (IH Hs).
Qed.

Lemma split_cons c s : ∃ h t, Str.split c s = h :: t.
Proof.
  induction s as [|d s (h & t & IH)]; simpl; [by eauto|].
  destruct (Ascii.eqb d c); [by eauto|]. rewrite IH. by eauto.
Qed.

Lemma split_present c s :
  Str.mem c s = true → ∃ a b t, Str.split c s = a :: b :: t.
Proof.
  induction s as [|d s IH]; simpl; [done|].
  destruct (Ascii.eqb d c); simpl.
  - intros _. destruct (split_cons c s) as (h & t & ->). by eauto.
  - intros (a & b & t & ->)%IH. by eauto.
Qed.

Lemma startswith_app p s :
  Str.startswith p s = true → ∃ r, s = p +:+ r.
Proof.
  revert s. induction p as [|a p IH]; intros s; simpl.
  - by exists s.
  - destruct s as [|b s]; [done|].
    intros [Hab Hs]%andb_prop. apply Ascii.eqb_eq in Hab as ->.
    destruct (IH _ Hs) as [r ->]. by exists r.
Qed.

Lemma split_embed p :
  Str.startswith "/embed/" p = true → ∃ v, py_index (Str.split "/" p) 2 = Ok v.
Proof.
  intros [r ->]%startswith_app. cbv [String.append]. simpl.
  destruct (split_cons "/" r) as (h & t & ->). by exists h.
Qed.

(** ** The URL normalizer on the three accepted shapes *)

Section Forms.

Variable L : Library.
Variable id : string.
Hypothesis Hid : is_video_id id = true.

Lemma id_nonempty : Str.nonempty id = true.
Proof using Hid. by apply andb_prop in Hid as [? ?]. Qed.

Lemma id_free c : is_id_char c = false → Str.mem c id = false.
Proof using Hid.
  intros Hc. apply andb_prop in Hid as [_ ?]. by eapply forallb_mem.
Qed.

Ltac id_step :=
  first
    [ rewrite !(remove_absent _ id) by (apply id_free; reflexivity)
    | rewrite !(cut_absent _ id) by (apply id_free; reflexivity)
    | rewrite !(split_absent _ id) by (apply id_free; reflexivity)
    | rewrite !(replace_absent _ _ id) by (apply id_free; reflexivity)
    | rewrite !(id_free _) by reflexivity
    | rewrite id_nonempty ].

Lemma urlparse_watch :
  urlparse L ("https://www.youtube.com/watch?v=" +:+ id) =
  Ok {| scheme := "https"; netloc := "www.youtube.com"; path := "/watch";
        params := ""; query := "v=" +:+ id; fragment := "" |}.
Proof using Hid.
  unfold urlparse, urlsplit. cbv [String.append].
  repeat (simpl; id_step). reflexivity.
Qed.

Lemma urlparse_embed :
  urlparse L ("https://www.youtube.com/embed/" +:+ id) =
  Ok {| scheme := "https"; netloc := "www.youtube.com";
        path := "/embed/" +:+ id;
        params := ""; query := ""; fragment := "" |}.
Proof using Hid.
  unfold urlparse, urlsplit. cbv [String.append].
  repeat (simpl; id_step). reflexivity.
Qed.

Lemma urlparse_short :
  urlparse L ("https://youtu.be/" +:+ id) =
  Ok {| scheme := "https"; netloc := "youtu.be"; path := "/" +:+ id;
        params := ""; query := ""; fragment := "" |}.
Proof using Hid.
  unfold urlparse, urlsplit. cbv [String.append].
  repeat (simpl; id_step). reflexivity.
Qed.

Lemma first_value_v : first_value L "v" ("v=" +:+ id) = Ok (Some id).
Proof using Hid.
  unfold first_value, parse_qs, parse_qsl, parse_field, unquote.
  cbv [String.append].
  repeat (simpl; id_step). simpl.
  rewrite lookup_empty, lookup_insert_eq. reflexivity.
Qed.

Lemma normalize_watch :
  normalize_youtube_url L ("https://www.youtube.com/watch?v=" +:+ id)
  = Ok (canonical id).
Proof using Hid.
  unfold normalize_youtube_url. rewrite urlparse_watch. simpl.
  rewrite first_value_v. simpl. by rewrite id_nonempty.
Qed.

Lemma normalize_embed :
  normalize_youtube_url L ("https://www.youtube.com/embed/" +:+ id)
  = Ok (canonical id).
Proof using Hid.
  unfold normalize_youtube_url. rewrite urlparse_embed.
  cbv [String.append].
  repeat (simpl; id_step). reflexivity.
Qed.

Lemma normalize_short :
  normalize_youtube_url L ("https://youtu.be/" +:+ id) = Ok (canonical id).
Proof using Hid.
  unfold normalize_youtube_url. rewrite urlparse_short.
  cbv [String.append].
  repeat (simpl; id_step). reflexivity.
Qed.

End Forms.

(** The characters of YouTube's identifiers are all admitted. *)
Lemma youtube_alphabet_is_id_char c :
  Str.is_alpha c || Str.is_digit c || Ascii.eqb c "-" || Ascii.eqb c "_" = true →
  is_id_char c = true.
Proof.
  destruct c as [[] [] [] [] [] [] [] []]; vm_compute; intros H;
    first [reflexivity | discriminate H].
Qed.

(** C6.  For every video identifier, the watch-page form, the embed form
    and the short-link form normalize to the same canonical string
    [https://www.youtube.com/watch?v=ID], and the canonical string is a
    fixed point of the normalizer. *)
Theorem normalize_canonical_forms (L : Library) (id : string) :
  is_video_id id = true →
  normalize_youtube_url L ("https://www.youtube.com/watch?v=" +:+ id)
    = Ok (canonical id)
  ∧ normalize_youtube_url L ("https://www.youtube.com/embed/" +:+ id)
    = Ok (canonical id)
  ∧ normalize_youtube_url L ("https://youtu.be/" +:+ id) = Ok (canonical id)
  ∧ normalize_youtube_url L (canonical id) = Ok (canonical id).
Proof.
  intros Hid. repeat split.
  - by apply normalize_watch.
  - by apply normalize_embed.
  - by apply normalize_short.
  - by apply normalize_watch.
Qed.

Lemma normalize_canonical_forms_witness :
  normalize_youtube_url Sample.library "https://www.youtube.com/watch?v=dQw4w9WgXcQ"
    = Ok "https://www.youtube.com/watch?v=dQw4w9WgXcQ"%string
  ∧ normalize_youtube_url Sample.library "https://www.youtube.com/embed/dQw4w9WgXcQ"
    = Ok "https://www.youtube.com/watch?v=dQw4w9WgXcQ"%string
  ∧ normalize_youtube_url Sample.library "https://youtu.be/dQw4w9WgXcQ"
    = Ok "https://www.youtube.com/watch?v=dQw4w9WgXcQ"%string
  ∧ normalize_youtube_url Sample.library "https://www.youtube.com/watch?v=dQw4w9WgXcQ"
    = Ok "https://www.youtube.com/watch?v=dQw4w9WgXcQ"%string.
Proof.
  apply (normalize_canonical_forms Sample.library "dQw4w9WgXcQ"). reflexivity.
Defined.

(** ** The normalizer never fails once the URL is parsed *)

Section Total.

Variable L : Library.

Lemma parse_qs_values qs k vs :
  parse_qs L qs !! k = Some vs → ∃ v vs', vs = v :: vs'.
Proof.
  unfold parse_qs.
  assert (∀ (l : list (string * string)) (m : gmap string (list string)),
            (∀ k vs, m !! k = Some vs → ∃ v vs', vs = v :: vs') →
            ∀ k vs,
              foldl (fun (m : gmap string (list string)) (nv : string * string) =>
                       let '(name, value) := nv in
                       match m !! name with
                       | Some vs => <[name := vs ++ [value]]> m
                       | None => <[name := [value]]> m
                       end) m l !! k = Some vs →
              ∃ v vs', vs = v :: vs') as Hfold.
  { induction l as [|[name value] l IH]; intros m Hm k' vs'; simpl; [by apply Hm|].
    apply IH. clear k' vs'. intros k' vs'.
    destruct (m !! name) as [ws|] eqn:Hname.
    - rewrite lookup_insert. case_decide; [|by apply Hm].
      intros [= <-]. destruct (Hm _ _ Hname) as (v & ws' & ->). by eauto.
    - rewrite lookup_insert. case_decide; [|by apply Hm].
      intros [= <-]. by eauto. }
  apply Hfold. intros k' vs'. by rewrite lookup_empty.
Qed.

Lemma first_value_returns k qs : ∃ r, first_value L k qs = Ok r.
Proof.
  unfold first_value. destruct (parse_qs L qs !! k) as [vs|] eqn:Hk; [|by eauto].
  destruct (parse_qs_values _ _ _ Hk) as (v & vs' & ->). by eauto.
Qed.

End Total.

(** A malformed bracketed host makes [urlparse], and with it the
    normalizer, raise [ValueError], whatever the library does elsewhere. *)
Lemma normalize_unbalanced_bracket (L : Library) :
  normalize_youtube_url L "http://[" = Raise ValueError.
Proof. reflexivity. Qed.

(** A short link without a path makes the normalizer raise [IndexError]. *)
Lemma normalize_short_link_without_path (L : Library) :
  normalize_youtube_url L "https://youtu.be" = Raise IndexError.
Proof. reflexivity. Qed.

(** C7 as stated fails: the normalizer raises on an input that
    [urlparse] rejects instead of returning it unchanged. *)
Lemma normalize_raises_on_parse_failure :
  normalize_youtube_url Sample.library "http://[" = Raise ValueError
  ∧ ¬ returns (normalize_youtube_url Sample.library "http://[").
Proof.
  split; [reflexivity|]. intros [r Hr]. discriminate Hr.
Qed.

Lemma py_index_lookup {A} (l : list A) i x : l !! i = Some x → py_index l i = Ok x.
Proof. unfold py_index. by intros ->. Qed.

Lemma split_embed_lookup p :
  Str.startswith "/embed/" p = true → ∃ v, Str.split "/" p !! 2 = Some v.
Proof.
  intros [r ->]%startswith_app. cbv [String.append]. simpl.
  destruct (split_cons "/" r) as (h & t & ->). by exists h.
Qed.

(** C7, amended.  On every input that [urlparse] accepts, short links
    with an empty path apart, the normalizer returns without an error, and
    what it returns is settled by the parsed URL.  The video identifier is
    the first [v] value of the query on a [youtube.com] host with the path
    [/watch], the path segment after [/embed/] on such a host, and the
    first path segment on [youtu.be]; the result is the canonical URL of
    that identifier when it is not empty.  In every other case (no [v]
    value, an empty identifier, another path, another host) the result is
    the input unchanged. *)
Theorem normalize_passes_through (L : Library) (u : string) (p : ParseResult) :
  urlparse L u = Ok p →
  (netloc p = "youtu.be"%string → Str.mem "/" (path p) = true) →
  ∃ r, normalize_youtube_url L u = Ok r
       ∧ (r = u ∨ ∃ v, Str.nonempty v = true ∧ r = canonical v)
       ∧ (netloc p ∉ youtube_hosts → netloc p ≠ "youtu.be"%string → r = u)
       ∧ (netloc p ∈ youtube_hosts → path p ≠ "/watch"%string →
          Str.startswith "/embed/" (path p) = false → r = u)
       ∧ (netloc p ∈ youtube_hosts → path p = "/watch"%string →
          (parse_qs L (query p) !! "v"%string = None → r = u)
          ∧ ∀ v vs, parse_qs L (query p) !! "v"%string = Some (v :: vs) →
                    r = if Str.nonempty v then canonical v else u)
       ∧ (netloc p ∈ youtube_hosts → path p ≠ "/watch"%string →
          Str.startswith "/embed/" (path p) = true →
          ∃ v, Str.split "/" (path p) !! 2 = Some v
               ∧ r = if Str.nonempty v then canonical v else u)
       ∧ (netloc p = "youtu.be"%string →
          ∃ v, Str.split "/" (path p) !! 1 = Some v
               ∧ r = if Str.nonempty v then canonical v else u).
Proof.
  intros Hp Hshort. unfold normalize_youtube_url. rewrite Hp, bind_Ok.
  assert (∀ v, ∃ r, (if Str.nonempty v then Ok (canonical v) else Ok u) = Ok r
                    ∧ (r = u ∨ ∃ v, Str.nonempty v = true ∧ r = canonical v)
                    ∧ r = if Str.nonempty v then canonical v else u) as Hfinal.
  { intros v. destruct (Str.nonempty v) eqn:Hv; eexists; (split; [done|]);
      (split; [|done]); by eauto. }
  assert ("youtu.be"%string ∉ youtube_hosts) as Hbe_not.
  { unfold youtube_hosts. rewrite !elem_of_cons, elem_of_nil.
    by intros [?|[?|?]]. }
  fold youtube_hosts.
  case_bool_decide as Hhost.
  - assert (netloc p ≠ "youtu.be"%string) as Hnbe by (by intros Heq; rewrite Heq in Hhost).
    case_bool_decide as Hwatch.
    + unfold first_value.
      destruct (parse_qs L (query p) !! "v"%string) as [vs|] eqn:Hv.
      * destruct (parse_qs_values _ _ _ _ Hv) as (v & vs' & ->).
        change (py_index (v :: vs') 0) with (Ok v). rewrite !bind_Ok.
        destruct (Hfinal v) as (r & Hr1 & Hr & Hval).
        exists r. split; [exact Hr1|]. split; [done|].
        split; [done|]. split; [done|]. split.
        { intros _ _. split; [done|]. by intros v' vs'' [= <- <-]. }
        split; [by intros _ ?|done].
      * rewrite bind_Ok. exists u. split; [done|]. split; [by left|].
        split; [done|]. split; [done|]. split; [by intros _ _; split|].
        split; [by intros _ ?|done].
    + destruct (Str.startswith "/embed/" (path p)) eqn:Hembed.
      * destruct (split_embed_lookup _ Hembed) as [v Hv].
        rewrite (py_index_lookup _ _ _ Hv), !bind_Ok.
        destruct (Hfinal v) as (r & Hr1 & Hr & Hval).
        exists r. split; [exact Hr1|]. split; [done|].
        split; [done|]. split; [done|]. split; [done|].
        split; [|done]. intros _ _ _. by exists v.
      * rewrite bind_Ok. exists u. split; [done|]. split; [by left|].
        split; [done|]. split; [done|]. split; [done|]. split; done.
  - case_bool_decide as Hbe.
    + apply list_elem_of_singleton in Hbe.
      destruct (split_present _ _ (Hshort Hbe)) as (a & b & t & Hsplit).
      rewrite Hsplit.
      change (py_index (a :: b :: t) 1) with (Ok b). rewrite !bind_Ok.
      destruct (Hfinal b) as (r & Hr1 & Hr & Hval).
      exists r. split; [exact Hr1|]. split; [done|].
      split; [done|]. split; [done|]. split; [done|]. split; [done|].
      intros _. by exists b.
    + rewrite bind_Ok. exists u. split; [done|]. split; [by left|].
      split; [done|]. split; [done|]. split; [done|]. split; [done|].
      intros Heq. exfalso. apply Hbe. rewrite Heq. apply list_elem_of_here.
Qed.

Lemma normalize_passes_through_witness :
  normalize_youtube_url Sample.library "https://vimeo.com/12345"
    = Ok "https://vimeo.com/12345"%string
  ∧ normalize_youtube_url Sample.library "https://www.youtube.com/watch?list=PL1"
    = Ok "https://www.youtube.com/watch?list=PL1"%string
  ∧ normalize_youtube_url Sample.library
      "https://www.youtube.com/watch?list=PL1&v=abc&v=xyz"
    = Ok (canonical "abc")
  ∧ normalize_youtube_url Sample.library "https://www.youtube.com/embed/abc/x?v=xyz"
    = Ok (canonical "abc")
  ∧ normalize_youtube_url Sample.library "https://youtu.be/abc?v=xyz"
    = Ok (canonical "abc").
Proof.
  split; [|split; [|split; [|split]]].
  - destruct (normalize_passes_through Sample.library "https://vimeo.com/12345"
                {| scheme := "https"; netloc := "vimeo.com"; path := "/12345";
                   params := ""; query := ""; fragment := "" |} eq_refl)
      as (r & Hr & _ & Hother & _).
    { simpl. discriminate. }
    rewrite Hr. f_equal. apply Hother.
    + apply (bool_decide_unpack _). vm_compute. exact I.
    + discriminate.
  - destruct (normalize_passes_through Sample.library
                "https://www.youtube.com/watch?list=PL1"
                {| scheme := "https"; netloc := "www.youtube.com"; path := "/watch";
                   params := ""; query := "list=PL1"; fragment := "" |} eq_refl)
      as (r & Hr & _ & _ & _ & Hwatch & _).
    { simpl. discriminate. }
    rewrite Hr. f_equal. apply Hwatch.
    + apply (bool_decide_unpack _). vm_compute. exact I.
    + reflexivity.
    + reflexivity.
  - destruct (normalize_passes_through Sample.library
                "https://www.youtube.com/watch?list=PL1&v=abc&v=xyz"
                {| scheme := "https"; netloc := "www.youtube.com"; path := "/watch";
                   params := ""; query := "list=PL1&v=abc&v=xyz"; fragment := "" |}
                eq_refl)
      as (r & Hr & _ & _ & _ & Hwatch & _).
    { simpl. discriminate. }
    rewrite Hr. f_equal.
    destruct Hwatch as [_ Hv].
    + apply (bool_decide_unpack _). vm_compute. exact I.
    + reflexivity.
    + apply (Hv "abc"%string ["xyz"%string]). reflexivity.
  - destruct (normalize_passes_through Sample.library
                "https://www.youtube.com/embed/abc/x?v=xyz"
                {| scheme := "https"; netloc := "www.youtube.com";
                   path := "/embed/abc/x"; params := ""; query := "v=xyz";
                   fragment := "" |} eq_refl)
      as (r & Hr & _ & _ & _ & _ & Hembed & _).
    { simpl. discriminate. }
    rewrite Hr. f_equal.
    destruct Hembed as (v & Hv & ->).
    + apply (bool_decide_unpack _). vm_compute. exact I.
    + discriminate.
    + reflexivity.
    + injection Hv as <-. reflexivity.
  - destruct (normalize_passes_through Sample.library "https://youtu.be/abc?v=xyz"
                {| scheme := "https"; netloc := "youtu.be"; path := "/abc";
                   params := ""; query := "v=xyz"; fragment := "" |} eq_refl)
      as (r & Hr & _ & _ & _ & _ & _ & Hshort).
    { intros _. reflexivity. }
    rewrite Hr. f_equal.
    destruct (Hshort eq_refl) as (v & Hv & ->).
    injection Hv as <-. reflexivity.
Defined.

(** ** Playlist-id extraction *)

(** C10.  [get_playlist_id] returns an identifier exactly when the
    network location of the URL contains [youtube.com] and the query has a
    [list] entry, and the identifier is then the first [list] value; a URL
    whose network location does not contain [youtube.com] (a [youtu.be]
    link, any other host) has no playlist id, whatever its query. *)
Theorem get_playlist_id_spec (L : Library) (u : string) (p : ParseResult) :
  urlparse L u = Ok p →
  (∀ id, get_playlist_id L u = Ok (Some id) ↔
         Str.contains "youtube.com" (netloc p) = true
         ∧ ∃ vs, parse_qs L (query p) !! "list"%string = Some (id :: vs))
  ∧ (Str.contains "youtube.com" (netloc p) = false →
     get_playlist_id L u = Ok None)
  ∧ (parse_qs L (query p) !! "list"%string = None →
     get_playlist_id L u = Ok None).
Proof.
  intros Hp. unfold get_playlist_id. rewrite Hp. simpl.
  destruct (Str.contains "youtube.com" (netloc p)) eqn:Hhost; simpl.
  - destruct (parse_qs L (query p) !! "list"%string) as [vs|] eqn:Hlist.
    + destruct (parse_qs_values _ _ _ _ Hlist) as (v & vs' & ->).
      rewrite bool_decide_eq_true_2 by eauto. simpl.
      repeat split; try done.
      * injection H as <-. by eauto.
      * intros (_ & ws & [= <- _]). done.
    + rewrite bool_decide_eq_false_2 by (by intros [? ?]).
      assert ((if Str.contains "youtu.be" (netloc p)
               then Ok None else Ok None) = @Ok (option string) None) as ->
        by (by destruct (Str.contains "youtu.be" (netloc p))).
      repeat split; try done. by intros (_ & ws & ?).
  - assert ((if Str.contains "youtu.be" (netloc p)
             then Ok None else Ok None) = @Ok (option string) None) as ->
      by (by destruct (Str.contains "youtu.be" (netloc p))).
    repeat split; try done. by intros [? _].
Qed.

Lemma get_playlist_id_spec_witness :
  get_playlist_id Sample.library "https://youtu.be/playlist?list=PL123" = Ok None
  ∧ get_playlist_id Sample.library "https://www.youtube.com/playlist?list=PL123&list=PL9"
    = Ok (Some "PL123"%string).
Proof.
  split.
  - refine (proj1 (proj2 (get_playlist_id_spec Sample.library
              "https://youtu.be/playlist?list=PL123"
              {| scheme := "https"; netloc := "youtu.be"; path := "/playlist";
                 params := ""; query := "list=PL123"; fragment := "" |} _)) _);
      reflexivity.
  - refine (proj2 (proj1 (get_playlist_id_spec Sample.library
              "https://www.youtube.com/playlist?list=PL123&list=PL9"
              {| scheme := "https"; netloc := "www.youtube.com";
                 path := "/playlist"; params := "";
                 query := "list=PL123&list=PL9"; fragment := "" |} _)
              "PL123"%string) _).
    + reflexivity.
    + split; [reflexivity|]. exists ["PL9"%string]. reflexivity.
Defined.

(** ** The scan for the first matching video *)

Lemma update_first_video_None p f vs :
  update_first_video p f vs = None ↔ ∀ v, v ∈ vs → p v = false.
Proof.
  induction vs as [|v vs IH]; simpl.
  - split; [|done]. intros _ v Hv. by apply elem_of_nil in Hv.
  - destruct (p v) eqn:Hpv.
    + split; [done|]. intros Hall.
      specialize (Hall v (list_elem_of_here _ _)). congruence.
    + destruct (update_first_video p f vs) as [[w vs']|].
      * split; [done|]. intros Hall.
        assert (Some (w, vs') = None) as Hn; [|done].
        apply IH. intros v' Hv'. apply Hall. by apply list_elem_of_further.
      * split; [|done]. intros _ v' [->|Hv']%elem_of_cons; [done|].
        by apply IH.
Qed.

Lemma update_first_None p f pls :
  update_first p f pls = None ↔
  ∀ pid pl v, (pid, pl) ∈ pls → v ∈ videos pl → p v = false.
Proof.
  induction pls as [|[pid pl] pls IH]; simpl.
  - split; [|done]. intros _ pid pl v Hin. by apply elem_of_nil in Hin.
  - destruct (update_first_video p f (videos pl)) as [[w vs]|] eqn:Hpl.
    + split; [done|]. intros Hall.
      assert (update_first_video p f (videos pl) = None) as Hn.
      { apply update_first_video_None. intros v Hv.
        apply (Hall pid pl v); [apply list_elem_of_here|done]. }
      congruence.
    + destruct (update_first p f pls) as [[[pl' w] pls']|].
      * split; [done|]. intros Hall.
        assert (Some (pl', w, pls') = None) as Hn; [|done].
        apply IH. intros pid' pl'' v Hin Hv. apply (Hall pid' pl'' v); [|done].
        by apply list_elem_of_further.
      * split; [|done]. intros _ pid' pl' v [[= -> ->]|Hin]%elem_of_cons Hv.
        -- by eapply update_first_video_None.
        -- by eapply IH.
Qed.

(** C9.  When the normalized URL matches no stored video of any tracked
    playlist, the manual and the automated analysis both report that the
    video was not found and return without saving, so the data file is
    left as it was. *)
Theorem analyze_untracked_video (L : Library)
    (json_loads : string → option JsonAnalysis) (file : option Document)
    (llm : LlmReply) (video_url u summary rating points : string) :
  normalize_youtube_url L video_url = Ok u →
  (∀ pid pl v, (pid, pl) ∈ playlists (load_data file) → v ∈ videos pl → url v ≠ u) →
  analyze_video L file video_url summary rating points
    = Ok {| saved := None; printed := [ErrVideoNotFound u] |}
  ∧ auto_analyze_video_with_llm L json_loads file llm video_url
    = Ok {| saved := None; printed := [ErrVideoNotFound u] |}
  ∧ file_after file {| saved := None; printed := [ErrVideoNotFound u] |} = file.
Proof.
  intros Hu Hnone.
  assert (∀ f, update_first (has_url u) f (playlists (load_data file)) = None)
    as Hscan.
  { intros f. apply update_first_None. intros pid pl v Hin Hv.
    unfold has_url. apply bool_decide_eq_false_2. by eapply Hnone. }
  unfold analyze_video, auto_analyze_video_with_llm.
  rewrite Hu, !bind_Ok, !Hscan. done.
Qed.

Lemma analyze_untracked_video_witness :
  let file := Some {| playlists :=
                        [("PL1"%string,
                          {| playlist_url := "https://www.youtube.com/playlist?list=PL1";
                             videos := [{| url := "https://www.youtube.com/watch?v=aaa";
                                           publishedAt := "2024-01-01T00:00:00Z";
                                           title := "a"; description := "";
                                           fed := false; summary := None;
                                           usefulness_rating := None;
                                           actionable_points := None |}];
                             added_date := "2024-01-02T08:00:00" |})];
                      last_fed_date := None |} in
  analyze_video Sample.library file "https://youtu.be/zzz" "s" "useful" "p;q"
    = Ok {| saved := None;
            printed := [ErrVideoNotFound "https://www.youtube.com/watch?v=zzz"] |}
  ∧ auto_analyze_video_with_llm Sample.library Sample.json_loads file
      (LlmText "{}") "https://youtu.be/zzz"
    = Ok {| saved := None;
            printed := [ErrVideoNotFound "https://www.youtube.com/watch?v=zzz"] |}
  ∧ file_after file
      {| saved := None;
         printed := [ErrVideoNotFound "https://www.youtube.com/watch?v=zzz"] |}
    = file.
Proof.
  intros file.
  apply (analyze_untracked_video Sample.library Sample.json_loads file
           (LlmText "{}") "https://youtu.be/zzz"
           "https://www.youtube.com/watch?v=zzz" "s" "useful" "p;q").
  - reflexivity.
  - intros pid pl v Hin Hv.
    apply list_elem_of_singleton in Hin. injection Hin as -> ->.
    apply list_elem_of_singleton in Hv. subst v. simpl. discriminate.
Defined.

(** ** The index of local records *)

Lemma local_video_urls_snoc vs v :
  local_video_urls (vs ++ [v]) = <[url v := length vs]> (local_video_urls vs).
Proof.
  unfold local_video_urls. rewrite imap_app, foldl_app. simpl.
  by rewrite Nat.add_0_r.
Qed.

Lemma local_video_urls_Some vs u i :
  local_video_urls vs !! u = Some i → ∃ e, vs !! i = Some e ∧ url e = u.
Proof.
  revert i. induction vs as [|v vs IH] using rev_ind; intros i.
  - unfold local_video_urls. simpl. by rewrite lookup_empty.
  - rewrite local_video_urls_snoc, lookup_insert. case_decide as Hu.
    + intros [= <-]. exists v. split; [|done].
      by rewrite lookup_app_r, Nat.sub_diag.
    + intros (e & He & Hue)%IH. exists e. split; [|done].
      by apply lookup_app_l_Some.
Qed.

Lemma local_video_urls_None vs u :
  local_video_urls vs !! u = None ↔ u ∉ url <$> vs.
Proof.
  induction vs as [|v vs IH] using rev_ind.
  - unfold local_video_urls. simpl. rewrite lookup_empty.
    split; [|done]. intros _ H. by apply elem_of_nil in H.
  - rewrite local_video_urls_snoc, lookup_insert, fmap_app. simpl.
    rewrite not_elem_of_app, list_elem_of_singleton.
    case_decide as Hu.
    + split; [done|]. intros [_ H]. by destruct H.
    + rewrite IH. split; [|by intros [? _]]. intros ?. split; [done|].
      intros ->. done.
Qed.

Lemma local_video_urls_is_Some vs u :
  u ∈ url <$> vs → ∃ i e, local_video_urls vs !! u = Some i
                          ∧ vs !! i = Some e ∧ url e = u.
Proof.
  intros Hin. destruct (local_video_urls vs !! u) as [i|] eqn:Hi.
  - destruct (local_video_urls_Some _ _ _ Hi) as (e & ? & ?). by eauto.
  - by apply local_video_urls_None in Hi.
Qed.

(** ** The merge loop *)

Lemma merge_step_fold index st ys :
  updated_videos_list (foldl (merge_step index) st ys)
    = updated_videos_list st ++ (merge_ref index <$> ys)
  ∧ local_records (foldl (merge_step index) st ys)
    = foldl (merge_records index) (local_records st) ys.
Proof.
  revert st. induction ys as [|y ys IH]; intros st; simpl.
  - by rewrite app_nil_r.
  - destruct (IH (merge_step index st y)) as [-> ->].
    unfold merge_step, merge_ref, merge_records.
    destruct (index !! url y); simpl; by rewrite <- app_assoc.
Qed.

Lemma merge_records_length index h ys :
  length (foldl (merge_records index) h ys) = length h.
Proof.
  revert h. induction ys as [|y ys IH]; intros h; simpl; [done|].
  rewrite IH. unfold merge_records.
  destruct (index !! url y); [by rewrite length_alter|done].
Qed.

Lemma same_but_metadata_refl e : same_but_metadata e e.
Proof. by repeat split. Qed.

Lemma same_but_metadata_set p t d e e' :
  same_but_metadata e e' → same_but_metadata e (set_metadata p t d e').
Proof. intros (? & ? & ? & ? & ?). by repeat split. Qed.

(** Every local record keeps its place, its URL, its fed flag and its
    analysis through the loop. *)
Lemma merge_records_frame index ys h k e :
  h !! k = Some e →
  ∃ e', foldl (merge_records index) h ys !! k = Some e' ∧ same_but_metadata e e'.
Proof.
  revert h e. induction ys as [|y ys IH]; intros h e Hk; simpl.
  - exists e. split; [done|apply same_but_metadata_refl].
  - unfold merge_records at 2. destruct (index !! url y) as [i|]; [|by apply IH].
    destruct (decide (i = k)) as [->|Hik].
    + edestruct (IH (alter (set_metadata (publishedAt y) (title y) (description y)) k h))
        as (e' & He' & Hsame).
      { rewrite list_lookup_alter_eq, Hk. done. }
      exists e'. split; [done|].
      destruct Hsame as (? & ? & ? & ? & ?). by repeat split.
    + apply IH. by rewrite list_lookup_alter_ne.
Qed.

Lemma merge_records_untouched index ys h k :
  (∀ y, y ∈ ys → index !! url y ≠ Some k) →
  foldl (merge_records index) h ys !! k = h !! k.
Proof.
  revert h. induction ys as [|y ys IH]; intros h Hno; simpl; [done|].
  rewrite IH by (intros y' Hy'; apply Hno; by apply list_elem_of_further).
  unfold merge_records. destruct (index !! url y) as [i|] eqn:Hi; [|done].
  apply list_lookup_alter_ne. intros ->.
  by apply (Hno y (list_elem_of_here _ _)).
Qed.

Lemma merge_records_hit index h y i :
  index !! url y = Some i →
  merge_records index h y
  = alter (set_metadata (publishedAt y) (title y) (description y)) i h.
Proof. intros Hi. unfold merge_records. by rewrite Hi. Qed.

(** The record a URL maps to ends with the metadata of the last fetched
    video that carries this URL. *)
Lemma merge_records_last index ys1 y ys2 h i e :
  index !! url y = Some i →
  (∀ y', y' ∈ ys2 → index !! url y' ≠ Some i) →
  h !! i = Some e →
  ∃ e', foldl (merge_records index) h (ys1 ++ y :: ys2) !! i = Some e'
        ∧ same_but_metadata e e' ∧ same_metadata y e'.
Proof.
  intros Hi Hno He. rewrite foldl_app. simpl.
  destruct (merge_records_frame index ys1 h i e He) as (e1 & He1 & Hsame).
  rewrite merge_records_untouched by done.
  rewrite (merge_records_hit _ _ _ _ Hi), list_lookup_alter_eq, He1. simpl.
  eexists. split; [done|]. split; [by apply same_but_metadata_set|done].
Qed.

Lemma omap_lookup_total {A B} (f : A → option B) (l : list A) j x :
  (∀ a, a ∈ l → is_Some (f a)) → l !! j = Some x → omap f l !! j = f x.
Proof.
  revert j. induction l as [|a l IH]; intros j Hall; [done|].
  simpl. destruct (Hall a (list_elem_of_here _ _)) as [b Hb]. rewrite Hb.
  destruct j as [|j]; simpl.
  - by intros [= ->].
  - apply IH. intros a' Ha'. apply Hall. by apply list_elem_of_further.
Qed.

Lemma omap_length_total {A B} (f : A → option B) (l : list A) :
  (∀ a, a ∈ l → is_Some (f a)) → length (omap f l) = length l.
Proof.
  induction l as [|a l IH]; intros Hall; [done|].
  simpl. destruct (Hall a (list_elem_of_here _ _)) as [b ->]. simpl.
  f_equal. apply IH. intros a' Ha'. apply Hall. by apply list_elem_of_further.
Qed.

Section Merged.
Variables local ys : list VideoRecord.

Local Abbreviation index := (local_video_urls local).
Local Abbreviation final := (foldl (merge_records index) local ys).

Lemma merged_videos_unfold :
  merged_videos local ys = omap (deref final) (merge_ref index <$> ys).
Proof.
  unfold merged_videos, merge.
  destruct (merge_step_fold index
              {| local_records := local; updated_videos_list := [];
                 new_videos_count := 0 |} ys) as [-> ->].
  done.
Qed.

Lemma merge_ref_deref y : is_Some (deref final (merge_ref index y)).
Proof.
  unfold merge_ref. destruct (index !! url y) as [i|] eqn:Hi; simpl; [|by eauto].
  destruct (local_video_urls_Some _ _ _ Hi) as (e & He & _).
  destruct (merge_records_frame index ys local i e He) as (e' & He' & _).
  by eauto.
Qed.

Lemma merged_videos_lookup j y :
  ys !! j = Some y →
  merged_videos local ys !! j = deref final (merge_ref index y).
Proof.
  intros Hj. rewrite merged_videos_unfold.
  apply omap_lookup_total.
  - intros r (y' & -> & _)%list_elem_of_fmap. apply merge_ref_deref.
  - by rewrite list_lookup_fmap, Hj.
Qed.

Lemma merged_videos_length : length (merged_videos local ys) = length ys.
Proof.
  rewrite merged_videos_unfold, omap_length_total, length_fmap; [done|].
  intros r (y' & -> & _)%list_elem_of_fmap. apply merge_ref_deref.
Qed.

End Merged.

Lemma last_with_url u (ys : list VideoRecord) :
  u ∈ url <$> ys →
  ∃ ys1 y ys2, ys = ys1 ++ y :: ys2 ∧ url y = u ∧ u ∉ url <$> ys2.
Proof.
  intros (us1 & us2 & Heq & Hnot)%list_elem_of_split_r.
  apply fmap_app_inv in Heq as (ys1 & ys' & -> & Hys' & ->).
  symmetry in Hys'. apply fmap_cons_inv in Hys' as (y & ys2 & -> & -> & ->).
  by exists ys1, y, ys2.
Qed.

Lemma index_same_url local u u' i :
  local_video_urls local !! u = Some i →
  local_video_urls local !! u' = Some i → u = u'.
Proof.
  intros (e & He & <-)%local_video_urls_Some (e' & He' & <-)%local_video_urls_Some.
  congruence.
Qed.

(** A fetched video whose URL is known locally. *)
Lemma merged_existing local ys j yt :
  ys !! j = Some yt → url yt ∈ url <$> local →
  ∃ i e v,
    local_video_urls local !! url yt = Some i
    ∧ local !! i = Some e ∧ url e = url yt
    ∧ merged_videos local ys !! j = Some v
    ∧ same_but_metadata e v
    ∧ ((∀ k y, j < k → ys !! k = Some y → url y ≠ url yt) → same_metadata yt v)
    ∧ (∃ y, y ∈ ys ∧ url y = url yt ∧ same_metadata y v).
Proof.
  intros Hj Hlocal.
  destruct (local_video_urls_is_Some _ _ Hlocal) as (i & e & Hi & He & Hue).
  destruct (merge_records_frame (local_video_urls local) ys local i e He)
    as (v & Hv & Hsame).
  exists i, e, v. do 3 (split; [done|]).
  split.
  { rewrite (merged_videos_lookup _ _ _ _ Hj). unfold merge_ref. by rewrite Hi. }
  split; [exact Hsame|]. split.
  - intros Hlater.
    destruct (merge_records_last (local_video_urls local) (take j ys) yt
                (drop (S j) ys) local i e Hi) as (v' & Hv' & _ & Hmeta); [|done|].
    + intros y' Hy' Hi'. apply list_elem_of_lookup in Hy' as [k Hk].
      rewrite lookup_drop in Hk.
      apply (Hlater (S j + k) y'); [lia|done|]. by eapply index_same_url.
    + rewrite take_drop_middle in Hv' by done.
      rewrite Hv in Hv'. by injection Hv' as <-.
  - assert (url yt ∈ url <$> ys) as Hin.
    { apply list_elem_of_fmap. exists yt. split; [done|].
      by eapply list_elem_of_lookup_2. }
    destruct (last_with_url _ _ Hin) as (ys1 & y & ys2 & -> & Huy & Hnot).
    destruct (merge_records_last (local_video_urls local) ys1 y ys2 local i e)
      as (v' & Hv' & _ & Hmeta); [by rewrite Huy| |done|].
    + intros y' Hy' Hi'. apply Hnot. apply list_elem_of_fmap.
      exists y'. split; [|done]. by eapply index_same_url.
    + rewrite Hv in Hv'. injection Hv' as <-.
      exists y. split; [|done]. apply elem_of_app. right. apply list_elem_of_here.
Qed.

(** A fetched video whose URL is new. *)
Lemma merged_new local ys j yt :
  ys !! j = Some yt → url yt ∉ url <$> local →
  merged_videos local ys !! j = Some yt.
Proof.
  intros Hj Hnew. rewrite (merged_videos_lookup _ _ _ _ Hj).
  unfold merge_ref. by rewrite (proj2 (local_video_urls_None _ _) Hnew).
Qed.

Lemma merged_videos_urls local ys : url <$> merged_videos local ys = url <$> ys.
Proof.
  apply list_eq. intros j. rewrite !list_lookup_fmap.
  destruct (ys !! j) as [yt|] eqn:Hj.
  - destruct (decide (url yt ∈ url <$> local)) as [Hin|Hnew].
    + destruct (merged_existing _ _ _ _ Hj Hin)
        as (i & e & v & _ & _ & Hue & -> & Hsame & _).
      simpl. f_equal. destruct Hsame as [-> _]. done.
    + by rewrite (merged_new _ _ _ _ Hj Hnew).
  - rewrite lookup_ge_None_2; [done|].
    rewrite merged_videos_length. by apply lookup_ge_None_1.
Qed.

(** ** Fetched records and the [sync] command *)

Section Sync.
Variable L : Library.

Lemma video_of_item_fresh item v : video_of_item L item = Ok v → is_fresh v.
Proof.
  unfold video_of_item.
  destruct (normalize_youtube_url L _) as [u|e]; [|done].
  rewrite bind_Ok. by intros [= <-].
Qed.

Lemma videos_of_items_fresh items vs :
  videos_of_items L items = Ok vs → Forall is_fresh vs.
Proof.
  revert vs. induction items as [|item items IH]; intros vs; simpl.
  - intros [= <-]. constructor.
  - destruct (video_of_item L item) as [v|e] eqn:Hv; [|done]. rewrite bind_Ok.
    destruct (videos_of_items L items) as [vs'|e]; [|done]. rewrite bind_Ok.
    intros [= <-]. constructor; [by eapply video_of_item_fresh|by apply IH].
Qed.

Lemma fetch_batches_fresh youtube bs vs :
  fetch_batches L youtube bs = inr vs → Forall is_fresh vs.
Proof.
  revert vs. induction bs as [|b bs IH]; intros vs; simpl.
  - intros [= <-]. constructor.
  - destruct (videos_list youtube b) as [e|items]; [done|].
    destruct (videos_of_items L items) as [vs1|e] eqn:H1; [|done].
    destruct (fetch_batches L youtube bs) as [e|vs2]; [done|].
    intros [= <-]. apply Forall_app. split; [by eapply videos_of_items_fresh|by apply IH].
Qed.

Lemma get_playlist_items_fresh youtube ys :
  get_playlist_items L youtube = inr ys → Forall is_fresh ys.
Proof.
  unfold get_playlist_items. destruct (playlist_pages youtube); [done|].
  apply fetch_batches_fresh.
Qed.

Lemma dict_get_set {V} k (v : V) d : dict_get k (dict_set k v d) = Some v.
Proof.
  induction d as [|[k' v'] d IH]; simpl.
  - by rewrite bool_decide_eq_true_2.
  - case_bool_decide as Hk; simpl.
    + by rewrite bool_decide_eq_true_2.
    + by rewrite bool_decide_eq_false_2.
Qed.

Lemma sync_playlist_saved file youtube purl o d' :
  sync_playlist L file youtube purl = Ok o → saved o = Some d' →
  ∃ pid pl ys,
    get_playlist_id L purl = Ok (Some pid)
    ∧ dict_get pid (playlists (load_data file)) = Some pl
    ∧ get_playlist_items L youtube = inr ys
    ∧ d' = {| playlists :=
                dict_set pid (set_videos (merged_videos (videos pl) ys) pl)
                         (playlists (load_data file));
              last_fed_date := last_fed_date (load_data file) |}
    ∧ printed o = [Fetching purl;
                   SyncComplete purl (new_videos_count (merge (videos pl) ys))].
Proof.
  unfold sync_playlist.
  rewrite bool_decide_eq_false_2 by done.
  destruct (get_playlist_id L purl) as [[pid|]|e]; rewrite ?bind_Ok, ?bind_Raise;
    [| by intros [= <-] | done].
  destruct pid as [|c pid]; [by intros [= <-]|].
  destruct (dict_get _ (playlists (load_data file))) as [pl|] eqn:Hpl;
    [|by intros [= <-]].
  destruct (get_playlist_items L youtube) as [e|ys]; [by intros [= <-]|].
  intros [= <-]. simpl. intros [= <-].
  by exists (String c pid), pl, ys.
Qed.

End Sync.

Lemma sync_playlist_runs (L : Library) file youtube purl pid pl ys :
  get_playlist_id L purl = Ok (Some pid) → Str.nonempty pid = true →
  dict_get pid (playlists (load_data file)) = Some pl →
  get_playlist_items L youtube = inr ys →
  sync_playlist L file youtube purl
  = Ok {| saved :=
            Some {| playlists :=
                      dict_set pid (set_videos (merged_videos (videos pl) ys) pl)
                               (playlists (load_data file));
                    last_fed_date := last_fed_date (load_data file) |};
          printed := [Fetching purl;
                      SyncComplete purl
                        (new_videos_count (merge (videos pl) ys))] |}.
Proof.
  intros Hid Hne Hpl Hys. unfold sync_playlist.
  rewrite bool_decide_eq_false_2 by done.
  rewrite Hid, bind_Ok. destruct pid as [|c pid]; [done|].
  by rewrite Hpl, Hys.
Qed.

Lemma merge_step_updates_in_place index : updates_in_place index.
Proof.
  intros st yt i e Hi He. unfold merge_step. rewrite Hi. simpl.
  split; [by rewrite list_lookup_alter_eq, He|].
  split; [by repeat split|].
  intros k Hk. by apply list_lookup_alter_ne.
Qed.

(** C4.  A sync of a tracked playlist refreshes, for every fetched video
    whose URL is already stored in the playlist, the [publishedAt],
    [title] and [description] of the stored record in place, and leaves
    its [fed], [summary], [usefulness_rating] and [actionable_points] as
    they were. *)
Theorem sync_updates_in_place (L : Library) (file : option Document)
    (youtube : YouTube) (purl pid : string) (pl : PlaylistRecord)
    (ys : list VideoRecord) :
  get_playlist_id L purl = Ok (Some pid) → Str.nonempty pid = true →
  dict_get pid (playlists (load_data file)) = Some pl →
  get_playlist_items L youtube = inr ys →
  ∃ o d' pl',
    sync_playlist L file youtube purl = Ok o
    ∧ saved o = Some d'
    ∧ dict_get pid (playlists d') = Some pl'
    ∧ refreshed_in_place (videos pl) ys (videos pl')
    ∧ updates_in_place (local_video_urls (videos pl)).
Proof.
  intros Hid Hne Hpl Hys.
  eexists _, _, _. split; [by eapply sync_playlist_runs|].
  split; [done|]. simpl. split; [apply dict_get_set|].
  split; [|apply merge_step_updates_in_place].
  intros j yt Hj Hin. simpl. by apply merged_existing.
Qed.

Lemma sync_updates_in_place_witness :
  ∃ pl ys,
    dict_get "PL1" (playlists (load_data (Some Sample.tracked))) = Some pl
    ∧ get_playlist_items Sample.library Sample.youtube = inr ys
    ∧ ∃ o d' pl',
        sync_playlist Sample.library (Some Sample.tracked) Sample.youtube
          "https://www.youtube.com/playlist?list=PL1" = Ok o
        ∧ saved o = Some d'
        ∧ dict_get "PL1" (playlists d') = Some pl'
        ∧ refreshed_in_place (videos pl) ys (videos pl')
        ∧ updates_in_place (local_video_urls (videos pl)).
Proof.
  eexists _, _. split; [reflexivity|]. split; [reflexivity|].
  apply (sync_updates_in_place Sample.library (Some Sample.tracked)
           Sample.youtube "https://www.youtube.com/playlist?list=PL1" "PL1");
    reflexivity.
Defined.

(** C5.  After a sync the stored videos of the playlist are the fetched
    ones, in the fetched order: a fetched video whose URL was not stored
    is inserted as fetched, unfed and without analysis, and a stored video
    whose URL was not fetched is no longer in the list. *)
Theorem sync_replaces_videos (L : Library) (file : option Document)
    (youtube : YouTube) (purl pid : string) (pl : PlaylistRecord)
    (ys : list VideoRecord) :
  get_playlist_id L purl = Ok (Some pid) → Str.nonempty pid = true →
  dict_get pid (playlists (load_data file)) = Some pl →
  get_playlist_items L youtube = inr ys →
  ∃ o d' pl',
    sync_playlist L file youtube purl = Ok o
    ∧ saved o = Some d'
    ∧ dict_get pid (playlists d') = Some pl'
    ∧ replaced_by_fetch (videos pl) ys (videos pl').
Proof.
  intros Hid Hne Hpl Hys.
  eexists _, _, _. split; [by eapply sync_playlist_runs|].
  split; [done|]. simpl. split; [apply dict_get_set|]. simpl.
  split; [apply merged_videos_urls|].
  split; [apply merged_videos_length|]. split.
  - intros j yt Hj Hnew. split; [by apply merged_new|].
    eapply Forall_forall; [by eapply get_playlist_items_fresh|].
    by eapply list_elem_of_lookup_2.
  - intros e He Hgone v Hv Huv. apply Hgone.
    rewrite <- (merged_videos_urls (videos pl) ys), <- Huv.
    apply list_elem_of_fmap. by exists v.
Qed.

Lemma sync_replaces_videos_witness :
  ∃ pl ys,
    dict_get "PL1" (playlists (load_data (Some Sample.tracked))) = Some pl
    ∧ get_playlist_items Sample.library Sample.youtube = inr ys
    ∧ ∃ o d' pl',
        sync_playlist Sample.library (Some Sample.tracked) Sample.youtube
          "https://www.youtube.com/playlist?list=PL1" = Ok o
        ∧ saved o = Some d'
        ∧ dict_get "PL1" (playlists d') = Some pl'
        ∧ replaced_by_fetch (videos pl) ys (videos pl').
Proof.
  eexists _, _. split; [reflexivity|]. split; [reflexivity|].
  apply (sync_replaces_videos Sample.library (Some Sample.tracked)
           Sample.youtube "https://www.youtube.com/playlist?list=PL1" "PL1");
    reflexivity.
Defined.

(** ** The sort of the candidates *)

Lemma key_lt_false a b : key_lt b a = false ↔ key_le a b.
Proof.
  unfold key_lt, key_le, Qltb.
  destruct (Nat.eqb_spec b.1 a.1) as [Heq|Hne].
  - rewrite negb_false_iff, Qle_bool_iff. split; [by auto|].
    intros [?|[_ ?]]; [lia|done].
  - rewrite Nat.ltb_ge. split; [intros ?; left; lia|].
    intros [?|[? _]]; [lia|congruence].
Qed.

Lemma key_lt_true a b : key_lt a b = true → key_le a b.
Proof.
  unfold key_lt, key_le, Qltb.
  destruct (Nat.eqb_spec a.1 b.1) as [Heq|Hne].
  - rewrite negb_true_iff. intros Hq. right. split; [done|].
    destruct (Qle_bool a.2 b.2) eqn:Hle; [by apply Qle_bool_iff|].
    apply Qlt_le_weak, Qnot_le_lt. intros Hba. apply Qle_bool_iff in Hba. congruence.
  - rewrite Nat.ltb_lt. by left.
Qed.

Lemma key_le_trans a b c : key_le a b → key_le b c → key_le a c.
Proof.
  unfold key_le. intros [?|[? ?]] [?|[? ?]].
  - left. lia.
  - left. lia.
  - left. lia.
  - right. split; [lia|]. by eapply Qle_trans.
Qed.

Section Sorting.
Context {A : Type}.

#[local] Instance by_key_trans : Transitive (@by_key A).
Proof. intros x y z. apply key_le_trans. Qed.

Lemma insert_by_key_perm (x : sort_key * A) l : insert_by_key x l ≡ₚ x :: l.
Proof.
  induction l as [|y l IH]; simpl; [done|].
  destruct (key_lt y.1 x.1); [|done].
  rewrite IH. apply Permutation_swap.
Qed.

Lemma sort_by_key_perm (l : list (sort_key * A)) : sort_by_key l ≡ₚ l.
Proof.
  induction l as [|x l IH]; simpl; [done|].
  unfold sort_by_key in *. simpl. by rewrite insert_by_key_perm, IH.
Qed.

Lemma insert_by_key_sorted (x : sort_key * A) l :
  StronglySorted by_key l → StronglySorted by_key (insert_by_key x l).
Proof.
  induction l as [|y l IH]; simpl; intros Hl.
  - repeat constructor.
  - apply StronglySorted_cons in Hl as [Hy Hl].
    destruct (key_lt y.1 x.1) eqn:Hyx.
    + apply StronglySorted_cons. split; [|by apply IH].
      rewrite insert_by_key_perm. constructor; [|done].
      by apply key_lt_true.
    + apply key_lt_false in Hyx.
      apply StronglySorted_cons. split; [|by apply StronglySorted_cons].
      constructor; [done|].
      eapply Forall_impl; [exact Hy|]. intros z Hz. by etrans.
Qed.

Lemma sort_by_key_sorted (l : list (sort_key * A)) :
  StronglySorted by_key (sort_by_key l).
Proof.
  induction l as [|x l IH]; [constructor|].
  unfold sort_by_key in *. simpl. by apply insert_by_key_sorted.
Qed.

End Sorting.

Lemma StronglySorted_lookup {A} (R : relation A) l i j a b :
  StronglySorted R l → i < j → l !! i = Some a → l !! j = Some b → R a b.
Proof.
  intros Hl. revert i j. induction Hl as [|x l Hl IH Hx]; intros i j Hij; [done|].
  destruct j as [|j]; [lia|]. destruct i as [|i]; simpl.
  - intros [= ->] Hb. eapply Forall_forall; [exact Hx|].
    by eapply list_elem_of_lookup_2.
  - apply IH. lia.
Qed.

Section Order.
Variable L : Library.

Lemma with_keys_spec vs kvs :
  with_keys L vs = Ok kvs →
  snd <$> kvs = vs ∧ Forall (fun kv => video_key L kv.2 = Ok kv.1) kvs.
Proof.
  revert kvs. induction vs as [|v vs IH]; intros kvs; simpl.
  - intros [= <-]. by split.
  - destruct (video_key L v) as [k|e] eqn:Hk; [|done]. rewrite bind_Ok.
    destruct (with_keys L vs) as [kvs'|e]; [|done]. rewrite bind_Ok.
    intros [= <-]. destruct (IH kvs' eq_refl) as [<- Hall].
    split; [done|]. by constructor.
Qed.

Lemma with_keys_returns vs :
  (∀ v, v ∈ vs → ∃ t, parse_youtube_datetime L (publishedAt v) = Ok t) →
  ∃ kvs, with_keys L vs = Ok kvs.
Proof.
  induction vs as [|v vs IH]; intros Hall; simpl; [by eauto|].
  destruct (Hall v (list_elem_of_here _ _)) as [t Ht].
  unfold video_key. rewrite Ht, !bind_Ok.
  destruct IH as [kvs ->].
  { intros v' Hv'. apply Hall. by apply list_elem_of_further. }
  rewrite bind_Ok. by eauto.
Qed.

Lemma by_key_feeds_before (x y : sort_key * VideoRecord) :
  video_key L x.2 = Ok x.1 → video_key L y.2 = Ok y.1 →
  by_key x y → feeds_before L x.2 y.2.
Proof.
  unfold video_key, by_key, key_le, feeds_before.
  destruct (parse_youtube_datetime L (publishedAt x.2)) as [ta|]; [|done].
  destruct (parse_youtube_datetime L (publishedAt y.2)) as [tb|]; [|done].
  rewrite !bind_Ok. intros [= <-] [= <-]. simpl.
  intros Hle. exists ta, tb. do 2 (split; [done|]).
  destruct Hle as [?|[? Hq]]; [by left|right]. split; [done|].
  by apply Qopp_le_compat in Hq; rewrite !Qopp_involutive in Hq.
Qed.

Lemma sorted_unfed_videos_spec data l :
  sorted_unfed_videos L data = Ok l →
  l ≡ₚ unfed_videos (playlists data)
  ∧ ∀ i j a b, i < j → l !! i = Some a → l !! j = Some b → feeds_before L a b.
Proof.
  unfold sorted_unfed_videos.
  destruct (with_keys L (unfed_videos (playlists data))) as [kvs|e] eqn:Hk; [|done].
  rewrite bind_Ok. intros [= <-].
  destruct (with_keys_spec _ _ Hk) as [Hsnd Hkeys]. split.
  - rewrite <- Hsnd. apply fmap_Permutation, sort_by_key_perm.
  - intros i j a b Hij. rewrite !list_lookup_fmap.
    destruct (sort_by_key kvs !! i) as [x|] eqn:Hx; [|done].
    destruct (sort_by_key kvs !! j) as [y|] eqn:Hy; [|done].
    simpl. intros [= <-] [= <-].
    assert (∀ z, z ∈ sort_by_key kvs → video_key L z.2 = Ok z.1) as Hz.
    { intros z Hin. rewrite sort_by_key_perm in Hin.
      by eapply Forall_forall in Hkeys. }
    apply by_key_feeds_before.
    + apply Hz. by eapply list_elem_of_lookup_2.
    + apply Hz. by eapply list_elem_of_lookup_2.
    + eapply StronglySorted_lookup; [apply sort_by_key_sorted| |done|done]. done.
Qed.

Lemma unfed_videos_elem pls v :
  v ∈ unfed_videos pls ↔
  fed v = false ∧ ∃ pid pl, (pid, pl) ∈ pls ∧ v ∈ videos pl.
Proof.
  unfold unfed_videos. rewrite list_elem_of_In, in_flat_map. split.
  - intros ([pid pl] & Hin & Hv). apply list_elem_of_In in Hin, Hv.
    apply list_elem_of_filter in Hv as [? ?]. split; [done|]. by exists pid, pl.
  - intros (Hfed & pid & pl & Hin & Hv). exists (pid, pl).
    rewrite <- !list_elem_of_In. split; [done|].
    apply list_elem_of_filter. by split.
Qed.

End Order.

Lemma rating_rank_other r : r ∉ rating_names → rating_rank (Some r) = 6.
Proof.
  intros Hr. unfold rating_rank.
  change (default "unknown"%string (Some r)) with r.
  unfold USEFULNESS_ORDER at 2.
  rewrite not_elem_of_list_to_map_1; [reflexivity|exact Hr].
Qed.

Lemma rating_rank_listed r : rating_rank r = listed_rank r.
Proof.
  destruct r as [r|]; [|reflexivity]. unfold listed_rank.
  repeat (case_bool_decide; [by subst r|]).
  apply rating_rank_other. unfold rating_names.
  rewrite !elem_of_cons, elem_of_nil. intuition.
Qed.

Lemma publish_timestamp_parse L v t :
  parse_youtube_datetime L (publishedAt v) = Ok t ↔ publish_timestamp L v = Some t.
Proof.
  unfold parse_youtube_datetime, publish_timestamp.
  destruct (fromisoformat_timestamp L _); split; (intros [= <-] || intros [=]); done.
Qed.

Lemma feeds_before_ranked L a b : feeds_before L a b → ranked_before L a b.
Proof.
  intros (ta & tb & Ha & Hb & Hord). exists ta, tb.
  apply publish_timestamp_parse in Ha, Hb.
  unfold usefulness_rank in Hord. rewrite !rating_rank_listed in Hord. done.
Qed.

Lemma ranked_before_total L a b :
  is_Some (publish_timestamp L a) → is_Some (publish_timestamp L b) →
  ranked_before L a b ∨ ranked_before L b a.
Proof.
  intros [ta Ha] [tb Hb].
  destruct (lt_eq_lt_dec (listed_rank (usefulness_rating a))
                         (listed_rank (usefulness_rating b))) as [[Hlt|Heq]|Hgt].
  - left. exists ta, tb. by eauto.
  - destruct (Qlt_le_dec ta tb) as [Hq|Hq].
    + right. exists tb, ta. split; [done|]. split; [done|]. right.
      split; [done|]. by apply Qlt_le_weak.
    + left. exists ta, tb. by eauto.
  - right. exists tb, ta. by eauto.
Qed.

(** C1.  The candidates of the feed are the videos with [fed == false]
    of all playlists.  They are sorted by the rank of their
    [usefulness_rating] ascending ([highly_useful] 0, [useful] 1,
    [review_needed] 2, [fluff] 3, [outdated] 4, [unknown] 5, no rating 5,
    any other rating 6), and among equal ranks by the publish timestamp
    their [publishedAt] denotes, descending; any two candidates are
    comparable in this order.  The rank the code computes for a record is
    the rank of this table. *)
Theorem feed_order (L : Library) (data : Document) :
  (∀ v, v ∈ unfed_videos (playlists data) → is_Some (publish_timestamp L v)) →
  (∀ v, v ∈ unfed_videos (playlists data) ↔
        fed v = false ∧ ∃ pid pl, (pid, pl) ∈ playlists data ∧ v ∈ videos pl)
  ∧ (∃ l, sorted_unfed_videos L data = Ok l
          ∧ l ≡ₚ unfed_videos (playlists data)
          ∧ (∀ i j a b, i < j → l !! i = Some a → l !! j = Some b →
                        ranked_before L a b)
          ∧ (∀ a b, a ∈ l → b ∈ l → ranked_before L a b ∨ ranked_before L b a))
  ∧ (∀ v, usefulness_rank v = listed_rank (usefulness_rating v))
  ∧ listed_rank <$> (Some <$> rating_names) = [0; 1; 2; 3; 4; 5]
  ∧ listed_rank None = 5
  ∧ (∀ r, r ∉ rating_names → listed_rank (Some r) = 6)
  ∧ rating_rank <$> (Some <$> rating_names) = [0; 1; 2; 3; 4; 5]
  ∧ rating_rank None = 5
  ∧ ∀ r, r ∉ rating_names → rating_rank (Some r) = 6.
Proof.
  intros Hstamp.
  assert (∀ v, v ∈ unfed_videos (playlists data) →
               ∃ t, parse_youtube_datetime L (publishedAt v) = Ok t) as Hparse.
  { intros v Hv. destruct (Hstamp v Hv) as [t Ht]. exists t.
    by apply publish_timestamp_parse. }
  split; [apply unfed_videos_elem|]. split.
  - destruct (with_keys_returns L _ Hparse) as [kvs Hk].
    exists (snd <$> sort_by_key kvs).
    assert (sorted_unfed_videos L data = Ok (snd <$> sort_by_key kvs)) as Hs.
    { unfold sorted_unfed_videos. by rewrite Hk. }
    split; [done|].
    destruct (sorted_unfed_videos_spec L data _ Hs) as [Hperm Hord].
    split; [done|]. split.
    + intros i j a b Hij Ha Hb. apply feeds_before_ranked. by eapply Hord.
    + intros a b Ha Hb. apply ranked_before_total; apply Hstamp; by rewrite <- Hperm.
  - split; [intros v; apply rating_rank_listed|].
    split; [reflexivity|]. split; [reflexivity|]. split.
    + intros r Hr. rewrite <- rating_rank_listed. by apply rating_rank_other.
    + split; [reflexivity|]. split; [reflexivity|]. apply rating_rank_other.
Qed.

Lemma feed_order_witness :
  (∀ v, v ∈ unfed_videos (playlists Sample.rated) ↔
        fed v = false ∧ ∃ pid pl, (pid, pl) ∈ playlists Sample.rated ∧ v ∈ videos pl)
  ∧ (∃ l, sorted_unfed_videos Sample.library Sample.rated = Ok l
          ∧ l ≡ₚ unfed_videos (playlists Sample.rated)
          ∧ (∀ i j a b, i < j → l !! i = Some a → l !! j = Some b →
                        ranked_before Sample.library a b)
          ∧ (∀ a b, a ∈ l → b ∈ l →
                    ranked_before Sample.library a b
                    ∨ ranked_before Sample.library b a))
  ∧ (∀ v, usefulness_rank v = listed_rank (usefulness_rating v))
  ∧ listed_rank <$> (Some <$> rating_names) = [0; 1; 2; 3; 4; 5]
  ∧ listed_rank None = 5
  ∧ (∀ r, r ∉ rating_names → listed_rank (Some r) = 6)
  ∧ rating_rank <$> (Some <$> rating_names) = [0; 1; 2; 3; 4; 5]
  ∧ rating_rank None = 5
  ∧ ∀ r, r ∉ rating_names → rating_rank (Some r) = 6.
Proof.
  apply (feed_order Sample.library Sample.rated).
  intros v Hv. vm_compute in Hv.
  repeat (apply elem_of_cons in Hv as [->|Hv]; [eexists; reflexivity|]).
  by apply elem_of_nil in Hv.
Defined.

(** The ordering example of the specification: ranks first, newest first
    within a rank, unrated and misspelt ratings last. *)
Example feed_order_example :
  ∃ l, sorted_unfed_videos Sample.library Sample.rated = Ok l
       ∧ title <$> l = ["three"; "two"; "one"; "four"; "five"]%string.
Proof. eexists. split; reflexivity. Qed.

(** ** What the scan changes *)

Lemma update_first_video_Some p f vs w vs' :
  update_first_video p f vs = Some (w, vs') →
  ∃ pre post, vs = pre ++ w :: post ∧ vs' = pre ++ f w :: post ∧ p w = true.
Proof.
  revert vs'. induction vs as [|v vs IH]; intros vs'; simpl; [done|].
  destruct (p v) eqn:Hpv.
  - intros [= <- <-]. by exists [], vs.
  - destruct (update_first_video p f vs) as [[w' vs'']|]; [|done].
    intros [= <- <-]. destruct (IH _ eq_refl) as (pre & post & -> & -> & Hw).
    by exists (v :: pre), post.
Qed.

Lemma update_first_Some p f pls pl w pls' :
  update_first p f pls = Some (pl, w, pls') →
  ∃ pre pid post vpre vpost,
    pls = pre ++ (pid, pl) :: post
    ∧ videos pl = vpre ++ w :: vpost
    ∧ pls' = pre ++ (pid, set_videos (vpre ++ f w :: vpost) pl) :: post
    ∧ p w = true.
Proof.
  revert pls'. induction pls as [|[pid0 pl0] pls IH]; intros pls'; simpl; [done|].
  destruct (update_first_video p f (videos pl0)) as [[w0 vs0]|] eqn:H0.
  - intros [= <- <- <-].
    destruct (update_first_video_Some _ _ _ _ _ H0) as (vpre & vpost & Hv & -> & Hw).
    by exists [], pid0, pls, vpre, vpost.
  - destruct (update_first p f pls) as [[[pl1 w1] pls1]|]; [|done].
    intros [= <- <- <-].
    destruct (IH _ eq_refl) as (pre & pid & post & vpre & vpost & -> & Hv & -> & Hw).
    by exists ((pid0, pl0) :: pre), pid, post, vpre, vpost.
Qed.

Lemma playlists_rel_refl R pls : (∀ v, R v v) → playlists_rel R pls pls.
Proof.
  intros HR. apply Forall2_same_length_lookup. split; [done|].
  intros i p p' Hp Hp'. rewrite Hp in Hp'. injection Hp' as <-.
  repeat split; try done.
  apply Forall2_same_length_lookup. split; [done|].
  intros j v v' Hv Hv'. rewrite Hv in Hv'. by injection Hv' as <-.
Qed.

Lemma playlists_rel_trans R pls1 pls2 pls3 :
  (∀ a b c, R a b → R b c → R a c) →
  playlists_rel R pls1 pls2 → playlists_rel R pls2 pls3 → playlists_rel R pls1 pls3.
Proof.
  intros HR H12. revert pls3.
  induction H12 as [|p1 p2 l1 l2 (? & ? & ? & Hv12) _ IH]; intros pls3 H23.
  - apply Forall2_nil_inv_l in H23 as ->. constructor.
  - apply Forall2_cons_inv_l in H23 as (p3 & l3 & (? & ? & ? & Hv23) & H23 & ->).
    constructor; [|by apply IH].
    repeat split; try congruence.
    clear -HR Hv12 Hv23. revert Hv23. generalize (videos p3.2).
    induction Hv12 as [|a b la lb Hab _ IHv]; intros lc Hbc.
    + apply Forall2_nil_inv_l in Hbc as ->. constructor.
    + apply Forall2_cons_inv_l in Hbc as (c & lc' & Hbc & Hrest & ->).
      constructor; [by eapply HR|by apply IHv].
Qed.

Lemma playlists_rel_impl (R R' : VideoRecord → VideoRecord → Prop) pls pls' :
  (∀ v v', R v v' → R' v v') → playlists_rel R pls pls' → playlists_rel R' pls pls'.
Proof.
  intros HR Hrel. eapply Forall2_impl; [exact Hrel|].
  intros p p' (? & ? & ? & Hv). repeat split; try done.
  eapply Forall2_impl; [exact Hv|done].
Qed.

(** The scan relates the document before and after record by record. *)
Lemma update_first_rel (R : VideoRecord → VideoRecord → Prop) p f pls pl w pls' :
  (∀ v, R v v) → (∀ v, p v = true → R v (f v)) →
  update_first p f pls = Some (pl, w, pls') → playlists_rel R pls pls'.
Proof.
  intros Hrefl Hf
    (pre & pid & post & vpre & vpost & -> & Hv & -> & Hw)%update_first_Some.
  apply Forall2_app; [by apply playlists_rel_refl|].
  constructor; [|by apply playlists_rel_refl].
  simpl. repeat split; try done. rewrite Hv.
  apply Forall2_app; [by apply Forall2_same_length_lookup_2; [done|];
                      intros i x y Hx Hy; rewrite Hx in Hy; injection Hy as <-|].
  constructor; [by apply Hf|].
  apply Forall2_same_length_lookup_2; [done|].
  intros i x y Hx Hy. rewrite Hx in Hy. by injection Hy as <-.
Qed.

(** ** The feed loop *)

Lemma unfed_videos_app pls1 pls2 :
  unfed_videos (pls1 ++ pls2) = unfed_videos pls1 ++ unfed_videos pls2.
Proof. unfold unfed_videos. apply flat_map_app. Qed.

Lemma feed_scan_unfed u pls pl w pls' :
  update_first (fun v => has_url u v && negb (fed v)) set_fed pls
    = Some (pl, w, pls') →
  url w = u ∧ fed w = false
  ∧ ∃ A B, unfed_videos pls = A ++ w :: B ∧ unfed_videos pls' = A ++ B.
Proof.
  intros (pre & pid & post & vpre & vpost & -> & Hv & -> & Hw)%update_first_Some.
  apply andb_prop in Hw as [Hu Hfed].
  apply bool_decide_eq_true in Hu. apply negb_true_iff in Hfed.
  split; [done|]. split; [done|].
  exists (unfed_videos pre ++ filter (fun v => fed v = false) vpre),
         (filter (fun v => fed v = false) vpost ++ unfed_videos post).
  rewrite !unfed_videos_app. unfold unfed_videos at 2 5. simpl.
  rewrite Hv, !filter_app, filter_cons_True by done.
  rewrite filter_cons_False by (simpl; done).
  by rewrite <- !app_assoc.
Qed.

Lemma fed_step_refl v : fed_step v v.
Proof. by left. Qed.

Lemma fed_step_trans a b c : fed_step a b → fed_step b c → fed_step a c.
Proof.
  intros [->|[Ha ->]] [->|[Hb ->]]; [by left|by right|by right|done].
Qed.

Lemma feed_one_spec st v :
  url v ∈ url <$> unfed_videos (feed_playlists st) →
  ∃ w A B,
    url w = url v
    ∧ unfed_videos (feed_playlists st) = A ++ w :: B
    ∧ unfed_videos (feed_playlists (feed_one st v)) = A ++ B
    ∧ fed_count_today (feed_one st v) = S (fed_count_today st)
    ∧ playlists_rel fed_step (feed_playlists st) (feed_playlists (feed_one st v)).
Proof.
  intros (w & Huw & Hw)%list_elem_of_fmap.
  apply unfed_videos_elem in Hw as (Hfed & pid & pl & Hin & Hwin).
  unfold feed_one.
  destruct (update_first _ set_fed (feed_playlists st)) as [[[pl' w'] pls']|] eqn:Hscan.
  - destruct (feed_scan_unfed _ _ _ _ _ Hscan) as (Hu & Hf & A & B & HA & HB).
    exists w', A, B. simpl. repeat split; try done.
    eapply update_first_rel; [apply fed_step_refl| |exact Hscan].
    intros x [_ Hx%negb_true_iff]%andb_prop. by right.
  - exfalso.
    assert ((has_url (url v) w && negb (fed w)) = false) as Hfalse.
    { by eapply (proj1 (update_first_None _ _ _) Hscan). }
    unfold has_url in Hfalse.
    rewrite bool_decide_eq_true_2, Hfed in Hfalse by done. done.
Qed.

Lemma feed_loop_spec (limit : nat) (vs : list VideoRecord) (st : feed_state) :
  url <$> vs ≡ₚ url <$> unfed_videos (feed_playlists st) →
  (fed_count_today st ≤ limit)%nat →
  fed_count_today (feed_loop limit st vs)
    = (limit `min` (fed_count_today st + length vs))%nat
  ∧ (length (unfed_videos (feed_playlists (feed_loop limit st vs)))
     + fed_count_today (feed_loop limit st vs)
     = length (unfed_videos (feed_playlists st)) + fed_count_today st)%nat
  ∧ playlists_rel fed_step (feed_playlists st)
                  (feed_playlists (feed_loop limit st vs)).
Proof.
  revert st. induction vs as [|v vs IH]; intros st Hperm Hle; simpl.
  - split; [lia|]. split; [done|]. apply playlists_rel_refl, fed_step_refl.
  - destruct (Nat.leb_spec limit (fed_count_today st)) as [Hfull|Hroom].
    + split; [lia|]. split; [done|]. apply playlists_rel_refl, fed_step_refl.
    + destruct (feed_one_spec st v) as (w & A & B & Huw & HA & HB & Hcount & Hrel).
      { rewrite <- Hperm. simpl. apply list_elem_of_here. }
      destruct (IH (feed_one st v)) as (Hc & Hlen & Hrel').
      { rewrite HB, fmap_app. rewrite HA, fmap_app in Hperm. simpl in Hperm.
        rewrite Huw in Hperm. by eapply Permutation_cons_app_inv. }
      { lia. }
      split; [lia|]. split.
      * rewrite Hlen, HB, HA, Hcount, !length_app. simpl. lia.
      * eapply playlists_rel_trans; [apply fed_step_trans|exact Hrel|exact Hrel'].
Qed.

(** ** The gate and the whole command *)

Section Next.
Variable L : Library.

Lemma gate_open_spec today data :
  gate_open L today data ↔ already_fed_today L today data = Ok false.
Proof.
  unfold gate_open, already_fed_today.
  destruct (last_fed_date data) as [s|]; [|by intuition].
  destruct s as [|c s]; simpl; [by intuition|].
  destruct (fromisoformat_date L (String c s)) as [d|] eqn:Hd.
  - split.
    + intros [?|[?|(s' & d' & [= <-] & Hd' & Hne)]]; [done..|].
      rewrite Hd in Hd'. injection Hd' as <-.
      by rewrite bool_decide_eq_false_2.
    + intros [= Hne%bool_decide_eq_false]. right. right. by exists (String c s), d.
  - split; [|done].
    intros [?|[?|(s' & d' & [= <-] & Hd' & Hne)]]; [done..|]. congruence.
Qed.

Lemma gate_closed today data s :
  last_fed_date data = Some s → Str.nonempty s = true →
  fromisoformat_date L s = Some today →
  already_fed_today L today data = Ok true.
Proof.
  intros Hs Hne Hd. unfold already_fed_today.
  by rewrite Hs, Hne, Hd, bool_decide_eq_true_2.
Qed.

Lemma isoformat_nonempty d : Str.nonempty (isoformat d) = true.
Proof. unfold isoformat. cbv [zero_padded String.append]. reflexivity. Qed.

Lemma sorted_unfed_videos_returns data :
  timestamps_readable L data →
  ∃ l, sorted_unfed_videos L data = Ok l ∧ l ≡ₚ unfed_videos (playlists data).
Proof.
  intros Hparse. destruct (with_keys_returns L _ Hparse) as [kvs Hk].
  exists (snd <$> sort_by_key kvs).
  assert (sorted_unfed_videos L data = Ok (snd <$> sort_by_key kvs)) as Hs.
  { unfold sorted_unfed_videos. by rewrite Hk. }
  split; [done|]. by apply (sorted_unfed_videos_spec L data).
Qed.

(** The command past an open gate, with at least one candidate. *)
Lemma get_next_video_feeds limit today file :
  gate_open L today (load_data file) →
  unfed_videos (playlists (load_data file)) ≠ [] →
  timestamps_readable L (load_data file) →
  ∃ o d',
    get_next_video_limit L limit today file = Ok o
    ∧ saved o = Some d'
    ∧ last_fed_date d' = Some (isoformat today)
    ∧ playlists_rel fed_step (playlists (load_data file)) (playlists d')
    ∧ (length (unfed_videos (playlists d'))
       + limit `min` length (unfed_videos (playlists (load_data file)))
       = length (unfed_videos (playlists (load_data file))))%nat.
Proof.
  intros Hgate%gate_open_spec Hcand Hparse.
  unfold get_next_video_limit. rewrite Hgate, bind_Ok.
  destruct (unfed_videos (playlists (load_data file))) as [|c cs] eqn:Hunfed; [done|].
  destruct (sorted_unfed_videos_returns _ Hparse) as (l & -> & Hperm).
  rewrite bind_Ok.
  destruct (feed_loop_spec limit l
              {| feed_playlists := playlists (load_data file);
                 fed_count_today := 0; feed_printed := [] |})
    as (Hcount & Hlen & Hrel).
  { simpl. by rewrite Hperm. }
  { simpl. lia. }
  simpl in Hcount, Hlen, Hrel.
  eexists _, _. split; [done|]. simpl. split; [done|]. split; [done|].
  split; [done|].
  rewrite Hunfed in Hlen. rewrite (Permutation_length Hperm), Hunfed in Hcount.
  simpl in *. lia.
Qed.

End Next.

(** C2.  When [last_fed_date] is today's date the feed refuses and
    returns without saving.  Otherwise it runs: the document keeps its
    shape, a record is either unchanged or goes from unfed to fed, and the
    number of records marked is the limit or the number of candidates,
    whichever is smaller.  A second run on the saved document the same day
    refuses again and saves nothing, so [last_fed_date] stays. *)
Theorem daily_cap (L : Library) (limit : nat) (today : date)
    (file : option Document) :
  (∀ s, last_fed_date (load_data file) = Some s → Str.nonempty s = true →
        fromisoformat_date L s = Some today →
        get_next_video_limit L limit today file = Ok (no_save [AlreadyFedToday]))
  ∧ (gate_open L today (load_data file) →
     timestamps_readable L (load_data file) →
     ∃ o, get_next_video_limit L limit today file = Ok o
          ∧ match saved o with
            | None => unfed_videos (playlists (load_data file)) = []
            | Some d' =>
                playlists_rel fed_step (playlists (load_data file)) (playlists d')
                ∧ (length (unfed_videos (playlists d'))
                   + limit `min` length (unfed_videos (playlists (load_data file)))
                   = length (unfed_videos (playlists (load_data file))))%nat
            end)
  ∧ (∀ o d', get_next_video_limit L limit today file = Ok o →
             saved o = Some d' →
             fromisoformat_date L (isoformat today) = Some today →
             get_next_video_limit L limit today (Some d')
               = Ok (no_save [AlreadyFedToday])
             ∧ file_after (Some d') (no_save [AlreadyFedToday]) = Some d'
             ∧ last_fed_date d' = Some (isoformat today)).
Proof.
  split; [|split].
  - intros s Hs Hne Hd. unfold get_next_video_limit.
    by rewrite (gate_closed L _ _ _ Hs Hne Hd).
  - intros Hgate Hparse.
    destruct (unfed_videos (playlists (load_data file))) as [|c cs] eqn:Hunfed.
    + exists (no_save [NoUnfedVideos]). split; [|done].
      apply gate_open_spec in Hgate.
      unfold get_next_video_limit. by rewrite Hgate, bind_Ok, Hunfed.
    + destruct (get_next_video_feeds L limit today file Hgate)
        as (o & d' & Ho & Hsaved & _ & Hrel & Hlen); [by rewrite Hunfed|done|].
      exists o. split; [done|]. rewrite Hsaved. split; [done|].
      by rewrite <- Hunfed.
  - intros o d' Ho Hsaved Hround.
    assert (last_fed_date d' = Some (isoformat today)) as Hstamp.
    { revert Ho. unfold get_next_video_limit.
      destruct (already_fed_today L today (load_data file)) as [[|]|e];
        rewrite ?bind_Ok, ?bind_Raise; [by intros [= <-]| |done].
      destruct (unfed_videos (playlists (load_data file))) as [|c cs];
        [by intros [= <-]|].
      destruct (sorted_unfed_videos L (load_data file)) as [l|e];
        rewrite ?bind_Ok, ?bind_Raise; [|done].
      intros [= <-]. simpl in Hsaved. by injection Hsaved as <-. }
    split; [|done]. unfold get_next_video_limit.
    by rewrite (gate_closed L today (load_data (Some d')) _ Hstamp
                  (isoformat_nonempty today) Hround).
Qed.

Lemma sample_gate_open :
  gate_open Sample.library (Date 2024 3 7) (load_data (Some Sample.rated)).
Proof.
  right. right. exists "2024-03-06"%string, (Date 2024 3 6).
  split; [reflexivity|]. split; [reflexivity|]. discriminate.
Defined.

Lemma sample_timestamps_readable :
  timestamps_readable Sample.library (load_data (Some Sample.rated)).
Proof.
  intros v Hv. vm_compute in Hv.
  repeat (apply elem_of_cons in Hv as [->|Hv]; [eexists; reflexivity|]).
  by apply elem_of_nil in Hv.
Defined.

Lemma daily_cap_witness :
  get_next_video Sample.library (Date 2024 3 6) (Some Sample.rated)
    = Ok (no_save [AlreadyFedToday])
  ∧ (∃ o, get_next_video Sample.library (Date 2024 3 7) (Some Sample.rated) = Ok o
          ∧ match saved o with
            | None => unfed_videos (playlists Sample.rated) = []
            | Some d' =>
                playlists_rel fed_step (playlists Sample.rated) (playlists d')
                ∧ (length (unfed_videos (playlists d'))
                   + DAILY_VIDEO_LIMIT `min` length (unfed_videos (playlists Sample.rated))
                   = length (unfed_videos (playlists Sample.rated)))%nat
            end)
  ∧ (∃ o d', get_next_video Sample.library (Date 2024 3 7) (Some Sample.rated) = Ok o
             ∧ saved o = Some d'
             ∧ get_next_video Sample.library (Date 2024 3 7) (Some d')
               = Ok (no_save [AlreadyFedToday])
             ∧ file_after (Some d') (no_save [AlreadyFedToday]) = Some d'
             ∧ last_fed_date d' = Some "2024-03-07"%string).
Proof.
  split; [|split].
  - apply (proj1 (daily_cap Sample.library DAILY_VIDEO_LIMIT (Date 2024 3 6)
                    (Some Sample.rated)) "2024-03-06"%string); reflexivity.
  - apply (proj1 (proj2 (daily_cap Sample.library DAILY_VIDEO_LIMIT (Date 2024 3 7)
                           (Some Sample.rated)))).
    + exact sample_gate_open.
    + exact sample_timestamps_readable.
  - eexists _, _. split; [reflexivity|]. split; [reflexivity|].
    eapply (proj2 (proj2 (daily_cap Sample.library DAILY_VIDEO_LIMIT (Date 2024 3 7)
                            (Some Sample.rated)))); reflexivity.
Defined.

(** C3.  Past the gate, the feed records today's date exactly when there
    is a candidate: with no unfed video it reports so and returns without
    saving; with at least one it saves the document with
    [last_fed_date] set to today, whatever the limit, even a limit under
    which nothing is fed. *)
Theorem last_fed_date_stamp (L : Library) (limit : nat) (today : date)
    (file : option Document) :
  gate_open L today (load_data file) →
  (unfed_videos (playlists (load_data file)) = [] →
   get_next_video_limit L limit today file = Ok (no_save [NoUnfedVideos]))
  ∧ (unfed_videos (playlists (load_data file)) ≠ [] →
     timestamps_readable L (load_data file) →
     (∃ o d', get_next_video_limit L limit today file = Ok o
              ∧ saved o = Some d'
              ∧ last_fed_date d' = Some (isoformat today))
     ∧ get_next_video_limit L 0 today file
       = Ok {| saved := Some {| playlists := playlists (load_data file);
                                last_fed_date := Some (isoformat today) |};
               printed := [NoUnfedVideos] |})
  ∧ (∀ o d', get_next_video_limit L limit today file = Ok o →
             saved o = Some d' →
             unfed_videos (playlists (load_data file)) ≠ []
             ∧ last_fed_date d' = Some (isoformat today)).
Proof.
  intros Hgate. split; [|split].
  - intros Hnone. apply gate_open_spec in Hgate.
    unfold get_next_video_limit. by rewrite Hgate, bind_Ok, Hnone.
  - intros Hcand Hparse. split.
    + destruct (get_next_video_feeds L limit today file Hgate Hcand Hparse)
        as (o & d' & ? & ? & ? & _). by exists o, d'.
    + apply gate_open_spec in Hgate.
      unfold get_next_video_limit. rewrite Hgate, bind_Ok.
      destruct (unfed_videos (playlists (load_data file))) as [|c cs]; [done|].
      destruct (sorted_unfed_videos_returns L _ Hparse) as (l & -> & _).
      rewrite bind_Ok. by destruct l.
  - intros o d'. apply gate_open_spec in Hgate.
    unfold get_next_video_limit. rewrite Hgate, bind_Ok.
    destruct (unfed_videos (playlists (load_data file))) as [|c cs];
      [by intros [= <-]|].
    destruct (sorted_unfed_videos L (load_data file)) as [l|e];
      rewrite ?bind_Ok, ?bind_Raise; [|done].
    intros [= <-]. simpl. intros [= <-]. done.
Qed.

Lemma last_fed_date_stamp_witness :
  (unfed_videos (playlists Sample.rated) = [] →
   get_next_video Sample.library (Date 2024 3 7) (Some Sample.rated)
     = Ok (no_save [NoUnfedVideos]))
  ∧ (unfed_videos (playlists Sample.rated) ≠ [] →
     timestamps_readable Sample.library Sample.rated →
     (∃ o d', get_next_video Sample.library (Date 2024 3 7) (Some Sample.rated) = Ok o
              ∧ saved o = Some d'
              ∧ last_fed_date d' = Some "2024-03-07"%string)
     ∧ get_next_video_limit Sample.library 0 (Date 2024 3 7) (Some Sample.rated)
       = Ok {| saved := Some {| playlists := playlists Sample.rated;
                                last_fed_date := Some "2024-03-07"%string |};
               printed := [NoUnfedVideos] |})
  ∧ (∀ o d', get_next_video Sample.library (Date 2024 3 7) (Some Sample.rated) = Ok o →
             saved o = Some d' →
             unfed_videos (playlists Sample.rated) ≠ []
             ∧ last_fed_date d' = Some "2024-03-07"%string).
Proof.
  apply (last_fed_date_stamp Sample.library DAILY_VIDEO_LIMIT (Date 2024 3 7)
           (Some Sample.rated)).
  exact sample_gate_open.
Defined.

(** ** The fed flag through every command *)

Lemma dict_set_new {V} k (v : V) d :
  dict_get k d = None → dict_set k v d = d ++ [(k, v)].
Proof.
  induction d as [|[k' v'] d IH]; simpl; [done|].
  case_bool_decide; [done|]. intros Hd. by rewrite IH.
Qed.

Lemma dict_set_shape {V} k (v : V) d :
  Forall2 (fun p p' => p' = p ∨ (p.1 = k ∧ p'.1 = k)) d (dict_set k v d)
  ∨ dict_get k d = None.
Proof.
  induction d as [|[k' v'] d IH]; simpl; [by right|].
  case_bool_decide as Hk.
  - left. constructor; [by right|].
    apply Forall2_same_length_lookup_2; [done|].
    intros i x y Hx Hy. rewrite Hx in Hy. injection Hy as <-. by left.
  - destruct IH as [IH|IH]; [left|by right].
    constructor; [by left|done].
Qed.

Lemma fed_kept_refl v : fed_kept v v.
Proof. by split. Qed.

Lemma fed_step_kept v v' : fed_step v v' → fed_kept v v'.
Proof. intros [->|[_ ->]]; by split. Qed.

Lemma merged_videos_origin local ys v :
  v ∈ merged_videos local ys →
  (∃ k e, local !! k = Some e ∧ same_but_metadata e v)
  ∨ (v ∈ ys ∧ url v ∉ url <$> local).
Proof.
  rewrite merged_videos_unfold.
  intros (r & (y & -> & Hy)%list_elem_of_fmap & Hv)%list_elem_of_omap.
  unfold merge_ref in Hv.
  destruct (local_video_urls local !! url y) as [i|] eqn:Hi; simpl in Hv.
  - left. destruct (local_video_urls_Some _ _ _ Hi) as (e & He & _).
    destruct (merge_records_frame (local_video_urls local) ys local i e He)
      as (e' & He' & Hsame).
    rewrite He' in Hv. injection Hv as <-. by exists i, e.
  - right. injection Hv as <-. split; [done|].
    by apply local_video_urls_None.
Qed.

Lemma merge_keeps_local local ys k e :
  local !! k = Some e →
  ∃ e', local_records (merge local ys) !! k = Some e' ∧ same_but_metadata e e'.
Proof.
  intros He. unfold merge.
  destruct (merge_step_fold (local_video_urls local)
              {| local_records := local; updated_videos_list := [];
                 new_videos_count := 0 |} ys) as [_ ->].
  by apply merge_records_frame.
Qed.

Section Monotone.
Variable L : Library.

Lemma add_playlist_saved file youtube now purl o d' :
  add_playlist L file youtube now purl = Ok o → saved o = Some d' →
  ∃ entry, playlists d' = playlists (load_data file) ++ [entry].
Proof.
  unfold add_playlist. rewrite bool_decide_eq_false_2 by done.
  destruct (get_playlist_id L purl) as [[pid|]|e]; rewrite ?bind_Ok, ?bind_Raise;
    [| by intros [= <-] | done].
  destruct pid as [|c pid]; [by intros [= <-]|].
  destruct (dict_get _ (playlists (load_data file))) as [pl|] eqn:Hpl;
    [by intros [= <-]|].
  destruct (get_playlist_items L youtube) as [e|[|y ys]]; [by intros [= <-]..|].
  intros [= <-]. simpl. intros [= <-]. simpl.
  rewrite dict_set_new by done. by eexists.
Qed.

Lemma sync_playlist_keeps_fed file youtube purl o d' :
  sync_playlist L file youtube purl = Ok o → saved o = Some d' →
  sync_keeps_fed (playlists (load_data file)) (playlists d').
Proof.
  intros Ho Hsaved.
  destruct (sync_playlist_saved L _ _ _ _ _ Ho Hsaved)
    as (pid & pl & ys & _ & Hpl & _ & -> & _).
  exists pid, pl, ys. simpl. split; [done|]. split; [done|]. split.
  { destruct (dict_set_shape pid (set_videos (merged_videos (videos pl) ys) pl)
                (playlists (load_data file))) as [?|Hnone]; [done|congruence]. }
  split; [by apply merge_keeps_local|by apply merged_videos_origin].
Qed.

Lemma scan_saved (f : VideoRecord → VideoRecord) u data o d' :
  (∀ v, fed_kept v (f v)) →
  match update_first (has_url u) f (playlists data) with
  | Some (_, _, pls) =>
      Ok {| saved := Some {| playlists := pls;
                             last_fed_date := last_fed_date data |};
            printed := o |}
  | None => Ok (no_save [ErrVideoNotFound u])
  end = Ok d' →
  ∀ d'', saved d' = Some d'' → playlists_rel fed_kept (playlists data) (playlists d'').
Proof.
  intros Hf.
  destruct (update_first (has_url u) f (playlists data)) as [[[pl w] pls]|] eqn:Hscan.
  - intros [= <-] d'' [= <-]. simpl.
    eapply update_first_rel; [apply fed_kept_refl| |exact Hscan]. by intros v _.
  - by intros [= <-] d'' ?.
Qed.

Lemma analyze_video_keeps_fed file video_url s r a o d' :
  analyze_video L file video_url s r a = Ok o → saved o = Some d' →
  playlists_rel fed_kept (playlists (load_data file)) (playlists d').
Proof.
  unfold analyze_video.
  destruct (normalize_youtube_url L video_url) as [u|e];
    rewrite ?bind_Ok, ?bind_Raise; [|done].
  intros Ho. eapply scan_saved; [|exact Ho]. by intros v.
Qed.

Lemma auto_analyze_keeps_fed json_loads file llm video_url o d' :
  auto_analyze_video_with_llm L json_loads file llm video_url = Ok o →
  saved o = Some d' →
  playlists_rel fed_kept (playlists (load_data file)) (playlists d').
Proof.
  unfold auto_analyze_video_with_llm.
  destruct (normalize_youtube_url L video_url) as [u|e];
    rewrite ?bind_Ok, ?bind_Raise; [|done].
  rewrite bool_decide_eq_false_2 by done.
  destruct (update_first (has_url u) (fun v => v) _) as [[[pl w] pls]|];
    [|by intros [= <-]].
  destruct (urlparse L u) as [p|e]; rewrite ?bind_Ok, ?bind_Raise; [|done].
  destruct (first_value L "v" (query p)) as [[[|c id]|]|e];
    rewrite ?bind_Ok, ?bind_Raise; [by intros [= <-]| |by intros [= <-]|done].
  destruct llm as [llm_output|]; [|by intros [= <-]].
  destruct (json_loads (strip_fence llm_output)) as [[sm rt ap|]|];
    [|by intros [= <-]..].
  intros Ho. eapply scan_saved; [|exact Ho]. by intros v.
Qed.

Lemma mark_fed_keeps_fed msg file video_url o d' :
  mark_fed L msg file video_url = Ok o → saved o = Some d' →
  playlists_rel fed_kept (playlists (load_data file)) (playlists d').
Proof.
  unfold mark_fed.
  destruct (normalize_youtube_url L video_url) as [u|e];
    rewrite ?bind_Ok, ?bind_Raise; [|done].
  intros Ho. eapply scan_saved; [|exact Ho]. by intros v.
Qed.

Lemma get_next_video_keeps_fed limit today file o d' :
  get_next_video_limit L limit today file = Ok o → saved o = Some d' →
  playlists_rel fed_step (playlists (load_data file)) (playlists d').
Proof.
  unfold get_next_video_limit.
  destruct (already_fed_today L today (load_data file)) as [[|]|e];
    rewrite ?bind_Ok, ?bind_Raise; [by intros [= <-]| |done].
  destruct (unfed_videos (playlists (load_data file))) as [|c cs] eqn:Hunfed;
    [by intros [= <-]|].
  destruct (sorted_unfed_videos L (load_data file)) as [l|e] eqn:Hl;
    rewrite ?bind_Ok, ?bind_Raise; [|done].
  destruct (sorted_unfed_videos_spec L _ _ Hl) as [Hperm _].
  intros [= <-]. simpl. intros [= <-]. simpl.
  apply (feed_loop_spec limit l
           {| feed_playlists := playlists (load_data file);
              fed_count_today := 0; feed_printed := [] |});
    simpl; [by rewrite Hperm|lia].
Qed.

End Monotone.

(** C8.  No command sets a fed flag back to false.  [add] appends a
    playlist and leaves the stored ones as they are; [analyze],
    [auto_analyze], [watch], [skip] and [next] keep the shape of the
    document, and a record that was fed is still fed (with the same URL)
    at its place; [sync] keeps the fed flag of every local record, and
    stores local records and newly fetched videos only. *)
Theorem fed_is_monotonic (L : Library)
    (json_loads : string → option JsonAnalysis) (file : option Document) :
  (∀ youtube now purl o d',
     add_playlist L file youtube now purl = Ok o → saved o = Some d' →
     ∃ entry, playlists d' = playlists (load_data file) ++ [entry])
  ∧ (∀ youtube purl o d',
       sync_playlist L file youtube purl = Ok o → saved o = Some d' →
       sync_keeps_fed (playlists (load_data file)) (playlists d'))
  ∧ (∀ video_url summary rating points o d',
       analyze_video L file video_url summary rating points = Ok o →
       saved o = Some d' →
       playlists_rel fed_kept (playlists (load_data file)) (playlists d'))
  ∧ (∀ llm video_url o d',
       auto_analyze_video_with_llm L json_loads file llm video_url = Ok o →
       saved o = Some d' →
       playlists_rel fed_kept (playlists (load_data file)) (playlists d'))
  ∧ (∀ video_url o d',
       mark_video_watched L file video_url = Ok o → saved o = Some d' →
       playlists_rel fed_kept (playlists (load_data file)) (playlists d'))
  ∧ (∀ video_url o d',
       skip_video L file video_url = Ok o → saved o = Some d' →
       playlists_rel fed_kept (playlists (load_data file)) (playlists d'))
  ∧ (∀ limit today o d',
       get_next_video_limit L limit today file = Ok o → saved o = Some d' →
       playlists_rel fed_kept (playlists (load_data file)) (playlists d')).
Proof.
  repeat split.
  - intros youtube now purl o d' Ho Hs. by eapply add_playlist_saved.
  - intros youtube purl o d' Ho Hs. by eapply sync_playlist_keeps_fed.
  - intros video_url s r a o d' Ho Hs. by eapply analyze_video_keeps_fed.
  - intros llm video_url o d' Ho Hs. by eapply auto_analyze_keeps_fed.
  - intros video_url o d' Ho Hs. by eapply mark_fed_keeps_fed.
  - intros video_url o d' Ho Hs. by eapply mark_fed_keeps_fed.
  - intros limit today o d' Ho Hs.
    eapply playlists_rel_impl; [apply fed_step_kept|].
    by eapply get_next_video_keeps_fed.
Qed.

Lemma fed_is_monotonic_witness :
  (∃ o d', mark_video_watched Sample.library (Some Sample.tracked)
             "https://youtu.be/bbb" = Ok o
           ∧ saved o = Some d'
           ∧ playlists_rel fed_kept (playlists Sample.tracked) (playlists d'))
  ∧ (∃ o d', sync_playlist Sample.library (Some Sample.tracked) Sample.youtube
               "https://www.youtube.com/playlist?list=PL1" = Ok o
             ∧ saved o = Some d'
             ∧ sync_keeps_fed (playlists Sample.tracked) (playlists d'))
  ∧ (∃ o d', get_next_video Sample.library (Date 2024 3 7) (Some Sample.tracked) = Ok o
             ∧ saved o = Some d'
             ∧ playlists_rel fed_kept (playlists Sample.tracked) (playlists d')).
Proof.
  destruct (fed_is_monotonic Sample.library Sample.json_loads (Some Sample.tracked))
    as (_ & Hsync & _ & _ & Hwatch & _ & Hnext).
  split; [|split].
  - eexists _, _. split; [reflexivity|]. split; [reflexivity|].
    eapply (Hwatch "https://youtu.be/bbb"%string); reflexivity.
  - eexists _, _. split; [reflexivity|]. split; [reflexivity|].
    eapply (Hsync Sample.youtube
              "https://www.youtube.com/playlist?list=PL1"%string); reflexivity.
  - eexists _, _. split; [reflexivity|]. split; [reflexivity|].
    eapply (Hnext DAILY_VIDEO_LIMIT (Date 2024 3 7)); reflexivity.
Defined.

(** ** Descriptions, batches and the records of a fetch *)

(** X1.  [clean_description] returns a text of the same length that
    holds no line feed and no carriage return; cleaning a second time
    changes nothing, and a text that holds neither character comes back as
    it is. *)
Theorem clean_description_flat (s : string) :
  Str.mem "010" (clean_description s) = false
  ∧ Str.mem "013" (clean_description s) = false
  ∧ String.length (clean_description s) = String.length s
  ∧ clean_description (clean_description s) = clean_description s
  ∧ (Str.mem "010" s = false → Str.mem "013" s = false → clean_description s = s).
Proof.
  unfold clean_description. induction s as [|c s (IH1 & IH2 & IH3 & IH4 & IH5)].
  - by repeat split.
  - simpl.
    destruct (Ascii.eqb_spec c "010") as [->|Hlf]; simpl.
    + rewrite IH1, IH2, IH3, IH4. repeat split; try done.
    + destruct (Ascii.eqb_spec c "013") as [->|Hcr]; simpl.
      * rewrite IH1, IH2, IH3, IH4. repeat split; try done.
      * apply Ascii.eqb_neq in Hlf, Hcr.
        rewrite Hlf, Hcr, IH1, IH2, IH3, IH4. simpl.
        repeat split; try done.
        intros H1 H2. by rewrite IH5.
Qed.

Lemma batches_fuel_partition {A} (fuel n : nat) (l : list A) :
  (0 < n)%nat → (length l ≤ fuel)%nat →
  concat (batches_fuel fuel n l) = l
  ∧ Forall (fun b => (0 < length b ≤ n)%nat) (batches_fuel fuel n l).
Proof.
  intros Hn. revert l. induction fuel as [|fuel IH]; intros l Hl.
  - destruct l; [by split|simpl in Hl; lia].
  - destruct l as [|x l]; [by split|].
    change (batches_fuel (S fuel) n (x :: l))
      with (take n (x :: l) :: batches_fuel fuel n (drop n (x :: l))).
    destruct (IH (drop n (x :: l))) as [Hc Hf].
    { rewrite length_drop. simpl in *. lia. }
    split.
    + simpl concat. rewrite Hc. apply take_drop.
    + constructor; [|done]. rewrite length_take. simpl. lia.
Qed.

(** X2.  The slices [l[i:i+n]] for [i] in [range(0, len(l), n)], as
    [get_playlist_items] cuts the video ids with [n = 50]: put end to end
    they give the list back, and each of them holds at least one and at
    most [n] elements. *)
Theorem batches_partition {A} (n : nat) (l : list A) :
  (0 < n)%nat →
  concat (batches n l) = l
  ∧ Forall (fun b => (0 < length b ≤ n)%nat) (batches n l).
Proof. intros Hn. by apply batches_fuel_partition. Qed.

Lemma batches_partition_witness :
  concat (batches 50 (replicate 120 "id"%string)) = replicate 120 "id"%string
  ∧ Forall (fun b => (0 < length b ≤ 50)%nat) (batches 50 (replicate 120 "id"%string)).
Proof. apply (batches_partition 50 (replicate 120 "id"%string)). lia. Defined.

Section FetchTotal.
Variable L : Library.

(** [urlparse] on the watch URL of any identifier: the identifier, however
    odd, never reaches the scheme, the host or the path. *)
Lemma urlparse_watch_any (id : string) :
  ∃ q f, urlparse L ("https://www.youtube.com/watch?v=" +:+ id)
         = Ok {| scheme := "https"; netloc := "www.youtube.com"; path := "/watch";
                 params := ""; query := q; fragment := f |}.
Proof.
  unfold urlparse, urlsplit. cbv [String.append]. simpl.
  generalize (Str.remove "010" (Str.remove "013" (Str.remove "009" id))).
  intros t. destruct (Str.cut "#" t) as [[a b]|]; simpl; by eauto.
Qed.

Lemma normalize_watch_any (id : string) :
  ∃ u, normalize_youtube_url L ("https://www.youtube.com/watch?v=" +:+ id) = Ok u.
Proof.
  unfold normalize_youtube_url.
  destruct (urlparse_watch_any id) as (q & f & ->). rewrite bind_Ok.
  rewrite bool_decide_eq_true_2 by (simpl; set_solver).
  rewrite bool_decide_eq_true_2 by done.
  simpl query. destruct (first_value_returns L "v" q) as [[v|] ->]; rewrite bind_Ok.
  - destruct (Str.nonempty v); by eauto.
  - by eauto.
Qed.

Lemma video_of_item_returns (item : ApiItem) :
  ∃ u, video_of_item L item
       = Ok {| url := u;
               publishedAt := item_publishedAt item;
               title := item_title item;
               description := clean_description (item_description item);
               fed := false; summary := None; usefulness_rating := None;
               actionable_points := None |}.
Proof.
  unfold video_of_item.
  destruct (normalize_watch_any (item_id item)) as [u ->]. by exists u.
Qed.

Lemma videos_of_items_returns (items : list ApiItem) :
  ∃ vs, videos_of_items L items = Ok vs ∧ length vs = length items.
Proof.
  induction items as [|item items (vs & IH & Hlen)]; simpl; [by eauto|].
  destruct (video_of_item_returns item) as [u ->]. rewrite bind_Ok, IH, bind_Ok.
  eexists. split; [done|]. simpl. by rewrite Hlen.
Qed.

Lemma fetch_batches_never_raises youtube bs e :
  fetch_batches L youtube bs ≠ inl (Raised e).
Proof.
  induction bs as [|b bs IH]; simpl; [done|].
  destruct (videos_list youtube b) as [e'|items]; [done|].
  destruct (videos_of_items_returns items) as (vs & -> & _).
  destruct (fetch_batches L youtube bs) as [[e'|e']|vs']; [done| |done].
  intros [= ->]. done.
Qed.

End FetchTotal.

(** X3.  Whatever the API answers, every item of a [videos().list]
    response becomes a record: not fed, without analysis, with the
    published date and title of the item and its description cleaned.  A
    fetch therefore fails only on a failed API request, never on an
    exception of the program's own code. *)
Theorem get_playlist_items_never_raises (L : Library) (youtube : YouTube) :
  (∀ item, ∃ v, video_of_item L item = Ok v ∧ is_fresh v
                ∧ publishedAt v = item_publishedAt item
                ∧ title v = item_title item
                ∧ description v = clean_description (item_description item))
  ∧ (∀ e, get_playlist_items L youtube ≠ inl (Raised e)).
Proof.
  split.
  - intros item. destruct (video_of_item_returns L item) as [u ->].
    eexists. split; [done|]. by repeat split.
  - intros e. unfold get_playlist_items.
    destruct (playlist_pages youtube); [done|]. apply fetch_batches_never_raises.
Qed.

(** X4.  The record built for an item whose id is a video identifier
    has the canonical watch URL of that id, and this URL is a fixed point of
    the normalizer, so the commands that look a video up by its normalized
    URL find it. *)
Theorem video_of_item_canonical (L : Library) (item : ApiItem) :
  is_video_id (item_id item) = true →
  ∃ v, video_of_item L item = Ok v ∧ url v = canonical (item_id item)
       ∧ normalize_youtube_url L (url v) = Ok (url v).
Proof.
  intros Hid. unfold video_of_item.
  rewrite (normalize_watch L _ Hid), bind_Ok. eexists. split; [done|].
  simpl. split; [done|]. by apply normalize_watch.
Qed.

(** ** Adding a playlist *)

Lemma dict_get_set_ne {V} k k' (v : V) d :
  k' ≠ k → dict_get k' (dict_set k v d) = dict_get k' d.
Proof.
  intros Hne. induction d as [|[k0 v0] d IH]; simpl.
  - by rewrite bool_decide_eq_false_2.
  - case_bool_decide as H0; simpl.
    + subst k0. by rewrite !bool_decide_eq_false_2.
    + by rewrite IH.
Qed.

Section Add.
Variable L : Library.

Lemma add_playlist_inv file youtube now purl o d' :
  add_playlist L file youtube now purl = Ok o → saved o = Some d' →
  ∃ pid vs,
    get_playlist_id L purl = Ok (Some pid) ∧ Str.nonempty pid = true
    ∧ dict_get pid (playlists (load_data file)) = None
    ∧ get_playlist_items L youtube = inr vs ∧ vs ≠ []
    ∧ d' = {| playlists :=
                dict_set pid {| playlist_url := purl; videos := vs;
                                added_date := now |}
                         (playlists (load_data file));
              last_fed_date := last_fed_date (load_data file) |}
    ∧ printed o = [Fetching purl; Added purl (length vs)].
Proof.
  unfold add_playlist. rewrite bool_decide_eq_false_2 by done.
  destruct (get_playlist_id L purl) as [[pid|]|e]; rewrite ?bind_Ok, ?bind_Raise;
    [| by intros [= <-] | done].
  destruct pid as [|c pid]; [by intros [= <-]|].
  destruct (dict_get _ (playlists (load_data file))) as [pl|] eqn:Hpl;
    [by intros [= <-]|].
  destruct (get_playlist_items L youtube) as [e|[|y ys]]; [by intros [= <-]..|].
  intros [= <-]. simpl. intros [= <-].
  by exists (String c pid), (y :: ys).
Qed.

Lemma add_playlist_runs file youtube now purl pid vs :
  get_playlist_id L purl = Ok (Some pid) → Str.nonempty pid = true →
  dict_get pid (playlists (load_data file)) = None →
  get_playlist_items L youtube = inr vs → vs ≠ [] →
  add_playlist L file youtube now purl
  = Ok {| saved :=
            Some {| playlists :=
                      dict_set pid {| playlist_url := purl; videos := vs;
                                      added_date := now |}
                               (playlists (load_data file));
                    last_fed_date := last_fed_date (load_data file) |};
          printed := [Fetching purl; Added purl (length vs)] |}.
Proof.
  intros Hid Hne Hnew Hfetch Hvs. unfold add_playlist.
  rewrite bool_decide_eq_false_2 by done.
  rewrite Hid, bind_Ok. destruct pid as [|c pid]; [done|].
  rewrite Hnew, Hfetch. by destruct vs.
Qed.

End Add.

(** X5.  Adding a playlist whose URL carries a non-empty id that is
    not tracked yet, with a fetch that returns at least one video, saves a
    document in which that id maps to the given URL, the fetched videos and
    the current time; every other playlist and [last_fed_date] are as
    before, every stored video is unfed and without analysis, and the two
    messages printed give the URL and the number of videos. *)
Theorem add_playlist_tracks (L : Library) (file : option Document)
    (youtube : YouTube) (now purl pid : string) (vs : list VideoRecord) :
  get_playlist_id L purl = Ok (Some pid) → Str.nonempty pid = true →
  dict_get pid (playlists (load_data file)) = None →
  get_playlist_items L youtube = inr vs → vs ≠ [] →
  ∃ o d',
    add_playlist L file youtube now purl = Ok o
    ∧ saved o = Some d'
    ∧ printed o = [Fetching purl; Added purl (length vs)]
    ∧ dict_get pid (playlists d')
      = Some {| playlist_url := purl; videos := vs; added_date := now |}
    ∧ (∀ k, k ≠ pid → dict_get k (playlists d')
                      = dict_get k (playlists (load_data file)))
    ∧ last_fed_date d' = last_fed_date (load_data file)
    ∧ Forall is_fresh vs.
Proof.
  intros Hid Hne Hnew Hfetch Hvs.
  eexists _, _. split; [by eapply add_playlist_runs|].
  split; [done|]. split; [done|]. simpl.
  split; [apply dict_get_set|].
  split; [by intros k Hk; apply dict_get_set_ne|].
  split; [done|]. by eapply get_playlist_items_fresh.
Qed.

Lemma add_playlist_tracks_witness :
  ∃ vs,
    get_playlist_items Sample.library Sample.youtube = inr vs
    ∧ ∃ o d',
        add_playlist Sample.library (Some Sample.rated) Sample.youtube
          "2024-03-01T10:00:00" "https://www.youtube.com/playlist?list=PL9" = Ok o
        ∧ saved o = Some d'
        ∧ printed o = [Fetching "https://www.youtube.com/playlist?list=PL9";
                       Added "https://www.youtube.com/playlist?list=PL9" (length vs)]
        ∧ dict_get "PL9" (playlists d')
          = Some {| playlist_url := "https://www.youtube.com/playlist?list=PL9";
                    videos := vs; added_date := "2024-03-01T10:00:00" |}
        ∧ (∀ k, k ≠ "PL9"%string →
                dict_get k (playlists d')
                = dict_get k (playlists (load_data (Some Sample.rated))))
        ∧ last_fed_date d' = last_fed_date (load_data (Some Sample.rated))
        ∧ Forall is_fresh vs.
Proof.
  eexists. split; [reflexivity|].
  apply (add_playlist_tracks Sample.library (Some Sample.rated) Sample.youtube
           "2024-03-01T10:00:00" "https://www.youtube.com/playlist?list=PL9" "PL9");
    try reflexivity.
  discriminate.
Defined.

(** X6.  [add] writes the data file only when the URL carries a
    playlist id that is not tracked and the fetch returns at least one
    video.  A failed fetch, an empty fetch and a URL without playlist id
    leave the file unwritten; the last one prints the error that names the
    URL. *)
Theorem add_playlist_saves_only_new (L : Library) (file : option Document)
    (youtube : YouTube) (now purl : string) (o : Outcome) :
  add_playlist L file youtube now purl = Ok o →
  (∀ d', saved o = Some d' →
     ∃ pid vs,
       get_playlist_id L purl = Ok (Some pid)
       ∧ dict_get pid (playlists (load_data file)) = None
       ∧ get_playlist_items L youtube = inr vs ∧ vs ≠ [])
  ∧ ((∃ e, get_playlist_items L youtube = inl e) → saved o = None)
  ∧ (get_playlist_items L youtube = inr [] → saved o = None)
  ∧ (get_playlist_id L purl = Ok None → printed o = [ErrNoPlaylistId purl]
                                        ∧ saved o = None).
Proof.
  intros Ho. split; [|split; [|split]].
  - intros d' Hd'.
    destruct (add_playlist_inv L _ _ _ _ _ _ Ho Hd')
      as (pid & vs & ? & ? & ? & ? & ? & _). by exists pid, vs.
  - intros [e He]. destruct (saved o) as [d'|] eqn:Hd'; [|done].
    destruct (add_playlist_inv L _ _ _ _ _ _ Ho Hd')
      as (pid & vs & _ & _ & _ & Hf & _). congruence.
  - intros He. destruct (saved o) as [d'|] eqn:Hd'; [|done].
    destruct (add_playlist_inv L _ _ _ _ _ _ Ho Hd')
      as (pid & vs & _ & _ & _ & Hf & Hvs & _). congruence.
  - intros Hnone. revert Ho. unfold add_playlist.
    rewrite bool_decide_eq_false_2 by done. rewrite Hnone, bind_Ok.
    by intros [= <-].
Qed.

(** X7.  Once [add] has saved a playlist, adding the same URL again is
    refused with the already-tracked message and writes nothing, whatever
    the API would answer and whatever the time is. *)
Theorem add_playlist_twice (L : Library) (file : option Document)
    (youtube youtube' : YouTube) (now now' purl : string) (o : Outcome)
    (d' : Document) :
  add_playlist L file youtube now purl = Ok o → saved o = Some d' →
  add_playlist L (Some d') youtube' now' purl
  = Ok (no_save [ErrAlreadyTracked purl]).
Proof.
  intros Ho Hd'.
  destruct (add_playlist_inv L _ _ _ _ _ _ Ho Hd')
    as (pid & vs & Hid & Hne & _ & _ & _ & -> & _).
  unfold add_playlist. rewrite bool_decide_eq_false_2 by done.
  rewrite Hid, bind_Ok. destruct pid as [|c pid]; [done|].
  simpl load_data. simpl playlists. by rewrite dict_get_set.
Qed.

(** ** More on the sync *)

Lemma merge_count index st ys :
  new_videos_count (foldl (merge_step index) st ys)
  = (new_videos_count st
     + length (filter (fun y => index !! url y = None) ys))%nat.
Proof.
  revert st. induction ys as [|y ys IH]; intros st; simpl; [lia|].
  rewrite IH. unfold merge_step.
  destruct (index !! url y) as [i|] eqn:Hi; simpl.
  - rewrite filter_cons_False by (by rewrite Hi). done.
  - rewrite filter_cons_True by done. simpl. lia.
Qed.

Lemma merge_new_videos_count local ys :
  new_videos_count (merge local ys)
  = length (filter (fun y => url y ∉ url <$> local) ys).
Proof.
  unfold merge. rewrite merge_count. simpl. f_equal.
  apply list_filter_iff. intros y. apply local_video_urls_None.
Qed.

Lemma record_eq (a b : VideoRecord) :
  same_but_metadata a b → same_metadata a b → a = b.
Proof.
  destruct a, b. unfold same_but_metadata, same_metadata. simpl.
  intros (-> & -> & -> & -> & ->) (-> & -> & ->). done.
Qed.

Lemma local_video_urls_NoDup vs i e :
  NoDup (url <$> vs) → vs !! i = Some e → local_video_urls vs !! url e = Some i.
Proof.
  intros Hnd He.
  destruct (local_video_urls_is_Some vs (url e)) as (k & e' & Hk & He' & Hu).
  { apply list_elem_of_fmap. exists e. split; [done|]. by eapply list_elem_of_lookup_2. }
  rewrite Hk. f_equal.
  eapply NoDup_lookup; [exact Hnd| |]; rewrite list_lookup_fmap.
  - by rewrite He'; simpl; rewrite Hu.
  - by rewrite He.
Qed.

(** Merging a fetch without repeated URLs into a list that already holds
    it changes nothing. *)
Lemma merged_videos_fixed A ys :
  NoDup (url <$> ys) → url <$> A = url <$> ys →
  (∀ j yt a, ys !! j = Some yt → A !! j = Some a → same_metadata yt a) →
  merged_videos A ys = A.
Proof.
  intros Hnd Hurls Hmeta. apply list_eq. intros j.
  destruct (ys !! j) as [yt|] eqn:Hj.
  - assert (∃ a, A !! j = Some a ∧ url a = url yt) as (a & Ha & Hua).
    { assert ((url <$> A) !! j = Some (url yt)) as Hl
        by (by rewrite Hurls, list_lookup_fmap, Hj).
      rewrite list_lookup_fmap in Hl. destruct (A !! j) as [a|]; [|done].
      injection Hl as Hl. by exists a. }
    destruct (merged_existing A ys j yt Hj) as (i & e & v & Hi & He & Hue & Hv & Hsame & Hlast & _).
    { rewrite Hurls. apply list_elem_of_fmap. exists yt. split; [done|].
      by eapply list_elem_of_lookup_2. }
    rewrite <- Hurls in Hnd.
    assert (i = j) as ->.
    { pose proof (local_video_urls_NoDup A j a Hnd Ha) as Hj'.
      rewrite Hua in Hj'. congruence. }
    assert (e = a) as -> by congruence.
    rewrite Hv, Ha. f_equal. symmetry. apply record_eq; [done|].
    destruct (Hmeta j yt a Hj Ha) as (Hp & Ht & Hd).
    destruct Hlast as (Hp' & Ht' & Hd').
    { intros k y Hjk Hk Huy. rewrite Hurls in Hnd.
      assert (j = k); [|lia].
      eapply NoDup_lookup; [exact Hnd| |]; rewrite list_lookup_fmap.
      - by rewrite Hj.
      - by rewrite Hk; simpl; rewrite Huy. }
    repeat split; congruence.
  - rewrite !lookup_ge_None_2; [done| |].
    + rewrite <- (length_fmap url A), Hurls, length_fmap. by apply lookup_ge_None_1.
    + rewrite merged_videos_length. by apply lookup_ge_None_1.
Qed.

Lemma merged_videos_metadata local ys :
  NoDup (url <$> ys) →
  ∀ j yt a, ys !! j = Some yt → merged_videos local ys !! j = Some a →
            same_metadata yt a.
Proof.
  intros Hnd j yt a Hj Ha.
  destruct (decide (url yt ∈ url <$> local)) as [Hin|Hnew].
  - destruct (merged_existing local ys j yt Hj Hin)
      as (i & e & v & _ & _ & _ & Hv & _ & Hlast & _).
    rewrite Hv in Ha. injection Ha as <-. apply Hlast.
    intros k y Hjk Hk Huy. assert (j = k); [|lia].
    eapply NoDup_lookup; [exact Hnd| |]; rewrite list_lookup_fmap.
    + by rewrite Hj.
    + by rewrite Hk; simpl; rewrite Huy.
  - rewrite (merged_new local ys j yt Hj Hnew) in Ha. injection Ha as <-.
    by repeat split.
Qed.

Lemma merged_videos_idempotent local ys :
  NoDup (url <$> ys) →
  merged_videos (merged_videos local ys) ys = merged_videos local ys.
Proof.
  intros Hnd. apply merged_videos_fixed; [done|apply merged_videos_urls|].
  by apply merged_videos_metadata.
Qed.

Lemma dict_set_set {V} k (v w : V) d :
  dict_set k w (dict_set k v d) = dict_set k w d.
Proof.
  induction d as [|[k0 v0] d IH]; simpl.
  - by rewrite bool_decide_eq_true_2.
  - case_bool_decide as H0; simpl.
    + by rewrite bool_decide_eq_true_2.
    + by rewrite bool_decide_eq_false_2, IH.
Qed.


(** ** The scan, characterised *)

Lemma update_first_video_first p f vs w vs' :
  update_first_video p f vs = Some (w, vs') ↔
  ∃ pre post, vs = pre ++ w :: post ∧ vs' = pre ++ f w :: post ∧ p w = true
              ∧ ∀ v, v ∈ pre → p v = false.
Proof.
  revert vs'. induction vs as [|v vs IH]; intros vs'; simpl.
  - split; [done|]. intros (pre & post & Hnil & _). by destruct pre.
  - destruct (p v) eqn:Hpv.
    + split.
      * intros [= <- <-]. exists [], vs. repeat split; try done.
        intros x Hx. by apply elem_of_nil in Hx.
      * intros ([|x pre] & post & Heq & -> & Hw & Hpre).
        -- simpl in Heq. by injection Heq as <- <-.
        -- simpl in Heq. injection Heq as <- ->.
           specialize (Hpre v (list_elem_of_here _ _)). congruence.
    + split.
      * destruct (update_first_video p f vs) as [[w' vs'']|] eqn:Hrec; [|done].
        intros [= <- <-].
        destruct (proj1 (IH vs'') eq_refl) as (pre & post & -> & -> & Hw & Hpre).
        exists (v :: pre), post. repeat split; try done.
        intros x [->|Hx]%elem_of_cons; [done|by apply Hpre].
      * intros ([|x pre] & post & Heq & -> & Hw & Hpre).
        -- simpl in Heq. injection Heq as -> ->. congruence.
        -- simpl in Heq. injection Heq as <- ->.
           rewrite (proj2 (IH (pre ++ f w :: post))); [done|].
           exists pre, post. repeat split; try done.
           intros y Hy. apply Hpre. by apply list_elem_of_further.
Qed.

Lemma update_first_first p f pls pl w pls' :
  update_first p f pls = Some (pl, w, pls') ↔
  ∃ pre pid post vpre vpost,
    first_match p pls pre pid pl post vpre w vpost
    ∧ pls' = with_match f pre pid pl post vpre w vpost.
Proof.
  unfold first_match, with_match.
  revert pls'. induction pls as [|[pid0 pl0] pls IH]; intros pls'; simpl.
  - split; [done|]. intros (pre & ? & ? & ? & ? & (Hnil & _) & _). by destruct pre.
  - destruct (update_first_video p f (videos pl0)) as [[w0 vs0]|] eqn:H0.
    + apply update_first_video_first in H0 as (vpre & vpost & Hv & -> & Hw & Hvpre).
      split.
      * intros [= <- <- <-]. exists [], pid0, pls, vpre, vpost.
        repeat split; try done. intros q v Hq. by apply elem_of_nil in Hq.
      * intros ([|q pre] & pid & post & vpre' & vpost' & (Heq & Hv' & Hw' & Hpre & Hvpre') & ->).
        -- simpl in Heq. injection Heq as <- <- <-.
           assert (update_first_video p f (videos pl0)
                   = Some (w0, vpre ++ f w0 :: vpost)) as H1
             by (apply update_first_video_first; by exists vpre, vpost).
           assert (update_first_video p f (videos pl0)
                   = Some (w, vpre' ++ f w :: vpost')) as H2
             by (apply update_first_video_first; by exists vpre', vpost').
           rewrite H1 in H2. by injection H2 as -> ->.
        -- simpl in Heq. injection Heq as <- ->.
           assert (p w0 = false); [|congruence].
           apply (Hpre (pid0, pl0) w0); [apply list_elem_of_here|].
           simpl. rewrite Hv. apply elem_of_app. right. apply list_elem_of_here.
    + assert (∀ v, v ∈ videos pl0 → p v = false) as Hnone
        by (by apply (update_first_video_None p f)).
      split.
      * destruct (update_first p f pls) as [[[pl1 w1] pls1]|] eqn:Hrec; [|done].
        intros [= <- <- <-].
        destruct (proj1 (IH pls1) eq_refl)
          as (pre & pid & post & vpre & vpost & (-> & Hv & Hw & Hpre & Hvpre) & ->).
        exists ((pid0, pl0) :: pre), pid, post, vpre, vpost.
        repeat split; try done.
        intros q v [->|Hq]%elem_of_cons Hvq; [by apply Hnone|by eapply Hpre].
      * intros ([|q pre] & pid & post & vpre & vpost & (Heq & Hv & Hw & Hpre & Hvpre) & ->).
        -- simpl in Heq. injection Heq as <- <- <-.
           assert (p w = false); [|congruence].
           apply Hnone. rewrite Hv. apply elem_of_app. right. apply list_elem_of_here.
        -- simpl in Heq. injection Heq as <- ->.
           rewrite (proj2 (IH (pre ++ (pid, set_videos (vpre ++ f w :: vpost) pl) :: post)));
             [done|].
           exists pre, pid, post, vpre, vpost. repeat split; try done.
           intros q' v Hq'. apply Hpre. by apply list_elem_of_further.
Qed.

Lemma update_first_is_Some p f pls :
  (∃ pid pl v, (pid, pl) ∈ pls ∧ v ∈ videos pl ∧ p v = true) →
  ∃ pl w pls', update_first p f pls = Some (pl, w, pls').
Proof.
  intros (pid & pl & v & Hin & Hv & Hp).
  destruct (update_first p f pls) as [[[pl' w] pls']|] eqn:Hscan; [by eauto|].
  assert (p v = false); [|congruence].
  by eapply (proj1 (update_first_None _ _ _) Hscan).
Qed.

Lemma tracked_scan u f pls :
  is_tracked u pls →
  ∃ pre pid pl post vpre w vpost,
    first_match (has_url u) pls pre pid pl post vpre w vpost
    ∧ update_first (has_url u) f pls
      = Some (pl, w, with_match f pre pid pl post vpre w vpost).
Proof.
  intros (pid & pl & v & Hin & Hv & Hu).
  destruct (update_first_is_Some (has_url u) f pls) as (pl' & w & pls' & Hscan).
  { exists pid, pl, v. unfold has_url. by rewrite bool_decide_eq_true_2. }
  destruct (proj1 (update_first_first _ _ _ _ _ _) Hscan)
    as (pre & pid' & post & vpre & vpost & Hfirst & ->).
  exists pre, pid', pl', post, vpre, w, vpost. by split.
Qed.

(** ** Analysis, watch and skip on a tracked video *)

(** X8.  On a tracked video, [analyze] writes the summary, the rating
    and the parsed points to the first record, in playlist order and then
    video order, whose URL is the normalized one; it saves the document with
    that one record replaced, leaves [last_fed_date] alone and prints the
    confirmation.  The rating is stored unchecked: one that is not a known
    name gives the record the last rank of the feed order, 6. *)
Theorem analyze_video_writes (L : Library) (file : option Document)
    (video_url u summary rating points : string) :
  normalize_youtube_url L video_url = Ok u →
  is_tracked u (playlists (load_data file)) →
  ∃ pre pid pl post vpre w vpost,
    first_match (has_url u) (playlists (load_data file))
                pre pid pl post vpre w vpost
    ∧ analyze_video L file video_url summary rating points
      = Ok {| saved :=
                Some {| playlists :=
                          with_match (set_analysis summary rating
                                                   (parse_points points))
                                     pre pid pl post vpre w vpost;
                        last_fed_date := last_fed_date (load_data file) |};
              printed := [AnalysisSaved u] |}
    ∧ (rating ∉ rating_names →
       usefulness_rank (set_analysis summary rating (parse_points points) w) = 6).
Proof.
  intros Hu Htracked.
  destruct (tracked_scan u (set_analysis summary rating (parse_points points))
              _ Htracked)
    as (pre & pid & pl & post & vpre & w & vpost & Hfirst & Hscan).
  exists pre, pid, pl, post, vpre, w, vpost. split; [done|]. split.
  - unfold analyze_video. by rewrite Hu, bind_Ok, Hscan.
  - intros Hr. unfold usefulness_rank. simpl. by apply rating_rank_other.
Qed.

Lemma first_match_after (f : VideoRecord → VideoRecord) u pls pre pid pl post vpre w vpost :
  (∀ v, url (f v) = url v) →
  first_match (has_url u) pls pre pid pl post vpre w vpost →
  first_match (has_url u) (with_match f pre pid pl post vpre w vpost)
              pre pid (set_videos (vpre ++ f w :: vpost) pl) post vpre (f w) vpost.
Proof.
  intros Hf (-> & Hv & Hw & Hpre & Hvpre). repeat split; try done.
  unfold has_url in *. by rewrite Hf.
Qed.

(** X9.  On a tracked video, [watch] and [skip] save the same
    document: the one in which the first record with the normalized URL has
    [fed] set, everything else and [last_fed_date] unchanged.  They differ
    in the message only, and watching again saves that same document. *)
Theorem watch_and_skip_mark_fed (L : Library) (file : option Document)
    (video_url u : string) :
  normalize_youtube_url L video_url = Ok u →
  is_tracked u (playlists (load_data file)) →
  ∃ pre pid pl post vpre w vpost d',
    first_match (has_url u) (playlists (load_data file))
                pre pid pl post vpre w vpost
    ∧ d' = {| playlists := with_match set_fed pre pid pl post vpre w vpost;
              last_fed_date := last_fed_date (load_data file) |}
    ∧ mark_video_watched L file video_url
      = Ok {| saved := Some d'; printed := [MarkedWatched u] |}
    ∧ skip_video L file video_url
      = Ok {| saved := Some d'; printed := [Skipped u] |}
    ∧ mark_video_watched L (Some d') video_url
      = Ok {| saved := Some d'; printed := [MarkedWatched u] |}.
Proof.
  intros Hu Htracked.
  destruct (tracked_scan u set_fed _ Htracked)
    as (pre & pid & pl & post & vpre & w & vpost & Hfirst & Hscan).
  eexists pre, pid, pl, post, vpre, w, vpost, _.
  split; [done|]. split; [done|].
  unfold mark_video_watched, skip_video, mark_fed.
  rewrite Hu, !bind_Ok, Hscan. split; [done|]. split; [done|].
  simpl load_data. simpl playlists. simpl last_fed_date.
  assert (update_first (has_url u) set_fed
            (with_match set_fed pre pid pl post vpre w vpost)
          = Some (set_videos (vpre ++ set_fed w :: vpost) pl, set_fed w,
                  with_match set_fed pre pid
                    (set_videos (vpre ++ set_fed w :: vpost) pl) post vpre
                    (set_fed w) vpost)) as ->.
  { apply update_first_first. eexists pre, pid, post, vpre, vpost.
    split; [|done]. eapply first_match_after; [done|exact Hfirst]. }
  done.
Qed.



(** X11.  On a tracked video with a video identifier,
    [auto_analyze] has four outcomes.  A failed call of the model, and an
    answer that is JSON but no object, print the error and write nothing;
    an answer that is no JSON prints the JSON error and writes nothing; a
    JSON object is stored on the first record with the normalized URL, a
    missing summary as the empty text, a missing rating as [unknown] and
    missing points as the empty list. *)
Theorem auto_analyze_outcomes (L : Library)
    (json_loads : string → option JsonAnalysis) (file : option Document)
    (llm : LlmReply) (video_url id : string) :
  is_video_id id = true →
  normalize_youtube_url L video_url = Ok (canonical id) →
  is_tracked (canonical id) (playlists (load_data file)) →
  ∃ pre pid pl post vpre w vpost,
    first_match (has_url (canonical id)) (playlists (load_data file))
                pre pid pl post vpre w vpost
    ∧ auto_analyze_video_with_llm L json_loads file llm video_url
      = Ok match llm with
           | LlmFailed =>
               no_save [AutoAnalyzing (canonical id); ErrLlm (canonical id)]
           | LlmText llm_output =>
               match json_loads (strip_fence llm_output) with
               | None =>
                   no_save [AutoAnalyzing (canonical id); ErrLlmJson (canonical id)]
               | Some JsonOther =>
                   no_save [AutoAnalyzing (canonical id); ErrLlm (canonical id)]
               | Some (JsonObject s r a) =>
                   {| saved :=
                        Some {| playlists :=
                                  with_match
                                    (set_analysis (default EmptyString s)
                                                  (default "unknown"%string r)
                                                  (default [] a))
                                    pre pid pl post vpre w vpost;
                                last_fed_date := last_fed_date (load_data file) |};
                      printed := [AutoAnalyzing (canonical id);
                                  AutoAnalyzed (canonical id)] |}
               end
           end.
Proof.
  intros Hid Hu Htracked.
  destruct (tracked_scan (canonical id) (fun v => v) _ Htracked)
    as (pre & pid & pl & post & vpre & w & vpost & Hfirst & Hscan).
  exists pre, pid, pl, post, vpre, w, vpost. split; [done|].
  unfold auto_analyze_video_with_llm. rewrite Hu, bind_Ok.
  rewrite bool_decide_eq_false_2 by done. rewrite Hscan.
  rewrite (urlparse_watch L id Hid : urlparse L (canonical id) = _), bind_Ok.
  simpl query. rewrite (first_value_v L id Hid), bind_Ok.
  pose proof (id_nonempty id Hid) as Hne.
  destruct id as [|c id']; [done|].
  destruct llm as [llm_output|]; [|done].
  destruct (json_loads (strip_fence llm_output)) as [[s r a|]|]; [|done..].
  assert (update_first (has_url (canonical (String c id')))
            (set_analysis (default EmptyString s) (default "unknown"%string r)
                          (default [] a))
            (playlists (load_data file))
          = Some (pl, w, with_match
                           (set_analysis (default EmptyString s)
                              (default "unknown"%string r) (default [] a))
                           pre pid pl post vpre w vpost)) as ->; [|done].
  apply update_first_first. by exists pre, pid, post, vpre, vpost.
Qed.

(** X12.  A sync of a tracked playlist reports as new the number of
    fetched videos whose URL the playlist did not hold.  It keeps the URL
    and the date of the playlist, every other playlist and [last_fed_date];
    and an empty fetch empties the playlist. *)
Theorem sync_reports_new (L : Library) (file : option Document)
    (youtube : YouTube) (purl pid : string) (pl : PlaylistRecord)
    (ys : list VideoRecord) :
  get_playlist_id L purl = Ok (Some pid) → Str.nonempty pid = true →
  dict_get pid (playlists (load_data file)) = Some pl →
  get_playlist_items L youtube = inr ys →
  ∃ o d' pl',
    sync_playlist L file youtube purl = Ok o
    ∧ saved o = Some d'
    ∧ printed o
      = [Fetching purl;
         SyncComplete purl
           (length (filter (fun y => url y ∉ url <$> videos pl) ys))]
    ∧ dict_get pid (playlists d') = Some pl'
    ∧ playlist_url pl' = playlist_url pl ∧ added_date pl' = added_date pl
    ∧ (ys = [] → videos pl' = [])
    ∧ (∀ k, k ≠ pid → dict_get k (playlists d')
                      = dict_get k (playlists (load_data file)))
    ∧ last_fed_date d' = last_fed_date (load_data file).
Proof.
  intros Hid Hne Hpl Hys.
  eexists _, _, _. split; [by eapply sync_playlist_runs|].
  split; [done|]. simpl. split; [by rewrite merge_new_videos_count|].
  split; [apply dict_get_set|]. simpl. do 2 (split; [done|]).
  split; [by intros ->|].
  split; [by intros k Hk; apply dict_get_set_ne|done].
Qed.

(** X13.  When the fetched videos have pairwise different URLs, a
    second sync with the same answer of the API saves the document the
    first one saved and reports no new video. *)
Theorem sync_twice (L : Library) (file : option Document)
    (youtube : YouTube) (purl pid : string) (pl : PlaylistRecord)
    (ys : list VideoRecord) :
  get_playlist_id L purl = Ok (Some pid) → Str.nonempty pid = true →
  dict_get pid (playlists (load_data file)) = Some pl →
  get_playlist_items L youtube = inr ys →
  NoDup (url <$> ys) →
  ∃ o d',
    sync_playlist L file youtube purl = Ok o
    ∧ saved o = Some d'
    ∧ sync_playlist L (Some d') youtube purl
      = Ok {| saved := Some d';
              printed := [Fetching purl; SyncComplete purl 0] |}.
Proof.
  intros Hid Hne Hpl Hys Hnd.
  eexists _, _. split; [by eapply sync_playlist_runs|]. split; [done|].
  erewrite sync_playlist_runs; [|done|done| |done].
  2:{ simpl load_data. simpl playlists. apply dict_get_set. }
  simpl load_data. simpl playlists. simpl last_fed_date. simpl videos.
  rewrite dict_set_set, merged_videos_idempotent by done.
  rewrite merge_new_videos_count.
  rewrite merged_videos_urls.
  assert (∀ l : list VideoRecord,
            (∀ y, y ∈ l → url y ∈ url <$> ys) →
            filter (fun y => url y ∉ url <$> ys) l = []) as Hnil.
  { induction l as [|y l IH]; intros Hall; [done|].
    rewrite filter_cons_False.
    - apply IH. intros y' Hy'. apply Hall. by apply list_elem_of_further.
    - intros Hnot. apply Hnot, Hall, list_elem_of_here. }
  rewrite Hnil; [done|]. intros y Hy. apply list_elem_of_fmap. by exists y.
Qed.

(** X14.  [sync] writes the data file only for a URL whose playlist id
    is tracked and a fetch that succeeds; a failed fetch and an untracked
    playlist leave the file unwritten. *)
Theorem sync_saves_only_tracked (L : Library) (file : option Document)
    (youtube : YouTube) (purl : string) (o : Outcome) :
  sync_playlist L file youtube purl = Ok o →
  (∀ d', saved o = Some d' →
     ∃ pid pl ys,
       get_playlist_id L purl = Ok (Some pid)
       ∧ dict_get pid (playlists (load_data file)) = Some pl
       ∧ get_playlist_items L youtube = inr ys)
  ∧ ((∃ e, get_playlist_items L youtube = inl e) → saved o = None)
  ∧ (∀ pid, get_playlist_id L purl = Ok (Some pid) →
            dict_get pid (playlists (load_data file)) = None → saved o = None).
Proof.
  intros Ho. split; [|split].
  - intros d' Hd'.
    destruct (sync_playlist_saved L _ _ _ _ _ Ho Hd')
      as (pid & pl & ys & ? & ? & ? & _). by exists pid, pl, ys.
  - intros [e He]. destruct (saved o) as [d'|] eqn:Hd'; [|done].
    destruct (sync_playlist_saved L _ _ _ _ _ Ho Hd')
      as (pid & pl & ys & _ & _ & Hf & _). congruence.
  - intros pid Hid Hnone. destruct (saved o) as [d'|] eqn:Hd'; [|done].
    destruct (sync_playlist_saved L _ _ _ _ _ Ho Hd')
      as (pid' & pl & ys & Hid' & Hpl & _). congruence.
Qed.

(** ** A sync straight after the add *)

Lemma filter_known_nil (ys l : list VideoRecord) :
  (∀ y, y ∈ l → url y ∈ url <$> ys) →
  filter (fun y => url y ∉ url <$> ys) l = [].
Proof.
  induction l as [|y l IH]; intros Hall; [done|].
  rewrite filter_cons_False.
  - apply IH. intros y' Hy'. apply Hall. by apply list_elem_of_further.
  - intros Hnot. apply Hnot, Hall, list_elem_of_here.
Qed.

(** X15.  When the fetched videos have pairwise different URLs, a sync
    that follows an [add] with the same answer of the API saves the document
    the [add] saved and reports no new video. *)
Theorem add_then_sync (L : Library) (file : option Document)
    (youtube : YouTube) (now purl : string) (o : Outcome) (d' : Document)
    (ys : list VideoRecord) :
  add_playlist L file youtube now purl = Ok o → saved o = Some d' →
  get_playlist_items L youtube = inr ys → NoDup (url <$> ys) →
  sync_playlist L (Some d') youtube purl
  = Ok {| saved := Some d';
          printed := [Fetching purl; SyncComplete purl 0] |}.
Proof.
  intros Hadd Hsaved Hys Hnd.
  destruct (add_playlist_inv L _ _ _ _ _ _ Hadd Hsaved)
    as (pid & vs & Hid & Hne & Hnew & Hvs & _ & -> & _).
  rewrite Hys in Hvs. injection Hvs as <-.
  erewrite sync_playlist_runs; [|done|done| |done].
  2:{ simpl load_data. simpl playlists. apply dict_get_set. }
  simpl load_data. simpl playlists. simpl last_fed_date. simpl videos.
  rewrite dict_set_set, merge_new_videos_count.
  rewrite merged_videos_fixed; [|done|done|].
  2:{ intros j yt a Hj Ha. rewrite Hj in Ha. by injection Ha as <-. }
  rewrite filter_known_nil; [done|].
  intros y Hy. apply list_elem_of_fmap. by exists y.
Qed.

Lemma add_then_sync_witness :
  ∃ o d',
    add_playlist Sample.library None Sample.youtube "2024-03-07T10:00:00"
      "https://www.youtube.com/playlist?list=PL1" = Ok o
    ∧ saved o = Some d'
    ∧ sync_playlist Sample.library (Some d') Sample.youtube
        "https://www.youtube.com/playlist?list=PL1"
      = Ok {| saved := Some d';
              printed := [Fetching "https://www.youtube.com/playlist?list=PL1";
                          SyncComplete "https://www.youtube.com/playlist?list=PL1" 0] |}.
Proof.
  eexists _, _. split; [reflexivity|]. split; [reflexivity|].
  eapply (add_then_sync Sample.library None Sample.youtube "2024-03-07T10:00:00"
            "https://www.youtube.com/playlist?list=PL1" _ _ _ eq_refl eq_refl eq_refl).
  apply (bool_decide_unpack _). vm_compute. exact I.
Defined.

(** ** What the feed prints, and the next day *)

Lemma fed_urls_app ms1 ms2 : fed_urls (ms1 ++ ms2) = fed_urls ms1 ++ fed_urls ms2.
Proof. unfold fed_urls. apply omap_app. Qed.

Lemma feed_one_printed st v :
  url v ∈ url <$> unfed_videos (feed_playlists st) →
  ∃ pid pl w,
    feed_printed (feed_one st v)
      = feed_printed st ++ [NextVideo (playlist_url pl) w]
    ∧ url w = url v ∧ fed w = false
    ∧ (pid, pl) ∈ feed_playlists st ∧ w ∈ videos pl.
Proof.
  intros (w0 & Huw & Hw0)%list_elem_of_fmap.
  apply unfed_videos_elem in Hw0 as (Hfed & pid0 & pl0 & Hin & Hwin).
  unfold feed_one.
  destruct (update_first_is_Some
              (fun video => has_url (url v) video && negb (fed video)) set_fed
              (feed_playlists st)) as (pl & w & pls' & Hscan).
  { exists pid0, pl0, w0. repeat split; try done.
    unfold has_url. by rewrite bool_decide_eq_true_2, Hfed. }
  rewrite Hscan. simpl.
  apply update_first_first in Hscan
    as (pre & pid & post & vpre & vpost & (Hpls & Hv & Hw & _) & _).
  apply andb_prop in Hw as [Hu%bool_decide_eq_true Hf%negb_true_iff].
  exists pid, pl, w. repeat split; try done.
  - rewrite Hpls. apply elem_of_app. right. apply list_elem_of_here.
  - rewrite Hv. apply elem_of_app. right. apply list_elem_of_here.
Qed.

Lemma feed_loop_printed (limit : nat) (vs : list VideoRecord) (st : feed_state) :
  url <$> vs ≡ₚ url <$> unfed_videos (feed_playlists st) →
  fed_urls (feed_printed (feed_loop limit st vs))
  = fed_urls (feed_printed st)
    ++ take (limit - fed_count_today st) (url <$> vs).
Proof.
  revert st. induction vs as [|v vs IH]; intros st Hperm; simpl.
  - by rewrite take_nil, app_nil_r.
  - destruct (Nat.leb_spec limit (fed_count_today st)) as [Hfull|Hroom].
    + replace (limit - fed_count_today st)%nat with 0%nat by lia.
      by rewrite app_nil_r.
    + assert (url v ∈ url <$> unfed_videos (feed_playlists st)) as Hin.
      { rewrite <- Hperm. simpl. apply list_elem_of_here. }
      destruct (feed_one_spec st v Hin) as (w & A & B & Huw & HA & HB & Hcount & _).
      destruct (feed_one_printed st v Hin) as (pid & pl & w' & Hprinted & Huw' & _).
      rewrite IH.
      * rewrite Hprinted, fed_urls_app, Hcount. simpl. rewrite Huw'.
        replace (limit - fed_count_today st)%nat
          with (S (limit - S (fed_count_today st))) by lia.
        simpl. by rewrite <- app_assoc.
      * rewrite HB, fmap_app. rewrite HA, fmap_app in Hperm. simpl in Hperm.
        rewrite Huw in Hperm. by eapply Permutation_cons_app_inv.
Qed.

Lemma shown_videos_app ms1 ms2 :
  shown_videos (ms1 ++ ms2) = shown_videos ms1 ++ shown_videos ms2.
Proof. unfold shown_videos. apply omap_app. Qed.

Lemma fed_urls_shown ms : fed_urls ms = url <$> shown_videos ms.
Proof.
  unfold fed_urls, shown_videos.
  induction ms as [|m ms IH]; [done|].
  destruct m; simpl; first [exact IH | f_equal; exact IH].
Qed.

(** One scan of the feed shows the record it marks: a candidate with the
    URL looked for, which leaves the candidates. *)
Lemma feed_one_shown st v :
  (feed_one st v = st
   ∧ ∀ w, w ∈ unfed_videos (feed_playlists st) → url w ≠ url v)
  ∨ ∃ w A B,
      url w = url v
      ∧ unfed_videos (feed_playlists st) = A ++ w :: B
      ∧ unfed_videos (feed_playlists (feed_one st v)) = A ++ B
      ∧ shown_videos (feed_printed (feed_one st v))
        = shown_videos (feed_printed st) ++ [w].
Proof.
  unfold feed_one.
  destruct (update_first _ set_fed (feed_playlists st)) as [[[pl w] pls']|] eqn:Hscan.
  - right. destruct (feed_scan_unfed _ _ _ _ _ Hscan) as (Hu & Hf & A & B & HA & HB).
    exists w, A, B. simpl. by rewrite shown_videos_app.
  - left. split; [done|]. intros w Hw Hu.
    apply unfed_videos_elem in Hw as (Hfed & pid & pl & Hin & Hwin).
    assert ((has_url (url v) w && negb (fed w)) = false) as Hfalse.
    { by eapply (proj1 (update_first_None _ _ _) Hscan). }
    unfold has_url in Hfalse.
    rewrite bool_decide_eq_true_2, Hfed in Hfalse by done. done.
Qed.

(** The records shown and the candidates left make up the candidates
    there were. *)
Lemma feed_loop_shown (limit : nat) (vs : list VideoRecord) (st : feed_state) :
  shown_videos (feed_printed (feed_loop limit st vs))
    ++ unfed_videos (feed_playlists (feed_loop limit st vs))
  ≡ₚ shown_videos (feed_printed st) ++ unfed_videos (feed_playlists st).
Proof.
  revert st. induction vs as [|v vs IH]; intros st; simpl; [done|].
  destruct (limit <=? fed_count_today st)%nat; [done|].
  rewrite IH.
  destruct (feed_one_shown st v) as [[-> _]|(w & A & B & _ & HA & HB & Hshown)];
    [done|].
  rewrite Hshown, HA, HB, <- app_assoc. simpl.
  apply Permutation_app_head. apply Permutation_middle.
Qed.

Lemma NoDup_fmap_eq {A B} (f : A → B) (l : list A) x y :
  NoDup (f <$> l) → x ∈ l → y ∈ l → f x = f y → x = y.
Proof.
  intros Hnd [i Hi]%list_elem_of_lookup [j Hj]%list_elem_of_lookup Hf.
  assert (i = j) as ->.
  { eapply NoDup_lookup; [exact Hnd| |]; rewrite list_lookup_fmap.
    - by rewrite Hi.
    - by rewrite Hj; simpl; rewrite Hf. }
  congruence.
Qed.

(** When no two candidates share a URL, the record found for a candidate
    is that candidate. *)
Lemma feed_loop_shown_distinct (limit : nat) (vs : list VideoRecord)
    (st : feed_state) :
  vs ≡ₚ unfed_videos (feed_playlists st) →
  NoDup (url <$> unfed_videos (feed_playlists st)) →
  shown_videos (feed_printed (feed_loop limit st vs))
  = shown_videos (feed_printed st) ++ take (limit - fed_count_today st) vs.
Proof.
  revert st. induction vs as [|v vs IH]; intros st Hperm Hnd; simpl.
  - by rewrite take_nil, app_nil_r.
  - destruct (Nat.leb_spec limit (fed_count_today st)) as [Hfull|Hroom].
    + replace (limit - fed_count_today st)%nat with 0%nat by lia.
      by rewrite app_nil_r.
    + assert (v ∈ unfed_videos (feed_playlists st)) as Hv.
      { rewrite <- Hperm. apply list_elem_of_here. }
      assert (url v ∈ url <$> unfed_videos (feed_playlists st)) as Hin.
      { apply list_elem_of_fmap. by exists v. }
      destruct (feed_one_spec st v Hin) as (w0 & A0 & B0 & _ & _ & _ & Hcount & _).
      destruct (feed_one_shown st v) as [[_ Hnone]|(w & A & B & Huw & HA & HB & Hshown)].
      { by destruct (Hnone v Hv). }
      assert (w = v) as ->.
      { eapply (NoDup_fmap_eq url); [exact Hnd| |exact Hv|exact Huw].
        rewrite HA. apply elem_of_app. right. apply list_elem_of_here. }
      rewrite IH.
      * rewrite Hshown, Hcount.
        replace (limit - fed_count_today st)%nat
          with (S (limit - S (fed_count_today st))) by lia.
        simpl. by rewrite <- app_assoc.
      * rewrite HB. rewrite HA in Hperm. by eapply Permutation_cons_app_inv.
      * rewrite HB. rewrite HA in Hnd. rewrite fmap_app in Hnd |- *.
        rewrite fmap_cons in Hnd. apply NoDup_app in Hnd as (HndA & Hdisj & HndB).
        apply NoDup_cons in HndB as [HnotB HndB].
        apply NoDup_app. split; [done|]. split; [|done].
        intros x Hx HxB. apply (Hdisj x Hx). by apply list_elem_of_further.
Qed.

Section Shown.
Variable L : Library.

(** The feed past an open gate, with what it shows. *)
Lemma get_next_video_shown limit today file :
  gate_open L today (load_data file) →
  unfed_videos (playlists (load_data file)) ≠ [] →
  timestamps_readable L (load_data file) →
  ∃ o d' l,
    get_next_video_limit L limit today file = Ok o
    ∧ saved o = Some d'
    ∧ sorted_unfed_videos L (load_data file) = Ok l
    ∧ last_fed_date d' = Some (isoformat today)
    ∧ fed_urls (printed o) = take limit (url <$> l)
    ∧ length (shown_videos (printed o))
      = (limit `min` length (unfed_videos (playlists (load_data file))))%nat
    ∧ unfed_videos (playlists (load_data file))
      ≡ₚ shown_videos (printed o) ++ unfed_videos (playlists d')
    ∧ (NoDup (url <$> unfed_videos (playlists (load_data file))) →
       shown_videos (printed o) = take limit l)
    ∧ playlists_rel fed_step (playlists (load_data file)) (playlists d').
Proof.
  intros Hgate Hcand Hparse.
  destruct (get_next_video_feeds L limit today file Hgate Hcand Hparse)
    as (o & d' & Ho & Hsaved & Hstamp & Hrel & _).
  apply gate_open_spec in Hgate.
  destruct (sorted_unfed_videos_returns L _ Hparse) as (l & Hl & Hperm).
  exists o, d', l. split; [done|]. split; [done|]. split; [done|]. split; [done|].
  revert Ho Hsaved. unfold get_next_video_limit. rewrite Hgate, bind_Ok.
  destruct (unfed_videos (playlists (load_data file))) as [|c cs] eqn:Hunfed; [done|].
  rewrite Hl, bind_Ok. intros [= <-]. simpl saved. intros [= <-].
  simpl printed. simpl playlists.
  set (st0 := {| feed_playlists := playlists (load_data file);
                 fed_count_today := 0; feed_printed := [] |}).
  assert (shown_videos (if (fed_count_today (feed_loop limit st0 l) =? 0)%nat
                        then [NoUnfedVideos] else []) = []) as Hnone
    by (by destruct (_ =? 0)%nat).
  assert (fed_urls (if (fed_count_today (feed_loop limit st0 l) =? 0)%nat
                    then [NoUnfedVideos] else []) = []) as Hnone'
    by (by destruct (_ =? 0)%nat).
  assert (fed_urls (feed_printed (feed_loop limit st0 l)) = take limit (url <$> l))
    as Hurls.
  { rewrite feed_loop_printed; simpl.
    - by rewrite Nat.sub_0_r.
    - by rewrite Hunfed, Hperm. }
  rewrite fed_urls_app, shown_videos_app, Hnone, Hnone', !app_nil_r.
  split; [done|]. split.
  { rewrite <- (length_fmap url), <- fed_urls_shown, Hurls.
    rewrite length_take, length_fmap, (Permutation_length Hperm). done. }
  split.
  { rewrite (feed_loop_shown limit l st0). simpl. by rewrite Hunfed. }
  split; [|done].
  intros Hnd. rewrite feed_loop_shown_distinct; simpl.
  - by rewrite Nat.sub_0_r.
  - by rewrite Hunfed.
  - by rewrite Hunfed.
Qed.

End Shown.

(** X16.  When the gate of the feed is open, there are candidates and
    their timestamps can be read, the feed saves, and the URLs it shows are
    the URLs of the first [limit] sorted candidates, in that order: as many
    as the limit allows, or all of them when there are fewer.  The records
    shown are candidates, and together with the candidates left afterwards
    they make up the candidates there were.  When no two candidates share
    a URL, the records shown are the first [limit] sorted candidates
    themselves. *)
Theorem feed_shows_top (L : Library) (limit : nat) (today : date)
    (file : option Document) :
  gate_open L today (load_data file) →
  unfed_videos (playlists (load_data file)) ≠ [] →
  timestamps_readable L (load_data file) →
  ∃ o d' l,
    get_next_video_limit L limit today file = Ok o
    ∧ saved o = Some d'
    ∧ sorted_unfed_videos L (load_data file) = Ok l
    ∧ fed_urls (printed o) = take limit (url <$> l)
    ∧ url <$> shown_videos (printed o) = take limit (url <$> l)
    ∧ length (shown_videos (printed o))
      = (limit `min` length (unfed_videos (playlists (load_data file))))%nat
    ∧ unfed_videos (playlists (load_data file))
      ≡ₚ shown_videos (printed o) ++ unfed_videos (playlists d')
    ∧ (NoDup (url <$> unfed_videos (playlists (load_data file))) →
       shown_videos (printed o) = take limit l).
Proof.
  intros Hgate Hcand Hparse.
  destruct (get_next_video_shown L limit today file Hgate Hcand Hparse)
    as (o & d' & l & Ho & Hs & Hl & _ & Hurls & Hlen & Hperm & Hdistinct & _).
  exists o, d', l. repeat (split; [done|]).
  split; [by rewrite <- fed_urls_shown|]. done.
Qed.


Lemma unfed_after_feed pls pls' v :
  playlists_rel fed_step pls pls' → v ∈ unfed_videos pls' → v ∈ unfed_videos pls.
Proof.
  intros Hrel (Hfed & pid & pl' & Hin & Hv)%unfed_videos_elem.
  apply list_elem_of_lookup in Hin as [i Hi].
  destruct (Forall2_lookup_r _ _ _ _ _ Hrel Hi) as ([pid0 pl] & Hp & Hk & _ & _ & Hvs).
  simpl in Hk, Hvs. subst pid0.
  apply list_elem_of_lookup in Hv as [j Hj].
  destruct (Forall2_lookup_r _ _ _ _ _ Hvs Hj) as (x & Hx & Hstep).
  apply unfed_videos_elem.
  destruct Hstep as [->|[_ ->]]; [|done].
  split; [done|]. exists pid, pl.
  split; by eapply list_elem_of_lookup_2.
Qed.

(** X17.  Two feeds on two different days, the first through an open
    gate, with at least one candidate, readable timestamps, and a library
    that reads back the date it printed.  The first run shows
    [min limit n] records and stamps its day, so a second run on that day
    is refused.  On another day the feed is let through: it shows [limit]
    of the candidates left, or all of them, and stamps the new day; when
    none is left it writes nothing.  The records shown on the two days and
    the candidates left at the end make up the candidates at the start, and
    no record changes but by its fed flag going from false to true. *)
Theorem feed_next_day (L : Library) (limit : nat) (day1 day2 : date)
    (file : option Document) :
  gate_open L day1 (load_data file) →
  unfed_videos (playlists (load_data file)) ≠ [] →
  timestamps_readable L (load_data file) →
  fromisoformat_date L (isoformat day1) = Some day1 →
  day1 ≠ day2 →
  ∃ o1 d1 o2 d2,
    get_next_video_limit L limit day1 file = Ok o1
    ∧ saved o1 = Some d1
    ∧ last_fed_date d1 = Some (isoformat day1)
    ∧ get_next_video_limit L limit day1 (Some d1) = Ok (no_save [AlreadyFedToday])
    ∧ get_next_video_limit L limit day2 (Some d1) = Ok o2
    ∧ file_after (Some d1) o2 = Some d2
    ∧ (unfed_videos (playlists d1) = [] → o2 = no_save [NoUnfedVideos])
    ∧ (unfed_videos (playlists d1) ≠ [] →
       saved o2 = Some d2 ∧ last_fed_date d2 = Some (isoformat day2))
    ∧ length (shown_videos (printed o1))
      = (limit `min` length (unfed_videos (playlists (load_data file))))%nat
    ∧ length (shown_videos (printed o2))
      = (limit `min` length (unfed_videos (playlists d1)))%nat
    ∧ unfed_videos (playlists (load_data file))
      ≡ₚ shown_videos (printed o1) ++ shown_videos (printed o2)
         ++ unfed_videos (playlists d2)
    ∧ playlists_rel fed_step (playlists (load_data file)) (playlists d2).
Proof.
  intros Hgate Hcand Hparse Hround Hdays.
  destruct (get_next_video_shown L limit day1 file Hgate Hcand Hparse)
    as (o1 & d1 & l1 & Ho1 & Hs1 & _ & Hstamp & _ & Hlen1 & Hperm1 & _ & Hrel1).
  assert (gate_open L day2 (load_data (Some d1))) as Hgate2.
  { right. right. exists (isoformat day1), day1. by repeat split. }
  assert (timestamps_readable L (load_data (Some d1))) as Hparse2.
  { intros v Hv. apply Hparse. by eapply unfed_after_feed. }
  assert (get_next_video_limit L limit day1 (Some d1)
          = Ok (no_save [AlreadyFedToday])) as Hagain.
  { unfold get_next_video_limit.
    rewrite (gate_closed L day1 (load_data (Some d1)) (isoformat day1));
      [done|done|apply isoformat_nonempty|done]. }
  destruct (decide (unfed_videos (playlists d1) = [])) as [Hunfed1|Hunfed1].
  - exists o1, d1, (no_save [NoUnfedVideos]), d1.
    split; [done|]. split; [done|]. split; [done|]. split; [done|]. split.
    { apply gate_open_spec in Hgate2. unfold get_next_video_limit.
      rewrite Hgate2, bind_Ok. simpl load_data. by rewrite Hunfed1. }
    split; [done|]. split; [done|]. split; [done|]. split; [done|]. split.
    { rewrite Hunfed1. simpl. by rewrite Nat.min_0_r. }
    split; [|done]. simpl. done.
  - destruct (get_next_video_shown L limit day2 (Some d1) Hgate2 Hunfed1 Hparse2)
      as (o2 & d2 & l2 & Ho2 & Hs2 & _ & Hstamp2 & _ & Hlen2 & Hperm2 & _ & Hrel2).
    simpl load_data in *.
    exists o1, d1, o2, d2.
    split; [done|]. split; [done|]. split; [done|]. split; [done|].
    split; [done|]. split; [unfold file_after; by rewrite Hs2|].
    split; [done|]. split; [done|]. split; [done|]. split; [done|]. split.
    + by rewrite Hperm1, Hperm2.
    + eapply playlists_rel_trans; [apply fed_step_trans|done|done].
Qed.


(** ** The listing *)

Lemma fed_unfed_length (vs : list VideoRecord) :
  (length vs - length (filter (fun v => fed v = true) vs))%nat
  = length (filter (fun v => fed v = false) vs)
  ∧ (length (filter (fun v => fed v = true) vs) ≤ length vs)%nat.
Proof.
  induction vs as [|v vs [IH1 IH2]]; [done|].
  destruct (fed v) eqn:Hfed.
  - rewrite filter_cons_True, filter_cons_False by (by rewrite ?Hfed).
    simpl. split; [done|lia].
  - rewrite filter_cons_False, filter_cons_True by (by rewrite ?Hfed).
    simpl. split; [lia|lia].
Qed.

Section ListingFacts.
Variable L : Library.

Lemma playlist_status_describes pid pl line :
  playlist_status L pl = Ok line ↔ describes L (pid, pl) line.
Proof.
  unfold playlist_status, describes. simpl.
  rewrite (proj1 (fed_unfed_length (videos pl))).
  destruct (fromisoformat_date L (added_date pl)) as [added|].
  - split.
    + intros [= <-]. by exists added.
    + by intros (added' & [= <-] & ->).
  - split; [done|]. by intros (added' & ? & _).
Qed.

Lemma playlist_statuses_spec pls lines :
  playlist_statuses L pls = Ok lines ↔ Forall2 (describes L) pls lines.
Proof.
  revert lines. induction pls as [|[pid pl] pls IH]; intros lines; simpl.
  - split; [intros [= <-]; constructor|]. by intros ->%Forall2_nil_inv_l.
  - split.
    + destruct (playlist_status L pl) as [line|e] eqn:Hline; [|done].
      rewrite bind_Ok.
      destruct (playlist_statuses L pls) as [lines'|e]; [|done].
      rewrite bind_Ok. intros [= <-]. constructor.
      * by apply playlist_status_describes.
      * by apply IH.
    + intros (line & lines' & Hline & Hrest & ->)%Forall2_cons_inv_l.
      apply (playlist_status_describes pid) in Hline. rewrite Hline, bind_Ok.
      apply IH in Hrest. by rewrite Hrest.
Qed.

Lemma describes_unfed pls lines :
  Forall2 (describes L) pls lines →
  sum_list_with line_unfed lines = length (unfed_videos pls).
Proof.
  induction 1 as [|[pid pl] line pls lines (added & _ & ->) _ IH]; [done|].
  simpl. rewrite IH. unfold unfed_videos. simpl. by rewrite length_app.
Qed.

End ListingFacts.

(** X18.  [list] prints one line saying that nothing is tracked when
    there is no playlist.  Otherwise it prints the header and one status per
    playlist in the order of the document, with the URL, the number of
    videos and the numbers of fed and unfed ones, the latter being the
    videos whose flag is false; the unfed figures add up to the number of
    candidates of the feed.  A playlist whose [added_date] cannot be read
    makes the command raise [ValueError]. *)
Theorem list_playlists_counts (L : Library) (file : option Document) :
  (playlists (load_data file) = [] →
   list_playlists L file = Ok [NoPlaylistsTracked])
  ∧ (∀ lines,
       playlists (load_data file) ≠ [] →
       (list_playlists L file = Ok (TrackedPlaylistsHeader :: lines)
        ↔ Forall2 (describes L) (playlists (load_data file)) lines)
       ∧ (Forall2 (describes L) (playlists (load_data file)) lines →
          sum_list_with line_unfed lines
          = length (unfed_videos (playlists (load_data file)))))
  ∧ ((∃ p, p ∈ playlists (load_data file)
           ∧ fromisoformat_date L (added_date p.2) = None) →
     list_playlists L file = Raise ValueError).
Proof.
  unfold list_playlists. split; [by intros ->|]. split.
  - intros lines Hne. split; [|apply describes_unfed].
    destruct (playlists (load_data file)) as [|p pls] eqn:Hpls; [done|].
    rewrite <- playlist_statuses_spec.
    destruct (playlist_statuses L (p :: pls)) as [lines'|e];
      rewrite ?bind_Ok, ?bind_Raise; [|done].
    split; congruence.
  - intros (p & Hp & Hbad).
    destruct (playlists (load_data file)) as [|p0 pls] eqn:Hpls;
      [by apply elem_of_nil in Hp|].
    assert (playlist_statuses L (p0 :: pls) = Raise ValueError) as ->; [|done].
    clear Hpls. revert Hp. generalize (p0 :: pls). intros l.
    induction l as [|[pid pl] l IH]; intros Hp; [by apply elem_of_nil in Hp|].
    simpl. unfold playlist_status at 1.
    destruct (fromisoformat_date L (added_date pl)) as [added|] eqn:Hadded;
      [|done].
    rewrite bind_Ok.
    apply elem_of_cons in Hp as [->|Hp]; [simpl in Hbad; congruence|].
    by rewrite IH.
Qed.


(** ** What every command keeps *)

Lemma edit_step_refl v : edit_step v v.
Proof. by left. Qed.

Lemma edit_step_url v v' : edit_step v v' → url v' = url v.
Proof. by intros [->|[->|(s & r & a & ->)]]. Qed.

Lemma edit_step_complete v v' :
  edit_step v v' → analysis_complete v → analysis_complete v'.
Proof.
  intros [->|[->|(s & r & a & ->)]] Hv; [done|done|].
  right. simpl. by eauto.
Qed.

Lemma fed_step_edit v v' : fed_step v v' → edit_step v v'.
Proof. intros [->|[_ ->]]; [by left|by right; left]. Qed.

Lemma playlists_rel_dict_get R pls pls' pid pl :
  playlists_rel R pls pls' → dict_get pid pls = Some pl →
  ∃ pl', dict_get pid pls' = Some pl'
         ∧ playlist_url pl' = playlist_url pl ∧ added_date pl' = added_date pl
         ∧ Forall2 R (videos pl) (videos pl').
Proof.
  induction 1 as [|[k p] [k' p'] l l' (Hk & Hu & Ha & Hv) _ IH]; simpl; [done|].
  simpl in Hk, Hu, Ha, Hv. subst k'.
  case_bool_decide; [|done]. intros [= <-]. by exists p'.
Qed.

Lemma playlists_rel_elem R pls pls' pid pl' v' :
  playlists_rel R pls pls' → (pid, pl') ∈ pls' → v' ∈ videos pl' →
  ∃ pl v, (pid, pl) ∈ pls ∧ v ∈ videos pl ∧ R v v'.
Proof.
  intros Hrel [i Hi]%list_elem_of_lookup [j Hj]%list_elem_of_lookup.
  destruct (Forall2_lookup_r _ _ _ _ _ Hrel Hi) as ([pid0 pl] & Hp & Hk & _ & _ & Hvs).
  simpl in Hk, Hvs. subst pid0.
  destruct (Forall2_lookup_r _ _ _ _ _ Hvs Hj) as (v & Hv & HR).
  exists pl, v. repeat split; [by eapply list_elem_of_lookup_2..|done].
Qed.

Lemma elem_of_dict_set {V} k (v : V) d q :
  q ∈ dict_set k v d → q = (k, v) ∨ q ∈ d.
Proof.
  induction d as [|[k0 v0] d IH]; simpl.
  - intros ->%list_elem_of_singleton. by left.
  - case_bool_decide.
    + intros [->|Hq]%elem_of_cons; [by left|right; by apply list_elem_of_further].
    + intros [->|Hq]%elem_of_cons; [right; apply list_elem_of_here|].
      destruct (IH Hq) as [->|?]; [by left|right; by apply list_elem_of_further].
Qed.

Lemma dict_get_set_is_Some {V} k k' (v : V) d :
  is_Some (dict_get k' d) → is_Some (dict_get k' (dict_set k v d)).
Proof.
  destruct (decide (k' = k)) as [->|Hne].
  - rewrite dict_get_set. by eauto.
  - by rewrite dict_get_set_ne.
Qed.

Section Edits.
Variable L : Library.

Lemma scan_edit (f : VideoRecord → VideoRecord) u data ms o :
  (∀ v, edit_step v (f v)) →
  match update_first (has_url u) f (playlists data) with
  | Some (_, _, pls) =>
      Ok {| saved := Some {| playlists := pls;
                             last_fed_date := last_fed_date data |};
            printed := ms |}
  | None => Ok (no_save [ErrVideoNotFound u])
  end = Ok o →
  ∀ d', saved o = Some d' →
        playlists_rel edit_step (playlists data) (playlists d')
        ∧ last_fed_date d' = last_fed_date data.
Proof.
  intros Hf.
  destruct (update_first (has_url u) f (playlists data)) as [[[pl w] pls]|] eqn:Hscan.
  - intros [= <-] d' [= <-]. simpl. split; [|done].
    eapply update_first_rel; [apply edit_step_refl| |exact Hscan]. by intros v _.
  - by intros [= <-] d' ?.
Qed.

Lemma analyze_video_edits file video_url s r a o d' :
  analyze_video L file video_url s r a = Ok o → saved o = Some d' →
  playlists_rel edit_step (playlists (load_data file)) (playlists d')
  ∧ last_fed_date d' = last_fed_date (load_data file).
Proof.
  unfold analyze_video.
  destruct (normalize_youtube_url L video_url) as [u|e];
    rewrite ?bind_Ok, ?bind_Raise; [|done].
  intros Ho. eapply scan_edit; [|exact Ho].
  intros v. right. right. by eauto.
Qed.

Lemma auto_analyze_edits json_loads file llm video_url o d' :
  auto_analyze_video_with_llm L json_loads file llm video_url = Ok o →
  saved o = Some d' →
  playlists_rel edit_step (playlists (load_data file)) (playlists d')
  ∧ last_fed_date d' = last_fed_date (load_data file).
Proof.
  unfold auto_analyze_video_with_llm.
  destruct (normalize_youtube_url L video_url) as [u|e];
    rewrite ?bind_Ok, ?bind_Raise; [|done].
  rewrite bool_decide_eq_false_2 by done.
  destruct (update_first (has_url u) (fun v => v) _) as [[[pl w] pls]|];
    [|by intros [= <-]].
  destruct (urlparse L u) as [p|e]; rewrite ?bind_Ok, ?bind_Raise; [|done].
  destruct (first_value L "v" (query p)) as [[[|c id]|]|e];
    rewrite ?bind_Ok, ?bind_Raise; [by intros [= <-]| |by intros [= <-]|done].
  destruct llm as [llm_output|]; [|by intros [= <-]].
  destruct (json_loads (strip_fence llm_output)) as [[sm rt ap|]|];
    [|by intros [= <-]..].
  intros Ho. eapply scan_edit; [|exact Ho].
  intros v. right. right. by eauto.
Qed.

Lemma mark_fed_edits msg file video_url o d' :
  mark_fed L msg file video_url = Ok o → saved o = Some d' →
  playlists_rel edit_step (playlists (load_data file)) (playlists d')
  ∧ last_fed_date d' = last_fed_date (load_data file).
Proof.
  unfold mark_fed.
  destruct (normalize_youtube_url L video_url) as [u|e];
    rewrite ?bind_Ok, ?bind_Raise; [|done].
  intros Ho. eapply scan_edit; [|exact Ho].
  intros v. right. by left.
Qed.

Lemma get_next_video_edits limit today file o d' :
  get_next_video_limit L limit today file = Ok o → saved o = Some d' →
  playlists_rel edit_step (playlists (load_data file)) (playlists d').
Proof.
  intros Ho Hs. eapply playlists_rel_impl; [apply fed_step_edit|].
  by eapply get_next_video_keeps_fed.
Qed.

End Edits.


(** ** The command line *)

Lemma dict_get_elem {V} k (v : V) d : dict_get k d = Some v → (k, v) ∈ d.
Proof.
  induction d as [|[k0 v0] d IH]; simpl; [done|].
  case_bool_decide as Hk.
  - intros [= ->]. subst k0. apply list_elem_of_here.
  - intros Hd. apply list_elem_of_further. by apply IH.
Qed.

Lemma fresh_complete v : is_fresh v → analysis_complete v.
Proof. intros (_ & ? & ? & ?). by left. Qed.

Lemma same_but_metadata_complete e v :
  same_but_metadata e v → analysis_complete e → analysis_complete v.
Proof.
  intros (_ & _ & Hs & Hr & Ha). unfold analysis_complete.
  by rewrite Hs, Hr, Ha.
Qed.

Section MainFacts.
Variable L : Library.
Variable json_loads : string → option JsonAnalysis.

(** A run that saves went through one of the seven writing commands. *)
Lemma main_saved w argv r d' :
  main L json_loads w argv = Ok r → run_saved r = Some d' →
  ∃ prog command args,
    argv = prog :: command :: args
    ∧ ((command = "add"%string
        ∧ ∃ u rest o, args = u :: rest ∧ saved o = Some d'
            ∧ add_playlist L (world_file w) (world_youtube w) (world_now w) u = Ok o)
       ∨ (command = "next"%string
          ∧ ∃ o, saved o = Some d'
              ∧ get_next_video L (world_today w) (world_file w) = Ok o)
       ∨ (command = "sync"%string
          ∧ ∃ u rest o, args = u :: rest ∧ saved o = Some d'
              ∧ sync_playlist L (world_file w) (world_youtube w) u = Ok o)
       ∨ (command = "analyze"%string
          ∧ ∃ u s rt a rest o, args = u :: s :: rt :: a :: rest ∧ saved o = Some d'
              ∧ analyze_video L (world_file w) u s rt a = Ok o)
       ∨ (command = "watch"%string
          ∧ ∃ u rest o, args = u :: rest ∧ saved o = Some d'
              ∧ mark_video_watched L (world_file w) u = Ok o)
       ∨ (command = "skip"%string
          ∧ ∃ u rest o, args = u :: rest ∧ saved o = Some d'
              ∧ skip_video L (world_file w) u = Ok o)
       ∨ (command = "auto_analyze"%string
          ∧ ∃ u rest o, args = u :: rest ∧ saved o = Some d'
              ∧ auto_analyze_video_with_llm L json_loads (world_file w)
                  (world_llm w) u = Ok o)).
Proof.
  unfold main. destruct argv as [|prog [|command args]]; [by intros [= <-]..|].
  intros Hr Hd'. exists prog, command, args. split; [done|]. revert Hr.
  repeat case_bool_decide.
  - destruct args as [|u rest]; [intros [= <-]; done|].
    destruct (add_playlist _ _ _ _ u) as [o|e] eqn:Ho; rewrite ?bind_Ok, ?bind_Raise; [|done].
    intros [= <-]. left. split; [done|]. by exists u, rest, o.
  - destruct (list_playlists L _) as [ls|e]; rewrite ?bind_Ok, ?bind_Raise; [|done].
    intros [= <-]. done.
  - destruct (get_next_video _ _ _) as [o|e] eqn:Ho; rewrite ?bind_Ok, ?bind_Raise; [|done].
    intros [= <-]. right. left. split; [done|]. by exists o.
  - destruct args as [|u rest]; [intros [= <-]; done|].
    destruct (sync_playlist _ _ _ u) as [o|e] eqn:Ho; rewrite ?bind_Ok, ?bind_Raise; [|done].
    intros [= <-]. do 2 right. left. split; [done|]. by exists u, rest, o.
  - destruct args as [|u [|s [|rt [|a rest]]]]; try (intros [= <-]; done).
    destruct (analyze_video _ _ u s rt a) as [o|e] eqn:Ho; rewrite ?bind_Ok, ?bind_Raise; [|done].
    intros [= <-]. do 3 right. left. split; [done|]. by exists u, s, rt, a, rest, o.
  - destruct args as [|u rest]; [intros [= <-]; done|].
    destruct (mark_video_watched _ _ u) as [o|e] eqn:Ho; rewrite ?bind_Ok, ?bind_Raise; [|done].
    intros [= <-]. do 4 right. left. split; [done|]. by exists u, rest, o.
  - destruct args as [|u rest]; [intros [= <-]; done|].
    destruct (skip_video _ _ u) as [o|e] eqn:Ho; rewrite ?bind_Ok, ?bind_Raise; [|done].
    intros [= <-]. do 5 right. left. split; [done|]. by exists u, rest, o.
  - destruct args as [|u rest]; [intros [= <-]; done|].
    destruct (auto_analyze_video_with_llm _ _ _ _ u) as [o|e] eqn:Ho;
      rewrite ?bind_Ok, ?bind_Raise; [|done].
    intros [= <-]. do 6 right. split; [done|]. by exists u, rest, o.
  - intros [= <-]. done.
Qed.

End MainFacts.

(** X19.  A run of the program writes the data file only on one of
    the seven writing commands, given with at least the arguments it needs:
    [list], the usage texts and an unknown command never write. *)
Theorem main_saves_only_writing (L : Library)
    (json_loads : string → option JsonAnalysis) (w : World)
    (argv : list string) (r : Run) (d' : Document) :
  main L json_loads w argv = Ok r → run_saved r = Some d' →
  ∃ prog command args,
    argv = prog :: command :: args
    ∧ command ∈ writing_commands
    ∧ (arguments_needed command ≤ length args)%nat.
Proof.
  intros Hr Hd'.
  destruct (main_saved L json_loads w argv r d' Hr Hd')
    as (prog & command & args & -> & Hcases).
  exists prog, command, args. split; [done|].
  destruct Hcases as
    [(-> & u & rest & o & -> & _)
    |[(-> & _)
    |[(-> & u & rest & o & -> & _)
    |[(-> & u & s & rt & a & rest & o & -> & _)
    |[(-> & u & rest & o & -> & _)
    |[(-> & u & rest & o & -> & _)
    |(-> & u & rest & o & -> & _)]]]]]];
    (split; [unfold writing_commands; set_solver|vm_compute; lia]).
Qed.


Section MainKeeps.
Variable L : Library.
Variable json_loads : string → option JsonAnalysis.

Lemma playlists_rel_all_videos pls pls' :
  playlists_rel edit_step pls pls' →
  all_videos analysis_complete pls → all_videos analysis_complete pls'.
Proof.
  intros Hrel Hall pid pl' v' Hin Hv'.
  destruct (playlists_rel_elem _ _ _ _ _ _ Hrel Hin Hv') as (pl & v & Hp & Hv & Hstep).
  eapply edit_step_complete; [exact Hstep|]. by eapply Hall.
Qed.

Lemma add_keeps_analysis file youtube now u o d' :
  add_playlist L file youtube now u = Ok o → saved o = Some d' →
  all_videos analysis_complete (playlists (load_data file)) →
  all_videos analysis_complete (playlists d').
Proof.
  intros Ho Hd' Hall.
  destruct (add_playlist_inv L _ _ _ _ _ _ Ho Hd')
    as (pid & vs & _ & _ & _ & Hfetch & _ & -> & _).
  intros pid' pl' v Hin Hv. simpl in Hin.
  apply elem_of_dict_set in Hin as [[= -> ->]|Hin]; [|by eapply Hall].
  apply fresh_complete. simpl in Hv.
  eapply Forall_forall; [by eapply get_playlist_items_fresh|done].
Qed.

Lemma sync_keeps_analysis file youtube u o d' :
  sync_playlist L file youtube u = Ok o → saved o = Some d' →
  all_videos analysis_complete (playlists (load_data file)) →
  all_videos analysis_complete (playlists d').
Proof.
  intros Ho Hd' Hall.
  destruct (sync_playlist_saved L _ _ _ _ _ Ho Hd')
    as (pid & pl & ys & _ & Hpl & Hfetch & -> & _).
  intros pid' pl' v Hin Hv. simpl in Hin.
  apply elem_of_dict_set in Hin as [[= -> ->]|Hin]; [|by eapply Hall].
  simpl in Hv. apply merged_videos_origin in Hv as [(k & e & He & Hsame)|[Hy _]].
  - eapply same_but_metadata_complete; [exact Hsame|].
    eapply (Hall pid pl); [by apply dict_get_elem|by eapply list_elem_of_lookup_2].
  - apply fresh_complete.
    eapply Forall_forall; [by eapply get_playlist_items_fresh|done].
Qed.

End MainKeeps.

(** X20.  If every stored record has an analysis that is whole (its
    summary, rating and points all absent or all present), the same holds
    of the document any run of the program saves. *)
Theorem main_keeps_analysis_whole (L : Library)
    (json_loads : string → option JsonAnalysis) (w : World)
    (argv : list string) (r : Run) (d' : Document) :
  main L json_loads w argv = Ok r → run_saved r = Some d' →
  all_videos analysis_complete (playlists (load_data (world_file w))) →
  all_videos analysis_complete (playlists d').
Proof.
  intros Hr Hd' Hall.
  destruct (main_saved L json_loads w argv r d' Hr Hd')
    as (prog & command & args & -> & Hcases).
  destruct Hcases as
    [(_ & u & rest & o & _ & Hs & Ho)
    |[(_ & o & Hs & Ho)
    |[(_ & u & rest & o & _ & Hs & Ho)
    |[(_ & u & s & rt & a & rest & o & _ & Hs & Ho)
    |[(_ & u & rest & o & _ & Hs & Ho)
    |[(_ & u & rest & o & _ & Hs & Ho)
    |(_ & u & rest & o & _ & Hs & Ho)]]]]]].
  - by eapply add_keeps_analysis.
  - eapply playlists_rel_all_videos; [|done]. by eapply get_next_video_edits.
  - by eapply sync_keeps_analysis.
  - eapply playlists_rel_all_videos; [|done]. by eapply analyze_video_edits.
  - eapply playlists_rel_all_videos; [|done]. by eapply mark_fed_edits.
  - eapply playlists_rel_all_videos; [|done]. by eapply mark_fed_edits.
  - eapply playlists_rel_all_videos; [|done]. by eapply auto_analyze_edits.
Qed.

(** X21.  No run of the program removes a playlist or changes its URL
    or its date: a playlist of the data file is still there, under the same
    id, in whatever document the run saves.  Unless the command is [sync],
    its videos are the same in number and order, each one unchanged, marked
    fed, or given an analysis. *)
Theorem main_never_untracks (L : Library)
    (json_loads : string → option JsonAnalysis) (w : World)
    (argv : list string) (r : Run) (d' : Document) (pid : string)
    (pl : PlaylistRecord) :
  main L json_loads w argv = Ok r → run_saved r = Some d' →
  dict_get pid (playlists (load_data (world_file w))) = Some pl →
  ∃ pl', dict_get pid (playlists d') = Some pl'
         ∧ playlist_url pl' = playlist_url pl
         ∧ added_date pl' = added_date pl
         ∧ (argv !! 1 ≠ Some "sync"%string →
            Forall2 edit_step (videos pl) (videos pl')).
Proof.
  intros Hr Hd' Hpl.
  assert (∀ vs : list VideoRecord, Forall2 edit_step vs vs) as Hrefl.
  { intros vs. apply Forall2_same_length_lookup_2; [done|].
    intros i x y Hx Hy. rewrite Hx in Hy. injection Hy as <-. by left. }
  destruct (main_saved L json_loads w argv r d' Hr Hd')
    as (prog & command & args & -> & Hcases).
  destruct Hcases as
    [(_ & u & rest & o & _ & Hs & Ho)
    |[(_ & o & Hs & Ho)
    |[(-> & u & rest & o & _ & Hs & Ho)
    |[(_ & u & s & rt & a & rest & o & _ & Hs & Ho)
    |[(_ & u & rest & o & _ & Hs & Ho)
    |[(_ & u & rest & o & _ & Hs & Ho)
    |(_ & u & rest & o & _ & Hs & Ho)]]]]]].
  - destruct (add_playlist_inv L _ _ _ _ _ _ Ho Hs)
      as (pid' & vs & _ & _ & Hnew & _ & _ & -> & _).
    exists pl. simpl. rewrite dict_get_set_ne by congruence. by repeat split.
  - destruct (playlists_rel_dict_get _ _ _ _ _
                (get_next_video_edits L _ _ _ _ _ Ho Hs) Hpl) as (pl' & ? & ? & ? & ?).
    by exists pl'.
  - destruct (sync_playlist_saved L _ _ _ _ _ Ho Hs)
      as (pid' & pl0 & ys & _ & Hpl0 & _ & -> & _). simpl.
    destruct (decide (pid = pid')) as [->|Hne].
    + rewrite dict_get_set. eexists. split; [done|].
      assert (pl0 = pl) as -> by congruence. by repeat split.
    + rewrite dict_get_set_ne by done. exists pl. by repeat split.
  - destruct (playlists_rel_dict_get _ _ _ _ _
                (proj1 (analyze_video_edits L _ _ _ _ _ _ _ Ho Hs)) Hpl)
      as (pl' & ? & ? & ? & ?). by exists pl'.
  - destruct (playlists_rel_dict_get _ _ _ _ _
                (proj1 (mark_fed_edits L _ _ _ _ _ Ho Hs)) Hpl)
      as (pl' & ? & ? & ? & ?). by exists pl'.
  - destruct (playlists_rel_dict_get _ _ _ _ _
                (proj1 (mark_fed_edits L _ _ _ _ _ Ho Hs)) Hpl)
      as (pl' & ? & ? & ? & ?). by exists pl'.
  - destruct (playlists_rel_dict_get _ _ _ _ _
                (proj1 (auto_analyze_edits L _ _ _ _ _ _ Ho Hs)) Hpl)
      as (pl' & ? & ? & ? & ?). by exists pl'.
Qed.

(** X22.  The document a run saves carries today's date as
    [last_fed_date] when the command is [next], and the date of the data
    file unchanged for every other command. *)
Theorem main_last_fed_date (L : Library)
    (json_loads : string → option JsonAnalysis) (w : World)
    (argv : list string) (r : Run) (d' : Document) :
  main L json_loads w argv = Ok r → run_saved r = Some d' →
  last_fed_date d'
  = if bool_decide (argv !! 1 = Some "next"%string)
    then Some (isoformat (world_today w))
    else last_fed_date (load_data (world_file w)).
Proof.
  intros Hr Hd'.
  destruct (main_saved L json_loads w argv r d' Hr Hd')
    as (prog & command & args & -> & Hcases).
  destruct Hcases as
    [(-> & u & rest & o & _ & Hs & Ho)
    |[(-> & o & Hs & Ho)
    |[(-> & u & rest & o & _ & Hs & Ho)
    |[(-> & u & s & rt & a & rest & o & _ & Hs & Ho)
    |[(-> & u & rest & o & _ & Hs & Ho)
    |[(-> & u & rest & o & _ & Hs & Ho)
    |(-> & u & rest & o & _ & Hs & Ho)]]]]]]; simpl.
  - destruct (add_playlist_inv L _ _ _ _ _ _ Ho Hs)
      as (pid' & vs & _ & _ & _ & _ & _ & -> & _). done.
  - revert Ho. unfold get_next_video, get_next_video_limit.
    destruct (already_fed_today L _ _) as [[|]|e];
      rewrite ?bind_Ok, ?bind_Raise; [by intros [= <-]| |done].
    destruct (unfed_videos _) as [|c cs]; [by intros [= <-]|].
    destruct (sorted_unfed_videos L _) as [l|e];
      rewrite ?bind_Ok, ?bind_Raise; [|done].
    intros [= <-]. simpl in Hs. by injection Hs as <-.
  - destruct (sync_playlist_saved L _ _ _ _ _ Ho Hs)
      as (pid' & pl0 & ys & _ & _ & _ & -> & _). done.
  - by destruct (analyze_video_edits L _ _ _ _ _ _ _ Ho Hs).
  - by destruct (mark_fed_edits L _ _ _ _ _ Ho Hs).
  - by destruct (mark_fed_edits L _ _ _ _ _ Ho Hs).
  - by destruct (auto_analyze_edits L _ _ _ _ _ _ Ho Hs).
Qed.

Lemma said_not_usage (ms : list Message) p : p ∈ Said <$> ms → ¬ is_usage p.
Proof. intros (m & -> & _)%list_elem_of_fmap Hu. exact Hu. Qed.

Lemma listed_not_usage (ls : list ListLine) p : p ∈ Listed <$> ls → ¬ is_usage p.
Proof. intros (m & -> & _)%list_elem_of_fmap Hu. exact Hu. Qed.

Section Usage.
Variable L : Library.
Variable json_loads : string → option JsonAnalysis.

(** A run that prints a line of [main] itself was given too little. *)
Lemma main_usage_inv w argv r p :
  main L json_loads w argv = Ok r → p ∈ run_printed r → is_usage p →
  (length argv < 2)%nat
  ∨ ∃ prog command args,
      argv = prog :: command :: args
      ∧ ((command ∈ writing_commands
          ∧ (length args < arguments_needed command)%nat)
         ∨ command ∉ "list"%string :: writing_commands).
Proof.
  assert (∀ (c : pyresult Outcome),
            (c ≫= λ o, Ok (of_outcome o)) = Ok r → ¬ (p ∈ run_printed r ∧ is_usage p))
    as Hcmd.
  { intros [o|e]; [|done]. rewrite bind_Ok. intros [= <-] [Hp Hu].
    by apply (said_not_usage _ _ Hp). }
  unfold main. destruct argv as [|prog [|command args]]; [simpl; lia..|].
  intros Hr Hp Hu. right. exists prog, command, args. split; [done|].
  revert Hr. unfold writing_commands.
  repeat case_bool_decide; subst.
  all: try (destruct args as [|a1 args];
            [intros _; left; split;
               [apply (bool_decide_unpack _); vm_compute; exact I
               |vm_compute; lia]
            |intros Hr; by destruct (Hcmd _ Hr)]).
  - destruct (list_playlists L (world_file w)) as [lines|e]; [|done].
    rewrite bind_Ok. intros [= <-]. by destruct (listed_not_usage _ _ Hp).
  - intros Hr; by destruct (Hcmd _ Hr).
  - destruct args as [|a1 [|a2 [|a3 [|a4 args]]]];
      try (intros _; left; split;
             [apply (bool_decide_unpack _); vm_compute; exact I|vm_compute; lia]).
    intros Hr; by destruct (Hcmd _ Hr).
  - intros _. right. rewrite !not_elem_of_cons. repeat split; try done.
    apply not_elem_of_nil.
Qed.

End Usage.

(** X23.  The lines of [main] itself.  Without a command the program
    prints the general usage; a writing command with fewer arguments than
    it needs prints the usage of that command; a command that is neither
    [list] nor a writing command is reported as unknown.  Each of these
    runs prints that one line and writes nothing.  Conversely, a run that
    prints a usage text or reports an unknown command is one of these three
    and has written nothing: such a line never comes with the effect of a
    command. *)
Theorem main_usage (L : Library)
    (json_loads : string → option JsonAnalysis) (w : World)
    (prog command : string) (args : list string) :
  (main L json_loads w []
     = Ok {| run_saved := None; run_printed := [UsageAll] |}
   ∧ main L json_loads w [prog]
     = Ok {| run_saved := None; run_printed := [UsageAll] |})
  ∧ (command ∈ writing_commands →
     (length args < arguments_needed command)%nat →
     main L json_loads w (prog :: command :: args)
     = Ok {| run_saved := None; run_printed := [UsageOf command] |})
  ∧ (command ∉ "list"%string :: writing_commands →
     main L json_loads w (prog :: command :: args)
     = Ok {| run_saved := None; run_printed := [UnknownCommand command] |})
  ∧ (∀ argv r p,
       main L json_loads w argv = Ok r → p ∈ run_printed r → is_usage p →
       run_saved r = None
       ∧ ((length argv < 2)%nat
          ∨ ∃ prog' command' args',
              argv = prog' :: command' :: args'
              ∧ ((command' ∈ writing_commands
                  ∧ (length args' < arguments_needed command')%nat)
                 ∨ command' ∉ "list"%string :: writing_commands))).
Proof.
  assert (main L json_loads w [] = Ok {| run_saved := None; run_printed := [UsageAll] |}
          ∧ main L json_loads w [prog]
            = Ok {| run_saved := None; run_printed := [UsageAll] |}) as Hnone by done.
  assert (command ∈ writing_commands →
          (length args < arguments_needed command)%nat →
          main L json_loads w (prog :: command :: args)
          = Ok {| run_saved := None; run_printed := [UsageOf command] |}) as Hfew.
  { intros Hc Hlen. unfold writing_commands in Hc.
    repeat (apply elem_of_cons in Hc as [->|Hc]);
      [..|by apply elem_of_nil in Hc];
      vm_compute in Hlen;
      try (destruct args as [|a1 [|a2 [|a3 [|a4 args]]]]; simpl in Hlen;
           first [lia | reflexivity]). }
  assert (∀ prog command args, command ∉ "list"%string :: writing_commands →
          main L json_loads w (prog :: command :: args)
          = Ok {| run_saved := None; run_printed := [UnknownCommand command] |})
    as Hunknown.
  { intros prog' command' args' Hc. unfold writing_commands in Hc.
    apply not_elem_of_cons in Hc as [? Hc].
    repeat (apply not_elem_of_cons in Hc as [? Hc]).
    unfold main. by rewrite !bool_decide_eq_false_2. }
  split; [done|]. split; [done|]. split; [by apply Hunknown|].
  intros argv r p Hr Hp Hu.
  destruct (main_usage_inv L json_loads w argv r p Hr Hp Hu)
    as [Hshort|(prog' & command' & args' & -> & Hcase)].
  - split; [|by left].
    destruct argv as [|a [|b argv]]; [| |simpl in Hshort; lia];
      revert Hr; by intros [= <-].
  - split; [|right; by exists prog', command', args'].
    destruct Hcase as [[Hc Hlen]|Hc].
    + clear Hfew. revert Hr.
      assert (main L json_loads w (prog' :: command' :: args')
              = Ok {| run_saved := None; run_printed := [UsageOf command'] |}) as ->.
      { unfold writing_commands in Hc.
        repeat (apply elem_of_cons in Hc as [->|Hc]);
          [..|by apply elem_of_nil in Hc];
          vm_compute in Hlen;
          try (destruct args' as [|a1 [|a2 [|a3 [|a4 args']]]]; simpl in Hlen;
               first [lia | reflexivity]). }
      by intros [= <-].
    + rewrite (Hunknown _ _ _ Hc) in Hr. by injection Hr as <-.
Qed.


(** ** The fetch as a whole *)

Section FetchAll.
Variable L : Library.

Lemma videos_of_items_each items :
  ∃ vs, videos_of_items L items = Ok vs
        ∧ Forall2 (fun item v => video_of_item L item = Ok v) items vs.
Proof.
  induction items as [|item items (vs & IH & Hall)]; simpl.
  - exists []. split; [done|constructor].
  - destruct (video_of_item_returns L item) as [u Hu]. rewrite Hu, bind_Ok, IH, bind_Ok.
    eexists. split; [done|]. by constructor.
Qed.

Lemma fetch_batches_answers youtube answer bs :
  (∀ b, b ∈ bs → videos_list youtube b = inr (answer b)) →
  ∃ vs, fetch_batches L youtube bs = inr vs
        ∧ Forall2 (fun item v => video_of_item L item = Ok v)
                  (concat (answer <$> bs)) vs.
Proof.
  induction bs as [|b bs IH]; intros Hans; simpl.
  - exists []. split; [done|constructor].
  - rewrite (Hans b (list_elem_of_here _ _)).
    destruct (videos_of_items_each (answer b)) as (vs & -> & Hvs).
    destruct IH as (vs' & -> & Hvs').
    { intros b' Hb'. apply Hans. by apply list_elem_of_further. }
    exists (vs ++ vs'). split; [done|]. by apply Forall2_app.
Qed.

Lemma fetch_batches_fails youtube bs b e :
  b ∈ bs → videos_list youtube b = inl e →
  ∃ e', fetch_batches L youtube bs = inl (ApiFailed e').
Proof.
  induction bs as [|b0 bs IH]; intros Hb He; [by apply elem_of_nil in Hb|].
  simpl. destruct (videos_list youtube b0) as [e0|items] eqn:H0; [by eauto|].
  destruct (videos_of_items_each items) as (vs & -> & _).
  apply elem_of_cons in Hb as [->|Hb]; [congruence|].
  destruct (IH Hb He) as [e' ->]. by eauto.
Qed.

End FetchAll.

(** X24.  The fetch asks [videos().list] once for each batch of 50
    of the video ids of all pages, entries without video id left out.  When
    every request succeeds, the result holds one record per item of the
    answers, batch after batch, item after item; when the request of some
    batch fails, the fetch fails with an API error. *)
Theorem get_playlist_items_answers (L : Library) (youtube : YouTube)
    (pages : list (list (option string))) :
  playlist_pages youtube = inr pages →
  (∀ answer,
     (∀ b, b ∈ batches 50 (omap id (concat pages)) →
           videos_list youtube b = inr (answer b)) →
     ∃ vs, get_playlist_items L youtube = inr vs
           ∧ Forall2 (fun item v => video_of_item L item = Ok v)
                     (concat (answer <$> batches 50 (omap id (concat pages))))
                     vs)
  ∧ (∀ b e, b ∈ batches 50 (omap id (concat pages)) →
            videos_list youtube b = inl e →
            ∃ e', get_playlist_items L youtube = inl (ApiFailed e')).
Proof.
  intros Hpages. unfold get_playlist_items. rewrite Hpages. split.
  - intros answer Hans. by apply fetch_batches_answers.
  - intros b e Hb He. by eapply fetch_batches_fails.
Qed.


(** ** A watch URL opened from a playlist *)

Lemma mem_app c a b : Str.mem c (a +:+ b) = Str.mem c a || Str.mem c b.
Proof.
  induction a as [|d a IH]; [done|].
  change (String d a +:+ b) with (String d (a +:+ b)). simpl.
  by rewrite IH, orb_assoc.
Qed.

Lemma split_app c a b :
  Str.mem c a = false → Str.split c (a +:+ String c b) = a :: Str.split c b.
Proof.
  induction a as [|d a IH].
  - intros _. change (EmptyString +:+ String c b) with (String c b).
    simpl. by rewrite Ascii.eqb_refl.
  - intros [Hd Ha]%mem_cons_false.
    change (String d a +:+ String c b) with (String d (a +:+ String c b)).
    simpl. by rewrite Hd, (IH Ha).
Qed.

Section InPlaylist.
Variable L : Library.
Variables id pl : string.
Hypothesis Hid : is_video_id id = true.
Hypothesis Hpl : is_video_id pl = true.

Local Abbreviation rest := (id +:+ "&list=" +:+ pl)%string.

Lemma rest_free c :
  is_id_char c = false → Ascii.eqb c "&" = false → Str.mem c rest = false.
Proof using Hid Hpl.
  intros Hc Hamp. rewrite mem_app, (id_free id Hid c Hc).
  change ("&list=" +:+ pl)%string
    with (String "&" (String "l" (String "i" (String "s" (String "t" (String "=" pl)))))).
  simpl. rewrite (id_free pl Hpl c Hc).
  destruct c as [[] [] [] [] [] [] [] []];
    first [ reflexivity
          | vm_compute in Hc; discriminate Hc
          | vm_compute in Hamp; discriminate Hamp ].
Qed.

Lemma rest_split :
  Str.split "&" rest = [id; ("list=" +:+ pl)%string].
Proof using Hid Hpl.
  change (id +:+ "&list=" +:+ pl)%string
    with (id +:+ String "&" ("list=" +:+ pl))%string.
  rewrite split_app by (by apply (id_free id Hid)).
  f_equal. cbv [String.append]. simpl.
  by rewrite (split_absent _ pl) by (by apply (id_free pl Hpl)).
Qed.

Lemma urlparse_in_playlist :
  urlparse L ("https://www.youtube.com/watch?v=" +:+ rest) =
  Ok {| scheme := "https"; netloc := "www.youtube.com"; path := "/watch";
        params := ""; query := "v=" +:+ rest; fragment := "" |}.
Proof using Hid Hpl.
  generalize rest_free. generalize rest. intros X HX.
  unfold urlparse, urlsplit. cbv [String.append]. simpl.
  rewrite !(remove_absent _ X) by (by apply HX). simpl.
  rewrite (cut_absent _ X) by (by apply HX). reflexivity.
Qed.

Lemma parse_qs_in_playlist :
  parse_qs L ("v=" +:+ rest)
  = <["list"%string := [pl]]> (<["v"%string := [id]]> ∅).
Proof using Hid Hpl.
  unfold parse_qs, parse_qsl.
  change ("v=" +:+ rest)%string with (("v=" +:+ id) +:+ String "&" ("list=" +:+ pl))%string.
  rewrite split_app.
  2:{ cbv [String.append]. simpl. by apply (id_free id Hid). }
  assert (Str.split "&" ("list=" +:+ pl) = [("list=" +:+ pl)%string]) as ->.
  { cbv [String.append]. simpl.
    by rewrite (split_absent _ pl) by (by apply (id_free pl Hpl)). }
  assert (∀ name s, is_video_id s = true →
            Str.mem "%" name = false → Str.mem "+" name = false →
            Str.mem "=" name = false →
            parse_field L (name +:+ String "=" s) = Some (name, s)) as Hfield.
  { intros name s Hs H1 H2 H3. unfold parse_field.
    assert (Str.cut "=" (name +:+ String "=" s) = Some (name, s)) as ->.
    { clear H1 H2. induction name as [|d name IH].
      - change (EmptyString +:+ String "=" s)%string with (String "=" s). done.
      - apply mem_cons_false in H3 as [Hd H3].
        change (String d name +:+ String "=" s)%string
          with (String d (name +:+ String "=" s)).
        simpl. by rewrite Hd, (IH H3). }
    rewrite (id_nonempty s Hs). unfold unquote.
    rewrite !replace_absent by (done || by apply (id_free s Hs)).
    by rewrite H1, (id_free s Hs "%"). }
  change ("v=" +:+ id)%string with ("v" +:+ String "=" id)%string.
  change ("list=" +:+ pl)%string with ("list" +:+ String "=" pl)%string.
  cbn [omap list_omap].
  rewrite (Hfield "v"%string id Hid), (Hfield "list"%string pl Hpl) by done.
  simpl. rewrite lookup_empty, lookup_insert_ne by done.
  by rewrite lookup_empty.
Qed.

Lemma normalize_in_playlist :
  normalize_youtube_url L ("https://www.youtube.com/watch?v=" +:+ rest)
  = Ok (canonical id).
Proof using Hid Hpl.
  unfold normalize_youtube_url. rewrite urlparse_in_playlist, bind_Ok.
  rewrite bool_decide_eq_true_2 by (simpl; set_solver).
  rewrite bool_decide_eq_true_2 by done.
  unfold first_value. simpl query. rewrite parse_qs_in_playlist.
  rewrite lookup_insert_ne, lookup_insert_eq by done.
  simpl. by rewrite (id_nonempty id Hid).
Qed.

Lemma get_playlist_id_in_playlist :
  get_playlist_id L ("https://www.youtube.com/watch?v=" +:+ rest) = Ok (Some pl).
Proof using Hid Hpl.
  unfold get_playlist_id. rewrite urlparse_in_playlist, bind_Ok.
  simpl query. rewrite parse_qs_in_playlist, lookup_insert_eq.
  rewrite bool_decide_eq_true_2 by eauto. done.
Qed.

End InPlaylist.

(** X25.  A watch URL that also names a playlist
    ([watch?v=ID&list=PL]) is normalized to the canonical URL of the video,
    and [get_playlist_id] reads the playlist from it; the canonical URL
    itself names no playlist. *)
Theorem watch_url_in_playlist (L : Library) (id pl : string) :
  is_video_id id = true → is_video_id pl = true →
  normalize_youtube_url L
    ("https://www.youtube.com/watch?v=" +:+ id +:+ "&list=" +:+ pl)
    = Ok (canonical id)
  ∧ get_playlist_id L
      ("https://www.youtube.com/watch?v=" +:+ id +:+ "&list=" +:+ pl)
    = Ok (Some pl)
  ∧ get_playlist_id L (canonical id) = Ok None.
Proof.
  intros Hid Hpl. split; [by apply normalize_in_playlist|].
  split; [by apply get_playlist_id_in_playlist|].
  unfold get_playlist_id.
  rewrite (urlparse_watch L id Hid : urlparse L (canonical id) = _), bind_Ok.
  simpl query.
  assert (parse_qs L ("v=" +:+ id) !! "list"%string = None) as Hnone.
  { pose proof (first_value_v L id Hid) as Hv. revert Hv.
    unfold first_value, parse_qs, parse_qsl, parse_field, unquote.
    cbv [String.append]. simpl.
    rewrite (split_absent _ id) by (by apply (id_free id Hid)). simpl.
    rewrite (id_nonempty id Hid).
    rewrite (replace_absent _ _ id) by (by apply (id_free id Hid)).
    rewrite (id_free id Hid "%") by done. simpl.
    rewrite lookup_empty. intros _. by rewrite lookup_insert_ne, lookup_empty. }
  rewrite Hnone.
  rewrite bool_decide_eq_false_2 by (by intros [? ?]).
  rewrite andb_false_r. by destruct (Str.contains "youtu.be" _).
Qed.


(** ** Stripping and the actionable points *)

Lemma rev_app_spec s1 s2 : String.rev_app s1 s2 = String.rev s1 +:+ s2.
Proof.
  unfold String.rev. revert s2. induction s1 as [|a s1 IH]; intros s2; [done|].
  simpl. rewrite (IH (String a s2)), (IH (String a EmptyString)).
  generalize (String.rev_app s1 EmptyString). intros r.
  induction r as [|d r IHr]; [done|].
  change (String d r +:+ String a s2) with (String d (r +:+ String a s2)).
  change ((String d r +:+ String a EmptyString) +:+ s2)
    with (String d ((r +:+ String a EmptyString) +:+ s2)).
  by rewrite IHr.
Qed.

Lemma rev_cons a s : String.rev (String a s) = String.rev s +:+ String a EmptyString.
Proof. unfold String.rev at 1. simpl. apply rev_app_spec. Qed.

Lemma app_empty_r s : s +:+ EmptyString = s.
Proof.
  induction s as [|a s IH]; [done|].
  change (String a s +:+ EmptyString) with (String a (s +:+ EmptyString)).
  by rewrite IH.
Qed.

Lemma app_assoc_string a b c : (a +:+ b) +:+ c = a +:+ (b +:+ c).
Proof.
  induction a as [|d a IH]; [done|].
  change ((String d a +:+ b) +:+ c) with (String d ((a +:+ b) +:+ c)).
  by rewrite IH.
Qed.

Lemma rev_app_distr a b : String.rev (a +:+ b) = String.rev b +:+ String.rev a.
Proof.
  induction a as [|d a IH].
  - change (EmptyString +:+ b) with b. by rewrite app_empty_r.
  - change (String d a +:+ b) with (String d (a +:+ b)).
    by rewrite !rev_cons, IH, app_assoc_string.
Qed.

Lemma rev_involutive s : String.rev (String.rev s) = s.
Proof.
  induction s as [|a s IH]; [done|].
  by rewrite rev_cons, rev_app_distr, IH.
Qed.

Lemma mem_rev c s : Str.mem c (String.rev s) = Str.mem c s.
Proof.
  induction s as [|a s IH]; [done|].
  rewrite rev_cons, mem_app, IH. simpl. by rewrite orb_false_r, orb_comm.
Qed.

(** What is stripped is a prefix, and what is left does not start with
    ASCII white space. *)
Lemma lstrip_spec b s :
  (∃ p, s = p +:+ Strip.lstrip b s) ∧ starts_clean (Strip.lstrip b s).
Proof.
  remember (String.length s) as n eqn:Hn.
  revert s Hn. induction n as [n IH] using lt_wf_ind. intros s ->.
  assert (∀ p t, s = p +:+ t → (String.length t < String.length s)%nat →
            (∃ p', s = p' +:+ Strip.lstrip b t) ∧ starts_clean (Strip.lstrip b t))
    as Hrec.
  { intros p t -> Hlt. destruct (IH _ Hlt t eq_refl) as [[q Hq] Hclean].
    split; [|done]. exists (p +:+ q). by rewrite app_assoc_string, <- Hq. }
  assert ((∃ p, s = p +:+ s) ∧ (∀ a s1, s = String a s1 → Strip.space1 a = false)
          → (∃ p, s = p +:+ s) ∧ starts_clean s) as Hstop by done.
  destruct s as [|a s1]; [split; [by exists EmptyString|by intros ? ? ?]|].
  simpl. destruct (Strip.space1 a) eqn:Ha.
  { apply (Hrec (String a EmptyString) s1); [done|simpl; lia]. }
  assert ((∃ p, String a s1 = p +:+ String a s1) ∧ starts_clean (String a s1))
    as Hkeep.
  { split; [by exists EmptyString|]. by intros c t [= <- <-]. }
  destruct s1 as [|c s2]; [done|].
  destruct (if b then Strip.space2 c a else Strip.space2 a c).
  { apply (Hrec (String a (String c EmptyString)) s2); [done|simpl; lia]. }
  destruct s2 as [|d s3]; [done|].
  destruct (if b then Strip.space3 d c a else Strip.space3 a c d); [|done].
  apply (Hrec (String a (String c (String d EmptyString))) s3); [done|simpl; lia].
Qed.

Lemma split_no_sep c s x : x ∈ Str.split c s → Str.mem c x = false.
Proof.
  revert x. induction s as [|d s IH]; intros x; simpl.
  - by intros ->%list_elem_of_singleton.
  - destruct (Ascii.eqb d c) eqn:Hd.
    + intros [->|Hx]%elem_of_cons; [done|by apply IH].
    + destruct (Str.split c s) as [|h t] eqn:Hs.
      * intros ->%list_elem_of_singleton. simpl. by rewrite Hd.
      * intros [->|Hx]%elem_of_cons.
        -- simpl. rewrite Hd. apply IH, list_elem_of_here.
        -- apply IH. by apply list_elem_of_further.
Qed.

Lemma mem_strip c s : Str.mem c s = false → Str.mem c (Strip.strip s) = false.
Proof.
  intros Hs. unfold Strip.strip. rewrite mem_rev.
  destruct (lstrip_spec true (String.rev (Strip.lstrip false s))) as [[p Hp] _].
  destruct (lstrip_spec false s) as [[q Hq] _].
  assert (Str.mem c (String.rev (Strip.lstrip false s)) = false) as Hr.
  { rewrite mem_rev. rewrite Hq, mem_app in Hs. by apply orb_false_elim in Hs as [_ ?]. }
  rewrite Hp, mem_app in Hr. by apply orb_false_elim in Hr as [_ ?].
Qed.

Lemma strip_clean s :
  starts_clean (Strip.strip s) ∧ starts_clean (String.rev (Strip.strip s)).
Proof.
  unfold Strip.strip. rewrite rev_involutive.
  destruct (lstrip_spec true (String.rev (Strip.lstrip false s))) as [[p Hp] Hend].
  destruct (lstrip_spec false s) as [_ Hstart].
  split; [|done].
  set (t := Strip.lstrip false s) in *.
  set (r := Strip.lstrip true (String.rev t)) in *.
  assert (t = String.rev r +:+ String.rev p) as Ht.
  { by rewrite <- rev_app_distr, <- Hp, rev_involutive. }
  intros c x Hx. apply (Hstart c (x +:+ String.rev p)).
  by rewrite Ht, Hx.
Qed.

(** X26.  Every actionable point stored by [analyze] is one of the
    pieces of the argument between semicolons, stripped: it is not empty,
    holds no semicolon, and neither begins nor ends with an ASCII
    white-space character. *)
Theorem parse_points_items (actionable_points_str p : string) :
  p ∈ parse_points actionable_points_str →
  Str.nonempty p = true
  ∧ Str.mem ";" p = false
  ∧ starts_clean p ∧ starts_clean (String.rev p)
  ∧ ∃ ap, ap ∈ Str.split ";" actionable_points_str ∧ p = Strip.strip ap.
Proof.
  unfold parse_points. intros (ap & Hap & Hp)%list_elem_of_omap.
  destruct (Str.nonempty (Strip.strip ap)) eqn:Hne; [|done].
  injection Hp as <-. split; [done|]. split.
  - apply mem_strip. by eapply split_no_sep.
  - destruct (strip_clean ap). repeat split; try done. by exists ap.
Qed.

Lemma startswith_prefix p r : Str.startswith p (p +:+ r) = true.
Proof.
  induction p as [|a p IH]; [by destruct r|].
  change (String a p +:+ r) with (String a (p +:+ r)). simpl.
  by rewrite Ascii.eqb_refl.
Qed.

Lemma length_app_string a b :
  String.length (a +:+ b) = (String.length a + String.length b)%nat.
Proof.
  induction a as [|d a IH]; [done|].
  change (String d a +:+ b) with (String d (a +:+ b)). simpl. by rewrite IH.
Qed.

Lemma substring_prefix b s :
  String.substring 0 (String.length b) (b +:+ s) = b.
Proof.
  induction b as [|d b IH]; [by destruct s|].
  change (String d b +:+ s) with (String d (b +:+ s)). simpl. by rewrite IH.
Qed.

(** X27.  An answer of the model wrapped in a [json] code fence is
    read as what stands between the fences, stripped of surrounding white
    space; an answer that does not begin with the opening fence, or does
    not end with the closing one, is read as it is. *)
Theorem strip_fence_unwraps (body llm_output : string) :
  strip_fence ("```json" +:+ body +:+ "```") = Strip.strip body
  ∧ (Str.startswith "```json" llm_output = false → strip_fence llm_output = llm_output)
  ∧ (endswith "```" llm_output = false → strip_fence llm_output = llm_output).
Proof.
  split; [|split].
  - unfold strip_fence.
    assert (Str.startswith "```json" ("```json" +:+ body +:+ "```") = true) as ->.
    { apply startswith_prefix. }
    assert (endswith "```" ("```json" +:+ body +:+ "```") = true) as ->.
    { unfold endswith. rewrite !rev_app_distr, app_assoc_string. apply startswith_prefix. }
    simpl andb. cbv iota. rewrite !length_app_string.
    change (String.length "```json") with 7%nat.
    change (String.length "```") with 3%nat.
    replace (7 + (String.length body + 3) - 3 - 7)%nat with (String.length body) by lia.
    change ("```json" +:+ body +:+ "```")
      with (String "`" (String "`" (String "`" (String "j" (String "s" (String "o"
             (String "n" (body +:+ "```")))))))).
    cbn [String.substring]. by rewrite substring_prefix.
  - intros H. unfold strip_fence. by rewrite H.
  - intros H. unfold strip_fence. by rewrite H, andb_false_r.
Qed.


(** ** The properties on sample inputs *)

Lemma clean_description_flat_witness :
  clean_description "one line" = "one line"%string.
Proof.
  exact (proj2 (proj2 (proj2 (proj2 (clean_description_flat "one line"))))
               eq_refl eq_refl).
Defined.

Lemma video_of_item_canonical_witness :
  ∃ v, video_of_item Sample.library
         {| item_id := "dQw4w9WgXcQ"; item_publishedAt := "2024-02-02T00:00:00Z";
            item_title := "t"; item_description := "d" |} = Ok v
       ∧ url v = canonical "dQw4w9WgXcQ"
       ∧ normalize_youtube_url Sample.library (url v) = Ok (url v).
Proof.
  apply (video_of_item_canonical Sample.library
           {| item_id := "dQw4w9WgXcQ"; item_publishedAt := "2024-02-02T00:00:00Z";
              item_title := "t"; item_description := "d" |}).
  reflexivity.
Defined.

Lemma add_playlist_saves_only_new_witness :
  ∃ o, add_playlist Sample.library None Sample.youtube "2024-03-07T10:00:00"
         "https://www.youtube.com/playlist?list=PL1" = Ok o
       ∧ ∀ d', saved o = Some d' →
           ∃ pid vs,
             get_playlist_id Sample.library
               "https://www.youtube.com/playlist?list=PL1" = Ok (Some pid)
             ∧ dict_get pid (playlists (load_data None)) = None
             ∧ get_playlist_items Sample.library Sample.youtube = inr vs
             ∧ vs ≠ [].
Proof.
  eexists. split; [reflexivity|].
  refine (proj1 (add_playlist_saves_only_new Sample.library None Sample.youtube
                   "2024-03-07T10:00:00"
                   "https://www.youtube.com/playlist?list=PL1" _ _)).
  reflexivity.
Defined.

Lemma add_playlist_twice_witness :
  ∃ o d', add_playlist Sample.library None Sample.youtube "2024-03-07T10:00:00"
            "https://www.youtube.com/playlist?list=PL1" = Ok o
          ∧ saved o = Some d'
          ∧ add_playlist Sample.library (Some d') Invocation.failing
              "2024-03-08T10:00:00" "https://www.youtube.com/playlist?list=PL1"
            = Ok (no_save [ErrAlreadyTracked
                             "https://www.youtube.com/playlist?list=PL1"]).
Proof.
  eexists _, _. split; [reflexivity|]. split; [reflexivity|].
  apply (add_playlist_twice Sample.library None Sample.youtube Invocation.failing
           "2024-03-07T10:00:00" "2024-03-08T10:00:00"
           "https://www.youtube.com/playlist?list=PL1" _ _ eq_refl eq_refl).
Defined.


Lemma sample_tracked_bbb :
  is_tracked (canonical "bbb") (playlists (load_data (Some Sample.tracked))).
Proof.
  eexists "PL1"%string, _, _. split; [apply list_elem_of_here|].
  split; [apply list_elem_of_further, list_elem_of_here|reflexivity].
Defined.

Lemma analyze_video_writes_witness :
  ∃ pre pid pl post vpre w vpost,
    first_match (has_url (canonical "bbb"))
                (playlists (load_data (Some Sample.tracked)))
                pre pid pl post vpre w vpost
    ∧ analyze_video Sample.library (Some Sample.tracked) "https://youtu.be/bbb"
        "a talk" "great" "try it; ;measure"
      = Ok {| saved :=
                Some {| playlists :=
                          with_match (set_analysis "a talk" "great"
                                        (parse_points "try it; ;measure"))
                                     pre pid pl post vpre w vpost;
                        last_fed_date := last_fed_date (load_data (Some Sample.tracked)) |};
              printed := [AnalysisSaved (canonical "bbb")] |}
    ∧ ("great"%string ∉ rating_names →
       usefulness_rank (set_analysis "a talk" "great"
                          (parse_points "try it; ;measure") w) = 6).
Proof.
  apply (analyze_video_writes Sample.library (Some Sample.tracked)
           "https://youtu.be/bbb" (canonical "bbb")).
  - reflexivity.
  - exact sample_tracked_bbb.
Defined.

Lemma watch_and_skip_mark_fed_witness :
  ∃ pre pid pl post vpre w vpost d',
    first_match (has_url (canonical "bbb"))
                (playlists (load_data (Some Sample.tracked)))
                pre pid pl post vpre w vpost
    ∧ d' = {| playlists := with_match set_fed pre pid pl post vpre w vpost;
              last_fed_date := last_fed_date (load_data (Some Sample.tracked)) |}
    ∧ mark_video_watched Sample.library (Some Sample.tracked) "https://youtu.be/bbb"
      = Ok {| saved := Some d'; printed := [MarkedWatched (canonical "bbb")] |}
    ∧ skip_video Sample.library (Some Sample.tracked) "https://youtu.be/bbb"
      = Ok {| saved := Some d'; printed := [Skipped (canonical "bbb")] |}
    ∧ mark_video_watched Sample.library (Some d') "https://youtu.be/bbb"
      = Ok {| saved := Some d'; printed := [MarkedWatched (canonical "bbb")] |}.
Proof.
  apply (watch_and_skip_mark_fed Sample.library (Some Sample.tracked)
           "https://youtu.be/bbb" (canonical "bbb")).
  - reflexivity.
  - exact sample_tracked_bbb.
Defined.


Lemma auto_analyze_outcomes_witness :
  ∃ pre pid pl post vpre w vpost,
    first_match (has_url (canonical "bbb"))
                (playlists (load_data (Some Sample.tracked)))
                pre pid pl post vpre w vpost
    ∧ auto_analyze_video_with_llm Sample.library Sample.json_loads
        (Some Sample.tracked) LlmFailed "https://youtu.be/bbb"
      = Ok (no_save [AutoAnalyzing (canonical "bbb"); ErrLlm (canonical "bbb")]).
Proof.
  apply (auto_analyze_outcomes Sample.library Sample.json_loads
           (Some Sample.tracked) LlmFailed "https://youtu.be/bbb" "bbb").
  - reflexivity.
  - reflexivity.
  - exact sample_tracked_bbb.
Defined.

Lemma sync_reports_new_witness :
  ∃ pl ys,
    dict_get "PL1" (playlists (load_data (Some Sample.tracked))) = Some pl
    ∧ get_playlist_items Sample.library Sample.youtube = inr ys
    ∧ ∃ o d' pl',
        sync_playlist Sample.library (Some Sample.tracked) Sample.youtube
          "https://www.youtube.com/playlist?list=PL1" = Ok o
        ∧ saved o = Some d'
        ∧ printed o
          = [Fetching "https://www.youtube.com/playlist?list=PL1";
             SyncComplete "https://www.youtube.com/playlist?list=PL1"
               (length (filter (fun y => url y ∉ url <$> videos pl) ys))]
        ∧ dict_get "PL1" (playlists d') = Some pl'
        ∧ playlist_url pl' = playlist_url pl ∧ added_date pl' = added_date pl
        ∧ (ys = [] → videos pl' = [])
        ∧ (∀ k, k ≠ "PL1"%string →
                dict_get k (playlists d')
                = dict_get k (playlists (load_data (Some Sample.tracked))))
        ∧ last_fed_date d' = last_fed_date (load_data (Some Sample.tracked)).
Proof.
  eexists _, _. split; [reflexivity|]. split; [reflexivity|].
  apply (sync_reports_new Sample.library (Some Sample.tracked) Sample.youtube
           "https://www.youtube.com/playlist?list=PL1" "PL1");
    reflexivity.
Defined.

Lemma sync_twice_witness :
  ∃ o d',
    sync_playlist Sample.library (Some Sample.tracked) Sample.youtube
      "https://www.youtube.com/playlist?list=PL1" = Ok o
    ∧ saved o = Some d'
    ∧ sync_playlist Sample.library (Some d') Sample.youtube
        "https://www.youtube.com/playlist?list=PL1"
      = Ok {| saved := Some d';
              printed := [Fetching "https://www.youtube.com/playlist?list=PL1";
                          SyncComplete "https://www.youtube.com/playlist?list=PL1" 0] |}.
Proof.
  eapply (sync_twice Sample.library (Some Sample.tracked) Sample.youtube
            "https://www.youtube.com/playlist?list=PL1" "PL1");
    try reflexivity.
  apply (bool_decide_unpack _). vm_compute. exact I.
Defined.

Lemma sync_saves_only_tracked_witness :
  ∃ o, sync_playlist Sample.library (Some Sample.tracked) Sample.youtube
         "https://www.youtube.com/playlist?list=PL1" = Ok o
       ∧ ∀ d', saved o = Some d' →
           ∃ pid pl ys,
             get_playlist_id Sample.library
               "https://www.youtube.com/playlist?list=PL1" = Ok (Some pid)
             ∧ dict_get pid (playlists (load_data (Some Sample.tracked))) = Some pl
             ∧ get_playlist_items Sample.library Sample.youtube = inr ys.
Proof.
  eexists. split; [reflexivity|].
  refine (proj1 (sync_saves_only_tracked Sample.library (Some Sample.tracked)
                   Sample.youtube "https://www.youtube.com/playlist?list=PL1" _ _)).
  reflexivity.
Defined.


Lemma feed_shows_top_witness :
  ∃ o d' l,
    get_next_video_limit Sample.library 2 (Date 2024 3 7) (Some Sample.rated) = Ok o
    ∧ saved o = Some d'
    ∧ sorted_unfed_videos Sample.library (load_data (Some Sample.rated)) = Ok l
    ∧ fed_urls (printed o) = take 2 (url <$> l)
    ∧ url <$> shown_videos (printed o) = take 2 (url <$> l)
    ∧ length (shown_videos (printed o))
      = (2 `min` length (unfed_videos (playlists (load_data (Some Sample.rated)))))%nat
    ∧ unfed_videos (playlists (load_data (Some Sample.rated)))
      ≡ₚ shown_videos (printed o) ++ unfed_videos (playlists d')
    ∧ (NoDup (url <$> unfed_videos (playlists (load_data (Some Sample.rated)))) →
       shown_videos (printed o) = take 2 l).
Proof.
  apply (feed_shows_top Sample.library 2 (Date 2024 3 7) (Some Sample.rated)).
  - exact sample_gate_open.
  - discriminate.
  - exact sample_timestamps_readable.
Defined.

Lemma feed_next_day_witness :
  ∃ o1 d1 o2 d2,
    get_next_video_limit Sample.library 2 (Date 2024 3 7) (Some Sample.rated) = Ok o1
    ∧ saved o1 = Some d1
    ∧ last_fed_date d1 = Some (isoformat (Date 2024 3 7))
    ∧ get_next_video_limit Sample.library 2 (Date 2024 3 7) (Some d1)
      = Ok (no_save [AlreadyFedToday])
    ∧ get_next_video_limit Sample.library 2 (Date 2024 3 8) (Some d1) = Ok o2
    ∧ file_after (Some d1) o2 = Some d2
    ∧ (unfed_videos (playlists d1) = [] → o2 = no_save [NoUnfedVideos])
    ∧ (unfed_videos (playlists d1) ≠ [] →
       saved o2 = Some d2 ∧ last_fed_date d2 = Some (isoformat (Date 2024 3 8)))
    ∧ length (shown_videos (printed o1))
      = (2 `min` length (unfed_videos (playlists (load_data (Some Sample.rated)))))%nat
    ∧ length (shown_videos (printed o2))
      = (2 `min` length (unfed_videos (playlists d1)))%nat
    ∧ unfed_videos (playlists (load_data (Some Sample.rated)))
      ≡ₚ shown_videos (printed o1) ++ shown_videos (printed o2)
         ++ unfed_videos (playlists d2)
    ∧ playlists_rel fed_step (playlists (load_data (Some Sample.rated)))
                    (playlists d2).
Proof.
  apply (feed_next_day Sample.library 2 (Date 2024 3 7) (Date 2024 3 8)
           (Some Sample.rated)).
  - exact sample_gate_open.
  - discriminate.
  - exact sample_timestamps_readable.
  - reflexivity.
  - discriminate.
Defined.

Lemma list_playlists_counts_witness :
  list_playlists Sample.library None = Ok [NoPlaylistsTracked]
  ∧ ∃ lines,
      list_playlists Sample.library (Some Invocation.listed)
        = Ok (TrackedPlaylistsHeader :: lines)
      ∧ sum_list_with line_unfed lines
        = length (unfed_videos (playlists (load_data (Some Invocation.listed)))).
Proof.
  split.
  - exact (proj1 (list_playlists_counts Sample.library None) eq_refl).
  - eexists. split; [reflexivity|].
    refine (proj2 (proj1 (proj2 (list_playlists_counts Sample.library
                                   (Some Invocation.listed))) _ _) _).
    + discriminate.
    + refine (proj1 (proj1 (proj1 (proj2 (list_playlists_counts Sample.library
                                            (Some Invocation.listed))) _ _)) _).
      * discriminate.
      * reflexivity.
Defined.


Lemma sample_tracked_complete :
  all_videos analysis_complete (playlists (load_data (Some Sample.tracked))).
Proof.
  intros pid pl v Hpl Hv.
  apply list_elem_of_singleton in Hpl. injection Hpl as -> ->.
  apply elem_of_cons in Hv as [->|Hv].
  { right. repeat split; eexists; reflexivity. }
  apply list_elem_of_singleton in Hv as ->.
  left. repeat split; reflexivity.
Defined.

Lemma main_saves_only_writing_witness :
  ∃ r d',
    main Sample.library Sample.json_loads (Invocation.world (Some Sample.tracked))
         ["app.py"; "watch"; "https://youtu.be/bbb"]%string = Ok r
    ∧ run_saved r = Some d'
    ∧ ∃ prog command args,
        ["app.py"; "watch"; "https://youtu.be/bbb"]%string = prog :: command :: args
        ∧ command ∈ writing_commands
        ∧ (arguments_needed command ≤ length args)%nat.
Proof.
  eexists _, _. split; [reflexivity|]. split; [reflexivity|].
  apply (main_saves_only_writing Sample.library Sample.json_loads
           (Invocation.world (Some Sample.tracked))
           ["app.py"; "watch"; "https://youtu.be/bbb"]%string _ _ eq_refl eq_refl).
Defined.

Lemma main_keeps_analysis_whole_witness :
  ∃ r d',
    main Sample.library Sample.json_loads (Invocation.world (Some Sample.tracked))
         ["app.py"; "analyze"; "https://youtu.be/bbb"; "a talk"; "useful";
          "try it;measure"]%string = Ok r
    ∧ run_saved r = Some d'
    ∧ all_videos analysis_complete (playlists d').
Proof.
  eexists _, _. split; [reflexivity|]. split; [reflexivity|].
  apply (main_keeps_analysis_whole Sample.library Sample.json_loads
           (Invocation.world (Some Sample.tracked))
           ["app.py"; "analyze"; "https://youtu.be/bbb"; "a talk"; "useful";
            "try it;measure"]%string _ _ eq_refl eq_refl).
  exact sample_tracked_complete.
Defined.

Lemma main_never_untracks_witness :
  ∃ pl r d',
    dict_get "PL1" (playlists (load_data (Some Sample.tracked))) = Some pl
    ∧ main Sample.library Sample.json_loads (Invocation.world (Some Sample.tracked))
           ["app.py"; "skip"; "https://youtu.be/bbb"]%string = Ok r
    ∧ run_saved r = Some d'
    ∧ ∃ pl', dict_get "PL1" (playlists d') = Some pl'
             ∧ playlist_url pl' = playlist_url pl
             ∧ added_date pl' = added_date pl
             ∧ (["app.py"; "skip"; "https://youtu.be/bbb"]%string !! 1
                ≠ Some "sync"%string →
                Forall2 edit_step (videos pl) (videos pl')).
Proof.
  eexists _, _, _. split; [reflexivity|]. split; [reflexivity|].
  split; [reflexivity|].
  apply (main_never_untracks Sample.library Sample.json_loads
           (Invocation.world (Some Sample.tracked))
           ["app.py"; "skip"; "https://youtu.be/bbb"]%string _ _ "PL1" _
           eq_refl eq_refl eq_refl).
Defined.

Lemma main_last_fed_date_witness :
  ∃ r d',
    main Sample.library Sample.json_loads (Invocation.world (Some Sample.rated))
         ["app.py"; "next"]%string = Ok r
    ∧ run_saved r = Some d'
    ∧ last_fed_date d' = Some "2024-03-07"%string.
Proof.
  eexists _, _. split; [reflexivity|]. split; [reflexivity|].
  apply (main_last_fed_date Sample.library Sample.json_loads
           (Invocation.world (Some Sample.rated))
           ["app.py"; "next"]%string _ _ eq_refl eq_refl).
Defined.

Lemma main_usage_witness :
  main Sample.library Sample.json_loads (Invocation.world None)
       ["app.py"; "analyze"; "https://youtu.be/bbb"; "a talk"]%string
  = Ok {| run_saved := None; run_printed := [UsageOf "analyze"] |}
  ∧ main Sample.library Sample.json_loads (Invocation.world None)
         ["app.py"; "remove"; "https://youtu.be/bbb"]%string
    = Ok {| run_saved := None; run_printed := [UnknownCommand "remove"] |}.
Proof.
  split.
  - apply (proj1 (proj2 (main_usage Sample.library Sample.json_loads
                           (Invocation.world None) "app.py" "analyze"
                           ["https://youtu.be/bbb"; "a talk"]%string))).
    + apply (bool_decide_unpack _). vm_compute. exact I.
    + vm_compute. lia.
  - apply (proj1 (proj2 (proj2 (main_usage Sample.library Sample.json_loads
                           (Invocation.world None) "app.py" "remove"
                           ["https://youtu.be/bbb"]%string)))).
    apply (bool_decide_unpack _). vm_compute. exact I.
Defined.

Lemma get_playlist_items_answers_witness :
  (∃ vs, get_playlist_items Sample.library Sample.youtube = inr vs
         ∧ Forall2 (fun item v => video_of_item Sample.library item = Ok v)
             (concat ((fun ids : list string =>
                         (fun id : string => {| item_id := id;
                                       item_publishedAt := "2024-02-02T00:00:00Z";
                                       item_title := "title of " +:+ id;
                                       item_description := "about " +:+ id |})
                         <$> ids)
                      <$> batches 50 ["aaa"; "ccc"]%string))
             vs)
  ∧ ∃ e', get_playlist_items Sample.library Invocation.failing
          = inl (ApiFailed e').
Proof.
  split.
  - apply (proj1 (get_playlist_items_answers Sample.library Sample.youtube
                    [[Some "aaa"%string; None]; [Some "ccc"%string]] eq_refl)).
    intros b Hb. reflexivity.
  - apply (proj2 (get_playlist_items_answers Sample.library Invocation.failing
                    [[Some "aaa"%string]] eq_refl) ["aaa"%string] HttpError).
    + apply list_elem_of_here.
    + reflexivity.
Defined.

Lemma watch_url_in_playlist_witness :
  normalize_youtube_url Sample.library
    ("https://www.youtube.com/watch?v=" +:+ "dQw4w9WgXcQ" +:+ "&list=" +:+ "PL123")
    = Ok (canonical "dQw4w9WgXcQ")
  ∧ get_playlist_id Sample.library
      ("https://www.youtube.com/watch?v=" +:+ "dQw4w9WgXcQ" +:+ "&list=" +:+ "PL123")
    = Ok (Some "PL123"%string)
  ∧ get_playlist_id Sample.library (canonical "dQw4w9WgXcQ") = Ok None.
Proof.
  apply (watch_url_in_playlist Sample.library "dQw4w9WgXcQ" "PL123"); reflexivity.
Defined.

Lemma parse_points_items_witness :
  Str.nonempty "try it" = true
  ∧ Str.mem ";" "try it" = false
  ∧ starts_clean "try it" ∧ starts_clean (String.rev "try it")
  ∧ ∃ ap, ap ∈ Str.split ";" " try it ; ;measure" ∧ "try it"%string = Strip.strip ap.
Proof.
  apply (parse_points_items " try it ; ;measure" "try it").
  vm_compute. apply list_elem_of_here.
Defined.

Lemma strip_fence_unwraps_witness :
  strip_fence "{}" = "{}"%string ∧ strip_fence "```json {}" = "```json {}"%string.
Proof.
  split.
  - exact (proj1 (proj2 (strip_fence_unwraps EmptyString "{}")) eq_refl).
  - exact (proj2 (proj2 (strip_fence_unwraps EmptyString "```json {}")) eq_refl).
Defined.
